(** * Pixel Agents gateway bridge: a shallow embedding and its properties

    The development follows the TypeScript sources of the bridge:
    - [server/eventTranslator.ts]  (the [EventTranslator] and [formatToolStatus]),
    - [server/gatewayClient.ts]    (the [GatewayClient]),
    - [server/dashboardServer.ts]  (the snapshot sent by [sendInitialState]),
    - [src/api/wsClient.ts]        (the browser side [WebSocketClient]).

    Conventions of the embedding.
    - A JavaScript string is the list of its UTF-16 code units, so that
      [length], [slice] and [split] count what the engine counts.
    - A JavaScript [Map] is an insertion-ordered association list: the code
      iterates maps ([Array.from(m.values())], [for ... of m]) and the order
      is observable in what is sent.
    - Counters ([nextAgentId], [toolIdCounter], [requestId]) are natural
      numbers; they are only ever incremented by one from a small literal.
    - [Date.now()] is an input of the handler that reads it.
    - A method is a function from the object's state to its new state and
      the list of messages, frames or settlements it produced, in order. *)

From Stdlib Require Import ZArith Lia String Ascii.
From stdpp Require Import base list sorting pretty.

Local Open Scope Z_scope.
Local Open Scope nat_scope.

(** ** JavaScript strings *)

Abbreviation jsstring := (list N) (only parsing).

(** An ASCII literal of the source, as code units. *)
Definition js (s : string) : jsstring :=
  (fun a => N_of_ascii a) <$> list_ascii_of_string s.

(** U+2026 HORIZONTAL ELLIPSIS, one code unit. *)
Definition ellipsis : jsstring := [8230%N].

(** Template literal [`${n}`] for a non-negative integer [n]. *)
Definition decimal (n : nat) : jsstring := js (pretty n).

(** [s.split(sep)] for a one-unit separator: never the empty array. *)
Fixpoint split (sep : N) (s : jsstring) : list jsstring :=
  match s with
  | [] => [[]]
  | c :: s' =>
      if decide (c = sep) then [] :: split sep s'
      else match split sep s' with
           | [] => [[c]]
           | w :: ws => (c :: w) :: ws
           end
  end.

Definition slash : N := 47%N.

(** [a ?? b] on a value that is either present or null/undefined. *)
Definition nullish {A} (a b : option A) : option A :=
  match a with Some x => Some x | None => b end.

Infix "??" := nullish (at level 45, left associativity).

(** Truthiness of a [string | undefined]: the empty string is falsy. *)
Definition truthy (s : option jsstring) : option jsstring :=
  match s with
  | Some (c :: r) => Some (c :: r)
  | _ => None
  end.

(** ** JavaScript [Map]: insertion-ordered association list *)

Module JsMap.
Section map.
Context {K V : Type} `{EqDecision K}.

Fixpoint get (k : K) (m : list (K * V)) : option V :=
  match m with
  | [] => None
  | (k', v) :: m' => if decide (k' = k) then Some v else get k m'
  end.

(** [m.set(k, v)]: an existing key keeps its position, a new key goes last. *)
Fixpoint set (k : K) (v : V) (m : list (K * V)) : list (K * V) :=
  match m with
  | [] => [(k, v)]
  | (k', v') :: m' =>
      if decide (k' = k) then (k', v) :: m' else (k', v') :: set k v m'
  end.

Fixpoint delete (k : K) (m : list (K * V)) : list (K * V) :=
  match m with
  | [] => []
  | (k', v') :: m' =>
      if decide (k' = k) then m' else (k', v') :: delete k m'
  end.

(** Mutation of the object stored under [k]: the map holds a reference, so
    the map sees the change. *)
Fixpoint alter (f : V -> V) (k : K) (m : list (K * V)) : list (K * V) :=
  match m with
  | [] => []
  | (k', v') :: m' =>
      if decide (k' = k) then (k', f v') :: m' else (k', v') :: alter f k m'
  end.

Definition keys (m : list (K * V)) : list K := m.*1.
Definition values (m : list (K * V)) : list V := m.*2.
End map.
End JsMap.

Abbreviation JsMap K V := (list (K * V)) (only parsing).

(** ** Shared types ([server/types.ts]) *)

Inductive GatewayConnectionState :=
  | connecting | connected | disconnected | handshaking | error_state.

Inductive AgentStatus := idle | busy | error | waiting_approval.

#[global] Instance GatewayConnectionState_eq_dec : EqDecision GatewayConnectionState.
Proof. solve_decision. Defined.

#[global] Instance AgentStatus_eq_dec : EqDecision AgentStatus.
Proof. solve_decision. Defined.

Module TrackedTool.
Record t := mk {
  toolId : jsstring;
  name : jsstring;
  status : jsstring;
  startedAt : Z;
  completedAt : option Z;
  done : bool;
  permissionWait : bool;
}.
End TrackedTool.

Module TrackedAgent.
Record t := mk {
  id : nat;
  sessionKey : jsstring;
  name : jsstring;
  status : AgentStatus;
  currentTask : option jsstring;
  currentRunId : option jsstring;
  toolHistory : list TrackedTool.t;
  createdAt : Z;
}.
End TrackedAgent.

(** A value of TypeScript type [unknown] that travels as JSON (of the
    numbers, the integers). *)
#[local] Set Warnings "-register-all".
Inductive json :=
  | JNull
  | JBool (b : bool)
  | JNum (z : Z)
  | JStr (s : jsstring)
  | JArr (l : list json)
  | JObj (l : list (jsstring * json)).

(** The literal type ['active' | 'waiting' | 'error'] of [agentStatus]. *)
Inductive StatusTag := active | waiting | error_tag.

(** [DashboardMessage]. The [agentMeta] and [folderNames] fields of
    [existingAgents] are the empty object at every construction site and are
    left out. *)
Inductive DashboardMessage :=
  | layoutLoaded (layout : json)
  | existingAgents (agents : list nat)
  | agentCreated (id : nat) (name : jsstring)
  | agentClosed (id : nat)
  | agentToolStart (id : nat) (toolId status : jsstring)
  | agentToolDone (id : nat) (toolId : jsstring)
  | agentToolsClear (id : nat)
  | agentStatus (id : nat) (status : StatusTag)
  | agentToolPermission (id : nat)
  | agentToolPermissionClear (id : nat)
  | agentError (id : nat) (error : jsstring)
  | connectionStatus (gateway : GatewayConnectionState) (detail : option jsstring)
  | settingsLoaded (soundEnabled : bool)
  | characterSpritesLoaded (characters : json)
  | floorTilesLoaded (sprites : json)
  | wallTilesLoaded (sprites : json)
  | furnitureAssetsLoaded (catalog sprites : json).

(** ** [formatToolStatus] ([server/eventTranslator.ts]) *)

(** The properties of a tool's [input] object that the formatter reads.
    [file_path] and [description] are [Some] exactly when the property is a
    string (the code tests [typeof]); [command] is typed by the source's
    cast and is [None] when null or undefined. *)
Module ToolInput.
Record t := mk {
  file_path : option jsstring;
  command : option jsstring;
  description : option jsstring;
}.
Definition empty : t := mk None None None.
End ToolInput.

Definition basename (p : option jsstring) : jsstring :=
  match p with
  | None => []
  | Some p => default p (last (split slash p))
  end.

Definition preview (n : nat) (s : jsstring) : jsstring :=
  if decide (n < length s) then take n s ++ ellipsis else s.

Definition formatToolStatus (toolName : jsstring) (input : ToolInput.t) : jsstring :=
  if decide (toolName = js "Read") then
    js "Reading " ++ basename (ToolInput.file_path input)
  else if decide (toolName = js "Edit") then
    js "Editing " ++ basename (ToolInput.file_path input)
  else if decide (toolName = js "Write") then
    js "Writing " ++ basename (ToolInput.file_path input)
  else if decide (toolName = js "Bash") then
    let cmd := default [] (ToolInput.command input) in
    js "Running: " ++ preview 60 cmd
  else if decide (toolName = js "Glob") then js "Searching files"
  else if decide (toolName = js "Grep") then js "Searching code"
  else if decide (toolName = js "WebFetch") then js "Fetching web content"
  else if decide (toolName = js "WebSearch") then js "Searching the web"
  else if decide (toolName = js "Task") then
    let desc := default [] (ToolInput.description input) in
    match desc with
    | [] => js "Running subtask"
    | _ => js "Subtask: " ++ preview 80 desc
    end
  else if decide (toolName = js "browser_navigate") then js "Opening browser"
  else if decide (toolName = js "browser_click") then js "Clicking in browser"
  else if decide (toolName = js "browser_type") then js "Typing in browser"
  else if decide (toolName = js "browser_snapshot") then js "Reading browser page"
  else js "Using " ++ toolName.

(** The case labels of the [switch]. *)
Definition knownTools : list jsstring :=
  js <$> ["Read"; "Edit"; "Write"; "Bash"; "Glob"; "Grep"; "WebFetch";
          "WebSearch"; "Task"; "browser_navigate"; "browser_click";
          "browser_type"; "browser_snapshot"]%string.

(** ** [EventTranslator] ([server/eventTranslator.ts]) *)

(** The properties of a gateway payload, or of its [data] object, that the
    handlers read. Each is typed as the source casts it; [None] is null or
    undefined. *)
Module Fields.
Record t := mk {
  phase : option jsstring;
  sessionKey : option jsstring;
  type : option jsstring;
  toolName : option jsstring;
  name : option jsstring;
  input : option ToolInput.t;
  toolId : option jsstring;
}.
Definition empty : t := mk None None None None None None None.
End Fields.

(** The payload of a gateway event: its own properties, and the [data]
    object when there is one. An undefined payload reads as [empty]: every
    access in the handlers is [payload?.x]. *)
Module Payload.
Record t := mk {
  top : Fields.t;
  stream : option jsstring;
  runId : option jsstring;
  error : option jsstring;
  data : option Fields.t;
}.
Definition empty : t := mk Fields.empty None None None None.
End Payload.

Module Translator.

Record t := mk {
  agents : JsMap jsstring TrackedAgent.t;
  nextAgentId : nat;
  sessionToId : JsMap jsstring nat;
  toolIdCounter : nat;
}.

(** The field initialisers of the class. *)
Definition init : t := mk [] 1 [] 0.

Definition with_agents (f : JsMap jsstring TrackedAgent.t -> JsMap jsstring TrackedAgent.t)
    (st : t) : t :=
  mk (f (agents st)) (nextAgentId st) (sessionToId st) (toolIdCounter st).

(** [payload?.sessionKey ?? payload?.data?.sessionKey] *)
Definition sessionKeyOf (p : Payload.t) : option jsstring :=
  Fields.sessionKey (Payload.top p) ?? (Payload.data p ≫= Fields.sessionKey).

(** [payload?.data?.phase ?? payload?.phase] *)
Definition lifecyclePhase (p : Payload.t) : option jsstring :=
  (Payload.data p ≫= Fields.phase) ?? Fields.phase (Payload.top p).

Definition restart (runId : option jsstring) (a : TrackedAgent.t) : TrackedAgent.t :=
  TrackedAgent.mk (TrackedAgent.id a) (TrackedAgent.sessionKey a)
    (TrackedAgent.name a) busy (TrackedAgent.currentTask a) runId []
    (TrackedAgent.createdAt a).

Definition finish (a : TrackedAgent.t) : TrackedAgent.t :=
  TrackedAgent.mk (TrackedAgent.id a) (TrackedAgent.sessionKey a)
    (TrackedAgent.name a) idle (TrackedAgent.currentTask a) None
    (TrackedAgent.toolHistory a) (TrackedAgent.createdAt a).

Definition set_status (s : AgentStatus) (a : TrackedAgent.t) : TrackedAgent.t :=
  TrackedAgent.mk (TrackedAgent.id a) (TrackedAgent.sessionKey a)
    (TrackedAgent.name a) s (TrackedAgent.currentTask a)
    (TrackedAgent.currentRunId a) (TrackedAgent.toolHistory a)
    (TrackedAgent.createdAt a).

Definition handleLifecycleEvent (now : Z) (p : Payload.t) (st : t)
    : t * list DashboardMessage :=
  match truthy (sessionKeyOf p) with
  | None => (st, [])
  | Some sessionKey =>
      let phase := lifecyclePhase p in
      if decide (phase = Some (js "start")) then
        match JsMap.get sessionKey (sessionToId st) with
        | None =>
            let id := nextAgentId st in
            let agent :=
              TrackedAgent.mk id sessionKey (js "Agent #" ++ decimal id) busy
                None (Payload.runId p) [] now in
            (mk (JsMap.set sessionKey agent (agents st)) (S id)
                (JsMap.set sessionKey id (sessionToId st)) (toolIdCounter st),
             [agentCreated id (TrackedAgent.name agent); agentStatus id active])
        | Some id =>
            (with_agents (JsMap.alter (restart (Payload.runId p)) sessionKey) st,
             [agentStatus id active])
        end
      else if decide (phase = Some (js "end")) then
        match JsMap.get sessionKey (sessionToId st) with
        | None => (st, [])
        | Some id =>
            (with_agents (JsMap.alter finish sessionKey) st,
             [agentToolsClear id; agentStatus id waiting])
        end
      else if decide (phase = Some (js "error")) then
        match JsMap.get sessionKey (sessionToId st) with
        | None => (st, [])
        | Some id =>
            (with_agents (JsMap.alter (set_status error) sessionKey) st,
             [agentError id (default (js "Unknown error") (Payload.error p))])
        end
      else (st, [])
  end.

(** [agent.currentTask = status; agent.toolHistory.push({...})] *)
Definition push_tool (tool : TrackedTool.t) (a : TrackedAgent.t) : TrackedAgent.t :=
  TrackedAgent.mk (TrackedAgent.id a) (TrackedAgent.sessionKey a)
    (TrackedAgent.name a) (TrackedAgent.status a)
    (Some (TrackedTool.status tool)) (TrackedAgent.currentRunId a)
    (TrackedAgent.toolHistory a ++ [tool]) (TrackedAgent.createdAt a).

Definition complete (now : Z) (tool : TrackedTool.t) : TrackedTool.t :=
  TrackedTool.mk (TrackedTool.toolId tool) (TrackedTool.name tool)
    (TrackedTool.status tool) (TrackedTool.startedAt tool) (Some now) true
    (TrackedTool.permissionWait tool).

(** [toolHistory.find(t => t.toolId === toolId)] and the mutation of the
    entry found, which the history holds by reference. *)
Definition mark_done (now : Z) (toolId : jsstring) (hist : list TrackedTool.t)
    : list TrackedTool.t :=
  match list_find (fun tool => TrackedTool.toolId tool = toolId) hist with
  | Some (i, tool) => <[i := complete now tool]> hist
  | None => hist
  end.

Definition finish_tool (now : Z) (toolId : jsstring) (a : TrackedAgent.t)
    : TrackedAgent.t :=
  TrackedAgent.mk (TrackedAgent.id a) (TrackedAgent.sessionKey a)
    (TrackedAgent.name a) (TrackedAgent.status a) (TrackedAgent.currentTask a)
    (TrackedAgent.currentRunId a)
    (mark_done now toolId (TrackedAgent.toolHistory a))
    (TrackedAgent.createdAt a).

(** [`tool-${n}`] *)
Definition generatedToolId (n : nat) : jsstring := js "tool-" ++ decimal n.

Definition handleToolEvent (now : Z) (p : Payload.t) (st : t)
    : t * list DashboardMessage :=
  match truthy (sessionKeyOf p) ≫= (fun k => (k,.) <$> JsMap.get k (sessionToId st)) with
  | None => (st, [])
  | Some (sessionKey, id) =>
      let toolEvent := default (Payload.top p) (Payload.data p) in
      let toolPhase := Fields.phase toolEvent ?? Fields.type toolEvent in
      let toolName :=
        default (js "unknown") (Fields.toolName toolEvent ?? Fields.name toolEvent) in
      let toolInput := default ToolInput.empty (Fields.input toolEvent) in
      (* [toolEvent?.toolId ?? `tool-${++this.toolIdCounter}`]: the counter
         moves only when the property is missing *)
      let '(toolId, counter) :=
        match Fields.toolId toolEvent with
        | Some i => (i, toolIdCounter st)
        | None => (generatedToolId (S (toolIdCounter st)), S (toolIdCounter st))
        end in
      let st1 := mk (agents st) (nextAgentId st) (sessionToId st) counter in
      if decide (toolPhase = Some (js "start") \/ toolPhase = Some (js "tool_start")) then
        let status := formatToolStatus toolName toolInput in
        let tool := TrackedTool.mk toolId toolName status now None false false in
        (with_agents (JsMap.alter (push_tool tool) sessionKey) st1,
         [agentToolStart id toolId status])
      else if decide (toolPhase = Some (js "end") \/ toolPhase = Some (js "tool_end")) then
        (with_agents (JsMap.alter (finish_tool now toolId) sessionKey) st1,
         [agentToolDone id toolId])
      else (st1, [])
  end.

Definition handleApprovalRequest (p : Payload.t) (st : t)
    : t * list DashboardMessage :=
  match truthy (Fields.sessionKey (Payload.top p)) ≫= (fun k => (k,.) <$> JsMap.get k (sessionToId st)) with
  | None => (st, [])
  | Some (sessionKey, id) =>
      (with_agents (JsMap.alter (set_status waiting_approval) sessionKey) st,
       [agentToolPermission id])
  end.

Definition handleGatewayEvent (now : Z) (event : jsstring) (p : Payload.t) (st : t)
    : t * list DashboardMessage :=
  if decide (event = js "agent.stream") then
    if decide (Payload.stream p = Some (js "lifecycle")) then
      handleLifecycleEvent now p st
    else if decide (Payload.stream p = Some (js "tool")) then
      handleToolEvent now p st
    else (st, [])
  else if decide (event = js "exec.approval.requested") then
    handleApprovalRequest p st
  else (st, []).

Definition getTrackedAgents (st : t) : list TrackedAgent.t :=
  JsMap.values (agents st).

(** One gateway event as the translator receives it, with the clock
    reading of its handler. *)
Record GatewayEvent := Ev { ev_now : Z; ev_name : jsstring; ev_payload : Payload.t }.

Definition step (st : t) (e : GatewayEvent) : t * list DashboardMessage :=
  handleGatewayEvent (ev_now e) (ev_name e) (ev_payload e) st.

(** The translator after a sequence of events, and everything it emitted. *)
Fixpoint run (st : t) (es : list GatewayEvent) : t * list DashboardMessage :=
  match es with
  | [] => (st, [])
  | e :: es' =>
      let '(st1, out1) := step st e in
      let '(st2, out2) := run st1 es' in
      (st2, out1 ++ out2)
  end.

End Translator.

(** ** [GatewayClient] ([server/gatewayClient.ts]) *)

(** [WebSocket.readyState]: 0, 1, 2, 3. *)
Inductive ReadyState := CONNECTING | OPEN | CLOSING | CLOSED.

#[global] Instance ReadyState_eq_dec : EqDecision ReadyState.
Proof. solve_decision. Defined.

Module Gateway.

(** The payload of a response frame: what [handleFrame] and [onConnected]
    read of it ([type], [policy.tickIntervalMs]) and the rest. *)
Module ResPayload.
Record t := mk {
  type : option jsstring;
  tickIntervalMs : option Z;
  rest : json;
}.
End ResPayload.

(** A parsed inbound frame. *)
Inductive Frame :=
  | EventFrame (event : jsstring) (payload : Payload.t)
  | ResFrame (id : jsstring) (ok : bool) (payload : option ResPayload.t)
      (errorMessage : option jsstring)
  | OtherFrame.

(** A frame handed to [ws.send]. The [params] of the [connect] request are
    built from the configuration and the platform and are left out. *)
Inductive OutFrame :=
  | ConnectReq (id : jsstring)
  | Req (id method : jsstring) (params : json)
  | Tick.

(** What an armed timer will run. *)
Inductive TimerKind :=
  | ReconnectTimer (delay : Z)
  | RequestTimer (id method : jsstring) (timeoutMs : Z)
  | TickTimer (tickMs : Z).

(** What a method does to the world outside the object, in order:
    [emit], [ws.send], [ws.close], and the settlement of the promise that
    [request] returned for a request id. *)
Inductive Effect :=
  | EmitConnectionState (s : GatewayConnectionState) (detail : option jsstring)
  | EmitGatewayEvent (event : jsstring) (payload : Payload.t)
  | EmitConnected
  | Send (sock : nat) (frame : OutFrame)
  | SocketClose (sock : nat)
  | Resolve (id : jsstring) (payload : option ResPayload.t)
  | Reject (id : jsstring) (message : jsstring)
  | RejectUnsent (message : jsstring).

(** The fields of the object, and the part of the runtime it acts on: the
    sockets it has constructed (a socket's handle is its index) and the
    timers that are armed. *)
Record t := mk {
  ws : option nat;
  state : GatewayConnectionState;
  reconnectTimer : option nat;
  reconnectDelay : Z;
  tickTimer : option nat;
  requestId : nat;
  pendingRequests : JsMap jsstring nat;
  sockets : list ReadyState;
  timers : list (nat * TimerKind);
  nextTimer : nat;
}.

Definition maxReconnectDelay : Z := 30000.

Definition init : t := mk None disconnected None 1000 None 0 [] [] [] 0.

Definition act := t -> t * list Effect.

Definition seq_act (f g : act) : act := fun st =>
  let '(s1, e1) := f st in
  let '(s2, e2) := g s1 in
  (s2, e1 ++ e2).
Infix ">>" := seq_act (at level 60, right associativity).

Definition skip : act := fun st => (st, []).
Definition effect (e : Effect) : act := fun st => (st, [e]).

Definition state_name (s : GatewayConnectionState) : jsstring :=
  match s with
  | connecting => js "connecting"
  | connected => js "connected"
  | disconnected => js "disconnected"
  | handshaking => js "handshaking"
  | error_state => js "error"
  end.

(** [this.ws?.readyState] *)
Definition readyState (st : t) : option ReadyState :=
  ws st ≫= fun i => sockets st !! i.

(** [setState] *)
Definition setState (s : GatewayConnectionState) (detail : option jsstring) : act :=
  fun st =>
    (mk (ws st) s (reconnectTimer st) (reconnectDelay st) (tickTimer st)
        (requestId st) (pendingRequests st) (sockets st) (timers st) (nextTimer st),
     [EmitConnectionState s detail]).

(** [setTimeout] / [setInterval]: a fresh handle, armed. *)
Definition arm (k : TimerKind) (st : t) : nat * list (nat * TimerKind) * nat :=
  (nextTimer st, timers st ++ [(nextTimer st, k)], S (nextTimer st)).

(** [clearTimeout] / [clearInterval] *)
Definition disarm (h : nat) (ts : list (nat * TimerKind)) : list (nat * TimerKind) :=
  filter (fun t => t.1 ≠ h) ts.

(** [sendRaw]: the frame is sent when [this.ws] is open, dropped otherwise. *)
Definition sendRaw (frame : OutFrame) : act := fun st =>
  match ws st with
  | Some i =>
      if decide (sockets st !! i = Some OPEN) then (st, [Send i frame]) else (st, [])
  | None => (st, [])
  end.

(** [`pa-${n}`] *)
Definition requestIdName (n : nat) : jsstring := js "pa-" ++ decimal n.

(** [scheduleReconnect]: nothing while a timer is held; otherwise a timer
    for the current delay, and the delay doubled up to the maximum. *)
Definition scheduleReconnect : act := fun st =>
  match reconnectTimer st with
  | Some _ => (st, [])
  | None =>
      let '(h, ts, next) := arm (ReconnectTimer (reconnectDelay st)) st in
      (mk (ws st) (state st) (Some h)
          (Z.min (reconnectDelay st * 2) maxReconnectDelay)
          (tickTimer st) (requestId st) (pendingRequests st) (sockets st) ts next,
       [])
  end.

(** [connect()]. [throws] is the exception of [new WebSocket(url)], as the
    text it prints, when the constructor throws. *)
Definition connect (throws : option jsstring) : act := fun st =>
  if decide (readyState st = Some OPEN \/ readyState st = Some CONNECTING) then (st, [])
  else
    (setState connecting None >>
     (fun st =>
        match throws with
        | Some e =>
            (setState error_state (Some (js "Failed to create WebSocket: " ++ e)) >>
             scheduleReconnect) st
        | None =>
            (mk (Some (length (sockets st))) (state st) (reconnectTimer st)
                (reconnectDelay st) (tickTimer st) (requestId st)
                (pendingRequests st) (sockets st ++ [CONNECTING]) (timers st)
                (nextTimer st),
             [])
        end)) st.

(** [sendConnectRequest]: the next request id is drawn and the frame sent;
    [pendingRequests] is not touched. *)
Definition sendConnectRequest : act := fun st =>
  let n := S (requestId st) in
  sendRaw (ConnectReq (requestIdName n))
    (mk (ws st) (state st) (reconnectTimer st) (reconnectDelay st) (tickTimer st)
        n (pendingRequests st) (sockets st) (timers st) (nextTimer st)).

(** [onConnected] *)
Definition onConnected (helloPayload : ResPayload.t) : act :=
  (fun st =>
     (mk (ws st) (state st) (reconnectTimer st) 1000 (tickTimer st) (requestId st)
         (pendingRequests st) (sockets st) (timers st) (nextTimer st), [])) >>
  setState connected None >>
  (fun st =>
     let tickMs := default 15000%Z (ResPayload.tickIntervalMs helloPayload) in
     let '(h, ts, next) := arm (TickTimer tickMs) st in
     (mk (ws st) (state st) (reconnectTimer st) (reconnectDelay st) (Some h)
         (requestId st) (pendingRequests st) (sockets st) ts next, [])) >>
  effect EmitConnected.

(** [handleFrame] *)
Definition handleFrame (frame : Frame) : act :=
  match frame with
  | EventFrame event payload =>
      if decide (event = js "connect.challenge") then sendConnectRequest
      else effect (EmitGatewayEvent event payload)
  | ResFrame id ok payload errorMessage => fun st =>
      match JsMap.get id (pendingRequests st) with
      | None => (st, [])
      | Some timer =>
          let st1 :=
            mk (ws st) (state st) (reconnectTimer st) (reconnectDelay st)
               (tickTimer st) (requestId st) (JsMap.delete id (pendingRequests st))
               (sockets st) (disarm timer (timers st)) (nextTimer st) in
          if ok then
            ((fun st =>
                match payload with
                | Some hello =>
                    if decide (ResPayload.type hello = Some (js "hello-ok"))
                    then onConnected hello st else (st, [])
                | None => (st, [])
                end) >>
             effect (Resolve id payload)) st1
          else
            (st1, [Reject id (default (js "Request failed") errorMessage)])
      end
  | OtherFrame => skip
  end.

(** [request]: the body of the promise executor. *)
Definition request (method : jsstring) (params : json) (timeoutMs : Z) : act :=
  fun st =>
    if decide (state st = connected) then
      let n := S (requestId st) in
      let id := requestIdName n in
      let '(h, ts, next) := arm (RequestTimer id method timeoutMs) st in
      sendRaw (Req id method params)
        (mk (ws st) (state st) (reconnectTimer st) (reconnectDelay st)
            (tickTimer st) n (JsMap.set id h (pendingRequests st)) (sockets st)
            ts next)
    else
      (st, [RejectUnsent (js "Gateway not connected (state: " ++ state_name (state st)
                            ++ js ")")]).

(** The callback of the timer armed by [request]. *)
Definition requestTimeout (id method : jsstring) : act := fun st =>
  (mk (ws st) (state st) (reconnectTimer st) (reconnectDelay st) (tickTimer st)
      (requestId st) (JsMap.delete id (pendingRequests st)) (sockets st)
      (timers st) (nextTimer st),
   [Reject id (js "Request " ++ method ++ js " timed out")]).

(** [cleanup] *)
Definition cleanup : act := fun st =>
  let ts1 := from_option (fun h => disarm h (timers st)) (timers st) (tickTimer st) in
  let ts2 := foldl (fun ts p => disarm p.2 ts) ts1 (pendingRequests st) in
  (mk None (state st) (reconnectTimer st) (reconnectDelay st) None (requestId st)
      [] (sockets st) ts2 (nextTimer st),
   (fun p => Reject p.1 (js "Connection closed")) <$> pendingRequests st).

(** [disconnect]: the reconnect timer, then [cleanup], then the test of
    [this.ws] and [close], then the state. *)
Definition disconnect : act :=
  (fun st =>
     match reconnectTimer st with
     | Some h =>
         (mk (ws st) (state st) None (reconnectDelay st) (tickTimer st)
             (requestId st) (pendingRequests st) (sockets st)
             (disarm h (timers st)) (nextTimer st), [])
     | None => (st, [])
     end) >>
  cleanup >>
  (fun st =>
     match ws st with
     | Some i =>
         (mk None (state st) (reconnectTimer st) (reconnectDelay st) (tickTimer st)
             (requestId st) (pendingRequests st)
             (alter (fun r => match r with OPEN | CONNECTING => CLOSING | _ => r end)
                    i (sockets st))
             (timers st) (nextTimer st),
          [SocketClose i])
     | None => (st, [])
     end) >>
  setState disconnected None.

(** The handlers that [connect] attaches to the socket it constructs. *)
Definition onOpen : act := setState handshaking None.

Definition onMessage (parsed : option Frame) : act :=
  match parsed with
  | Some frame => handleFrame frame
  | None => skip
  end.

Definition onClose : act :=
  cleanup >> setState disconnected None >> scheduleReconnect.

(** The callback of the timer armed by [scheduleReconnect]. *)
Definition reconnectFires (throws : option jsstring) : act :=
  (fun st =>
     (mk (ws st) (state st) None (reconnectDelay st) (tickTimer st) (requestId st)
         (pendingRequests st) (sockets st) (timers st) (nextTimer st), [])) >>
  connect throws.

(** What can happen to the object: a call of a public method, an event of
    a socket it constructed, or the firing of an armed timer. Listeners of
    the emitted events are callers like any other; the one listener that
    calls back ([request] from the listener of ['connected']) does so when
    nothing but the settlement of the response is left to do. *)
Inductive Event :=
  | CallConnect (throws : option jsstring)
  | CallDisconnect
  | CallRequest (method : jsstring) (params : json) (timeoutMs : Z)
  | SockOpen (i : nat)
  | SockMessage (i : nat) (parsed : option Frame)
  | SockClose (i : nat)
  | SockError (i : nat)
  | TimerFires (h : nat) (throws : option jsstring).

Definition set_socket (i : nat) (r : ReadyState) (st : t) : t :=
  mk (ws st) (state st) (reconnectTimer st) (reconnectDelay st) (tickTimer st)
     (requestId st) (pendingRequests st) (<[i := r]> (sockets st)) (timers st)
     (nextTimer st).

Definition set_timers (ts : list (nat * TimerKind)) (st : t) : t :=
  mk (ws st) (state st) (reconnectTimer st) (reconnectDelay st) (tickTimer st)
     (requestId st) (pendingRequests st) (sockets st) ts (nextTimer st).

Definition timer_kind (h : nat) (st : t) : option TimerKind :=
  (fun found => found.2.2) <$> list_find (fun t => t.1 = h) (timers st).

(** One event, when the runtime can deliver it: [None] otherwise (an
    [open] of a socket that is not connecting, a timer that is not
    armed, ...). *)
Definition step (st : t) (e : Event) : option (t * list Effect) :=
  match e with
  | CallConnect throws => Some (connect throws st)
  | CallDisconnect => Some (disconnect st)
  | CallRequest method params timeoutMs => Some (request method params timeoutMs st)
  | SockOpen i =>
      match sockets st !! i with
      | Some CONNECTING => Some (onOpen (set_socket i OPEN st))
      | _ => None
      end
  | SockMessage i parsed =>
      match sockets st !! i with
      | Some OPEN | Some CLOSING => Some (onMessage parsed st)
      | _ => None
      end
  | SockClose i =>
      match sockets st !! i with
      | Some CLOSED | None => None
      | Some _ => Some (onClose (set_socket i CLOSED st))
      end
  | SockError i =>
      match sockets st !! i with
      | Some _ => Some (st, [])
      | None => None
      end
  | TimerFires h throws =>
      match timer_kind h st with
      | Some (ReconnectTimer _) =>
          Some (reconnectFires throws (set_timers (disarm h (timers st)) st))
      | Some (RequestTimer id method _) =>
          Some (requestTimeout id method (set_timers (disarm h (timers st)) st))
      | Some (TickTimer _) => Some (sendRaw Tick st)
      | None => None
      end
  end.

Fixpoint run (st : t) (es : list Event) : option (t * list Effect) :=
  match es with
  | [] => Some (st, [])
  | e :: es' =>
      match step st e with
      | Some (st1, out1) =>
          match run st1 es' with
          | Some (st2, out2) => Some (st2, out1 ++ out2)
          | None => None
          end
      | None => None
      end
  end.

End Gateway.

(** ** [DashboardServer.sendInitialState] ([server/dashboardServer.ts]) *)

Module Dashboard.

(** What the loaders of [assetLoader.ts] and [layoutStore.ts] return when
    [sendInitialState] calls them: [None] is their [null]. *)
Record Loaded := mkLoaded {
  characterSprites : option json;
  floorTiles : option json;
  wallTiles : option json;
  furnitureAssets : option (json * json);
  storedLayout : option json;
  defaultLayout : option json;
}.

(** [sendTo(ws, msg)]: the messages handed to [ws.send]. *)
Definition sendTo (ws : ReadyState) (msg : DashboardMessage) : list DashboardMessage :=
  if decide (ws = OPEN) then [msg] else [].

Definition sendIf {A} (ws : ReadyState) (loaded : option A) (msg : A -> DashboardMessage)
    : list DashboardMessage :=
  match loaded with
  | Some a => sendTo ws (msg a)
  | None => []
  end.

(** The four asset blocks at the head of the function. *)
Definition sendAssets (ws : ReadyState) (env : Loaded) : list DashboardMessage :=
  sendIf ws (characterSprites env) characterSpritesLoaded ++
  sendIf ws (floorTiles env) floorTilesLoaded ++
  sendIf ws (wallTiles env) wallTilesLoaded ++
  sendIf ws (furnitureAssets env) (fun f => furnitureAssetsLoaded f.1 f.2).

(** The body of the loop over the agents. *)
Definition replayAgent (ws : ReadyState) (agent : TrackedAgent.t) : list DashboardMessage :=
  match TrackedAgent.status agent with
  | busy =>
      sendTo ws (agentStatus (TrackedAgent.id agent) active) ++
      (TrackedAgent.toolHistory agent ≫= fun tool =>
         if TrackedTool.done tool then []
         else sendTo ws (agentToolStart (TrackedAgent.id agent)
                           (TrackedTool.toolId tool) (TrackedTool.status tool)))
  | error => sendTo ws (agentStatus (TrackedAgent.id agent) error_tag)
  | _ => []
  end.

Definition sendInitialState (ws : ReadyState) (env : Loaded)
    (translator : Translator.t) (gateway : Gateway.t) : list DashboardMessage :=
  let agents := Translator.getTrackedAgents translator in
  sendAssets ws env ++
  sendTo ws (settingsLoaded true) ++
  sendTo ws (existingAgents (TrackedAgent.id <$> agents)) ++
  sendTo ws (layoutLoaded (default JNull (storedLayout env ?? defaultLayout env))) ++
  (agents ≫= replayAgent ws) ++
  sendTo ws (connectionStatus (Gateway.state gateway) None).

End Dashboard.

(** ** The browser's [WebSocketClient] ([src/api/wsClient.ts]) *)

Module WsClient.

Inductive ConnectionState :=
  | ws_connecting | ws_connected | ws_disconnected | ws_reconnecting.

(** The object: [ws] is the socket it holds, by its [readyState], or
    [None] for [null]. A message is the text [JSON.stringify] made of it. *)
Record t := mk {
  ws : option ReadyState;
  reconnectTimer : option nat;
  reconnectDelay : Z;
  state : ConnectionState;
  sendBuffer : list jsstring;
}.

Definition maxBufferSize : nat := 100.

Definition init : t := mk None None 1000 ws_disconnected [].

Inductive Effect :=
  | Sent (serialized : jsstring)
  | Notified (state : ConnectionState) (detail : option jsstring).

Definition quote : jsstring := [34%N].

(** [JSON.stringify({ type: 'webviewReady' })] *)
Definition webviewReady : jsstring :=
  js "{" ++ quote ++ js "type" ++ quote ++ js ":" ++ quote ++ js "webviewReady"
    ++ quote ++ js "}".

Definition setState (s : ConnectionState) (detail : option jsstring) (st : t)
    : t * list Effect :=
  (mk (ws st) (reconnectTimer st) (reconnectDelay st) s (sendBuffer st),
   [Notified s detail]).

(** [arr.shift()] *)
Definition shift {A} (l : list A) : list A := drop 1 l.

Definition postMessage (serialized : jsstring) (st : t) : t * list Effect :=
  if decide (ws st = Some OPEN) then (st, [Sent serialized])
  else
    let pushed := sendBuffer st ++ [serialized] in
    (mk (ws st) (reconnectTimer st) (reconnectDelay st) (state st)
        (if decide (maxBufferSize < length pushed) then shift pushed else pushed),
     []).

(** [this.ws?.send(msg)] *)
Definition wsSend (msg : jsstring) (st : t) : list Effect :=
  match ws st with
  | Some _ => [Sent msg]
  | None => []
  end.

(** The [onopen] handler of the socket that [connect] stored in [this.ws]. *)
Definition onopen (st : t) : t * list Effect :=
  let '(st1, e1) := setState ws_connected None st in
  let st2 := mk (ws st1) (reconnectTimer st1) 1000 (state st1) (sendBuffer st1) in
  let e2 := sendBuffer st2 ≫= fun msg => wsSend msg st2 in
  let st3 := mk (ws st2) (reconnectTimer st2) (reconnectDelay st2) (state st2) [] in
  let '(st4, e4) := postMessage webviewReady st3 in
  (st4, e1 ++ e2 ++ e4).

End WsClient.

(** * The rest of the bridge *)

(** ** JSON values as the code reads them *)

(** [j.k] for a value that [JSON.parse] produced: the property of an object
    (the last binding of a repeated key wins), undefined for a string, a
    number, a boolean or an array, which have none of the properties the
    code asks for. [None] on [null], where the access throws, is told apart
    by [is_null]. *)
Fixpoint prop_of (k : jsstring) (l : list (jsstring * json)) : option json :=
  match l with
  | [] => None
  | (k', v) :: l' =>
      match prop_of k l' with
      | Some w => Some w
      | None => if decide (k' = k) then Some v else None
      end
  end.

Definition prop (k : jsstring) (j : json) : option json :=
  match j with
  | JObj l => prop_of k l
  | _ => None
  end.

(** Truthiness of a value that may be undefined. *)
Definition truthy_json (j : option json) : bool :=
  match j with
  | None | Some JNull | Some (JBool false) | Some (JNum 0) | Some (JStr []) => false
  | Some _ => true
  end.

(** [Array.isArray] *)
Definition isArray (j : option json) : bool :=
  match j with Some (JArr _) => true | _ => false end.

(** [typeof j === 'number'] *)
Definition isNumber (j : option json) : bool :=
  match j with Some (JNum _) => true | _ => false end.

(** [j === id] for a number [id] *)
Definition is_number (id : nat) (j : option json) : bool :=
  match j with
  | Some (JNum z) => bool_decide (z = Z.of_nat id)
  | _ => false
  end.

(** ** [EventTranslator]: the methods beside the handlers *)

Module EventTranslator.

(** [getAgentById] *)
Definition getAgentById (id : nat) (st : Translator.t) : option TrackedAgent.t :=
  snd <$> list_find (fun agent => TrackedAgent.id agent = id)
            (JsMap.values (Translator.agents st)).

(** [syncInitialState]: the request it awaits, and the message it emits
    when the request has settled, whichever way. *)
Definition syncInitialState_request : Gateway.act :=
  Gateway.request (js "system-presence") (JObj []) 10000.

Definition syncInitialState_emit (st : Translator.t) : DashboardMessage :=
  existingAgents (merge_sort le (JsMap.values (Translator.sessionToId st))).

(** [{ sessionKey, approved }]; [JSON.stringify] leaves an undefined
    property out. *)
Definition resolveParams (sessionKey : jsstring) (approved : option json) : json :=
  JObj ((js "sessionKey", JStr sessionKey) ::
        match approved with
        | Some a => [(js "approved", a)]
        | None => []
        end).

(** [resolveApproval], up to its [await]: the first session whose id is
    [agentId], and the request made for it; nothing when there is none.
    [agentId] and [approved] are what the caller read off a browser
    message. *)
Definition resolveApproval_call (agentId approved : option json) (st : Translator.t)
    : option (nat * Gateway.act) :=
  match list_find (fun entry => is_number entry.2 agentId = true)
          (Translator.sessionToId st) with
  | Some (_, (sessionKey, id)) =>
      Some (id, Gateway.request (js "exec.approval.resolve")
                  (resolveParams sessionKey approved) 10000)
  | None => None
  end.

(** [resolveApproval], after its [await]: [resolved] tells whether the
    promise was resolved or rejected. *)
Definition resolveApproval_settled (id : nat) (approved : option json) (resolved : bool)
    : list DashboardMessage :=
  if resolved then
    if truthy_json approved then [agentToolPermissionClear id] else []
  else [].

(** The listeners the constructor registers on the gateway client, by the
    event emitted. The listener of ['connected'] starts [syncInitialState],
    whose message comes once its request has settled. *)
Definition onGatewayEmit (now : Z) (e : Gateway.Effect) (st : Translator.t)
    : Translator.t * list DashboardMessage :=
  match e with
  | Gateway.EmitGatewayEvent event payload =>
      Translator.handleGatewayEvent now event payload st
  | Gateway.EmitConnectionState s detail => (st, [connectionStatus s detail])
  | _ => (st, [])
  end.

End EventTranslator.

(** ** The layout store ([server/layoutStore.ts]) *)

Module LayoutStore.

(** A layout file as [readLayout] finds it: absent, present with a text
    that [JSON.parse] rejects, or present with the value it reads. *)
Inductive File := Absent | Unparsable | Parsed (data : json).

(** [data.version !== 1 || !Array.isArray(data.tiles)], negated. On
    [null] the property access throws and the [catch] returns [null] as
    well. *)
Definition accepted (data : json) : bool :=
  is_number 1 (prop (js "version") data) && isArray (prop (js "tiles") data).

(** [readLayout] *)
Definition readLayout (file : File) : option json :=
  match file with
  | Parsed data => if accepted data then Some data else None
  | Absent | Unparsable => None
  end.

(** [loadDefaultLayout] makes the same test on the file of the assets
    directory. *)
Definition loadDefaultLayout (file : File) : option json := readLayout file.

(** [writeLayout]: the text is written beside the file and renamed over
    it as the last step. [throws] tells whether a step throws; the file is
    then as it was, and the exception is caught. A value that came out of
    [JSON.parse] is read back from its own text as it is. *)
Definition writeLayout (layout : json) (throws : bool) (file : File) : File :=
  if throws then file else Parsed layout.

End LayoutStore.

(** ** [DashboardServer]: clients and browser messages *)

Module DashboardServer.

(** What [handleBrowserMessage] goes on to call. *)
Inductive Action :=
  | SendInitialState
  | ResolveApproval (id approved : option json)
  | WriteLayout (layout : json)
  | NoAction.

(** [msg.type === t] *)
Definition has_type (t : string) (msg : json) : bool :=
  match prop (js "type") msg with
  | Some (JStr s) => bool_decide (s = js t)
  | _ => false
  end.

(** [handleBrowserMessage], on what [JSON.parse] made of the text. On
    [null] the first test throws, which the caller catches: no action
    either. *)
Definition handleBrowserMessage (msg : json) : Action :=
  if has_type "webviewReady" msg then SendInitialState
  else if has_type "approveExec" msg then
    ResolveApproval (prop (js "id") msg) (prop (js "approved") msg)
  else if has_type "saveLayout" msg then
    match prop (js "layout") msg with
    | Some layout =>
        if truthy_json (Some layout)
           && isNumber (prop (js "version") layout)
           && isArray (prop (js "tiles") layout)
        then WriteLayout layout else NoAction
    | None => NoAction
    end
  else NoAction.

(** The [message] handler that [addClient] attaches, by what it does to
    the layout file, to the gateway client, and what it sends back on the
    socket [ws] of the browser. [parsed] is [None] when [JSON.parse]
    throws. *)
Definition onMessage_file (parsed : option json) (throws : bool)
    (file : LayoutStore.File) : LayoutStore.File :=
  match handleBrowserMessage <$> parsed with
  | Some (WriteLayout layout) => LayoutStore.writeLayout layout throws file
  | _ => file
  end.

Definition onMessage_gateway (parsed : option json) (translator : Translator.t)
    : Gateway.act :=
  match handleBrowserMessage <$> parsed with
  | Some (ResolveApproval id approved) =>
      match EventTranslator.resolveApproval_call id approved translator with
      | Some (_, call) => call
      | None => Gateway.skip
      end
  | _ => Gateway.skip
  end.

Definition onMessage_reply (parsed : option json) (ws : ReadyState)
    (env : Dashboard.Loaded) (translator : Translator.t) (gateway : Gateway.t)
    : list DashboardMessage :=
  match handleBrowserMessage <$> parsed with
  | Some SendInitialState => Dashboard.sendInitialState ws env translator gateway
  | _ => []
  end.

(** The set of clients, in the order of insertion; a socket is its
    handle. *)
Definition addClient (ws : nat) (clients : list nat) : list nat :=
  if decide (ws ∈ clients) then clients else clients ++ [ws].

(** The [close] handler that [addClient] attaches. *)
Definition onClose (ws : nat) (clients : list nat) : list nat :=
  filter (fun c => c ≠ ws) clients.

Definition getClientCount (clients : list nat) : nat := length clients.

(** [broadcast]: the sockets the message is handed to. *)
Definition broadcast (readyState : nat -> ReadyState) (clients : list nat)
    (msg : DashboardMessage) : list (nat * DashboardMessage) :=
  clients ≫= fun ws => if decide (readyState ws = OPEN) then [(ws, msg)] else [].

(** Browsers come and go. *)
Inductive ClientEvent := Connection (ws : nat) | Close (ws : nat).

Definition client_step (clients : list nat) (e : ClientEvent) : list nat :=
  match e with
  | Connection ws => addClient ws clients
  | Close ws => onClose ws clients
  end.

Definition clients_after (es : list ClientEvent) : list nat :=
  foldl client_step [] es.

End DashboardServer.

(** ** The asset loader ([server/assetLoader.ts]) *)

Module AssetLoader.

Definition ALPHA_THRESHOLD : N := 128.
Definition CHAR_FRAME_W : nat := 16.
Definition CHAR_FRAME_H : nat := 32.
Definition CHAR_FRAMES_PER_ROW : nat := 7.
Definition FLOOR_TILE_SIZE : nat := 16.
Definition WALL_PIECE_W : nat := 16.
Definition WALL_PIECE_H : nat := 32.
Definition WALL_GRID_COLS : nat := 4.

(** A decoded image: [data] holds four bytes for a pixel, row after row. *)
Record PNG := mkPNG {
  width : nat;
  height : nat;
  data : list N;
}.

(** [string[][]] *)
Abbreviation SpriteData := (list (list jsstring)) (only parsing).

(** [x.toString(16)] of a natural number. *)
Definition hexDigit (d : N) : N := if (d <? 10)%N then (48 + d)%N else (87 + d)%N.

Fixpoint toHex (fuel : nat) (x : N) : jsstring :=
  match fuel with
  | 0 => []
  | S fuel' =>
      if (x <? 16)%N then [hexDigit x]
      else toHex fuel' (x / 16)%N ++ [hexDigit (x mod 16)%N]
  end.

Definition toString16 (x : N) : jsstring := toHex (S (N.to_nat (N.log2 x))) x.

(** [s.padStart(n, c)] for a one-character [c]. *)
Definition padStart (n : nat) (c : N) (s : jsstring) : jsstring :=
  replicate (n - length s) c ++ s.

(** [rgbaToHex] *)
Definition rgbaToHex (r g b : N) : jsstring :=
  js "#" ++ concat ((fun x => padStart 2 48%N (toString16 x)) <$> [r; g; b]).

(** The body of the inner loops of [pngToSpriteData] and [extractRegion]
    for the pixel [(px, py)]. A read past the end of [data] is
    [undefined]: [undefined >= 128] is false, and [rgbaToHex] of an
    [undefined] throws, which is the [None] here. *)
Definition cell (png : PNG) (px py : nat) : option jsstring :=
  let idx := (py * width png + px) * 4 in
  let r := data png !! idx in
  let g := data png !! (idx + 1) in
  let b := data png !! (idx + 2) in
  let a := data png !! (idx + 3) in
  if from_option (fun a => (ALPHA_THRESHOLD <=? a)%N) false a
  then r ≫= fun r => g ≫= fun g => b ≫= fun b => Some (rgbaToHex r g b)
  else Some [].

(** [pngToSpriteData]; [None] when it throws. *)
Definition pngToSpriteData (png : PNG) : option SpriteData :=
  mapM (fun y => mapM (fun x => cell png x y) (seq 0 (width png)))
       (seq 0 (height png)).

(** [extractRegion] *)
Definition extractRegion (png : PNG) (x y w h : nat) : option SpriteData :=
  mapM (fun row => mapM (fun col => cell png (x + col) (y + row)) (seq 0 w))
       (seq 0 h).

Record LoadedCharacterData := mkCharacter {
  down : list SpriteData;
  up : list SpriteData;
  right : list SpriteData;
}.

(** [loadCharacterPng]. [decoded] is what reading and decoding the file
    gives, [None] when one of them throws; whatever throws inside the
    [try], the result is [null]. *)
Definition loadCharacterPng (decoded : option PNG) : option LoadedCharacterData :=
  decoded ≫= fun png =>
  mapM (fun frame =>
          extractRegion png (frame * CHAR_FRAME_W) 0 CHAR_FRAME_W CHAR_FRAME_H ≫= fun d =>
          extractRegion png (frame * CHAR_FRAME_W) CHAR_FRAME_H CHAR_FRAME_W CHAR_FRAME_H ≫= fun u =>
          extractRegion png (frame * CHAR_FRAME_W) (CHAR_FRAME_H * 2) CHAR_FRAME_W CHAR_FRAME_H ≫= fun r =>
          Some (d, u, r))
       (seq 0 CHAR_FRAMES_PER_ROW) ≫= fun frames =>
  Some (mkCharacter ((fun f => f.1.1) <$> frames) ((fun f => f.1.2) <$> frames)
          ((fun f => f.2) <$> frames)).

(** A file of the assets directory: [None] when it does not exist,
    otherwise what decoding it gives. *)
Abbreviation AssetFile := (option (option PNG)) (only parsing).

(** [loadCharacterSprites]: [char_0.png] to [char_5.png]. *)
Definition loadCharacterSprites (dirExists : bool) (files : nat -> AssetFile)
    : option (list LoadedCharacterData) :=
  if dirExists then
    mapM (fun i => files i ≫= fun decoded => loadCharacterPng decoded) (seq 0 6)
  else None.

(** [loadFloorTiles] *)
Definition loadFloorTiles (file : AssetFile) : option (list SpriteData) :=
  file ≫= fun decoded => decoded ≫= fun png =>
  mapM (fun i => extractRegion png (i * FLOOR_TILE_SIZE) 0 FLOOR_TILE_SIZE FLOOR_TILE_SIZE)
       (seq 0 7).

(** [loadWallTiles]: the pieces of the grid, row by row. *)
Definition loadWallTiles (file : AssetFile) : option (list SpriteData) :=
  file ≫= fun decoded => decoded ≫= fun png =>
  mapM (fun piece : nat * nat =>
          let '(row, col) := piece in
          extractRegion png (col * WALL_PIECE_W) (row * WALL_PIECE_H)
            WALL_PIECE_W WALL_PIECE_H)
       (seq 0 WALL_GRID_COLS ≫= fun row => (fun col => (row, col)) <$> seq 0 WALL_GRID_COLS).

End AssetLoader.

(** ** The browser's [WebSocketClient]: connecting and reconnecting
    ([src/api/wsClient.ts]) *)

Module WsRuntime.

(** The fields of the object, with the socket it holds as a handle, and
    the part of the runtime it acts on: the sockets it has constructed (a
    socket's handle is its index) and the handles of the timers that are
    armed. Timer handles are positive, so that a handle is truthy. *)
Record t := mk {
  ws : option nat;
  sockets : list ReadyState;
  reconnectTimer : option nat;
  reconnectDelay : Z;
  state : WsClient.ConnectionState;
  sendBuffer : list jsstring;
  timers : list nat;
  nextTimer : nat;
}.

Definition maxReconnectDelay : Z := 30000.

Definition init : t := mk None [] None 1000 WsClient.ws_disconnected [] [] 1.

Definition act := t -> t * list WsClient.Effect.

Definition seq_act (f g : act) : act := fun st =>
  let '(s1, e1) := f st in
  let '(s2, e2) := g s1 in
  (s2, e1 ++ e2).

(** [this.ws?.readyState] *)
Definition readyState (st : t) : option ReadyState :=
  ws st ≫= fun i => sockets st !! i.

(** The object as [postMessage] and the [onopen] handler see it. *)
Definition view (st : t) : WsClient.t :=
  WsClient.mk (readyState st) (reconnectTimer st) (reconnectDelay st) (state st)
    (sendBuffer st).

(** A method that does not touch [this.ws], on the object in its
    runtime. *)
Definition lift (f : WsClient.t -> WsClient.t * list WsClient.Effect) : act :=
  fun st =>
    let '(c, out) := f (view st) in
    (mk (ws st) (sockets st) (WsClient.reconnectTimer c) (WsClient.reconnectDelay c)
        (WsClient.state c) (WsClient.sendBuffer c) (timers st) (nextTimer st),
     out).

Definition setState (s : WsClient.ConnectionState) (detail : option jsstring) : act :=
  lift (WsClient.setState s detail).

Definition postMessage (serialized : jsstring) : act :=
  lift (WsClient.postMessage serialized).

(** [`Retrying in ${Math.round(this.reconnectDelay / 1000)}s`] *)
Definition retrying (delay : Z) : jsstring :=
  js "Retrying in " ++ js (pretty ((delay + 500) / 1000)%Z) ++ js "s".

(** [scheduleReconnect] *)
Definition scheduleReconnect : act := fun st =>
  match reconnectTimer st with
  | Some _ => (st, [])
  | None =>
      seq_act (setState WsClient.ws_reconnecting (Some (retrying (reconnectDelay st))))
        (fun st =>
           (mk (ws st) (sockets st) (Some (nextTimer st))
               (Z.min (reconnectDelay st * 2) maxReconnectDelay)
               (state st) (sendBuffer st) (timers st ++ [nextTimer st])
               (S (nextTimer st)),
            [])) st
  end.

(** [connect()]. [throws] tells whether [new WebSocket(url)] throws. *)
Definition connect (throws : bool) : act := fun st =>
  if decide (readyState st = Some OPEN \/ readyState st = Some CONNECTING) then (st, [])
  else
    seq_act (setState WsClient.ws_connecting None)
      (fun st =>
         if throws then
           seq_act (setState WsClient.ws_disconnected
                      (Some (js "Failed to create WebSocket")))
             scheduleReconnect st
         else
           (mk (Some (length (sockets st))) (sockets st ++ [CONNECTING])
               (reconnectTimer st) (reconnectDelay st) (state st) (sendBuffer st)
               (timers st) (nextTimer st),
            [])) st.

(** The handlers that [connect] attaches to the socket it constructs. *)
Definition onopen : act := lift WsClient.onopen.

Definition onclose : act :=
  seq_act
    (fun st =>
       (mk None (sockets st) (reconnectTimer st) (reconnectDelay st) (state st)
           (sendBuffer st) (timers st) (nextTimer st), []))
    (seq_act (setState WsClient.ws_disconnected None) scheduleReconnect).

(** The callback of the timer armed by [scheduleReconnect]. *)
Definition reconnectFires (throws : bool) : act :=
  seq_act
    (fun st =>
       (mk (ws st) (sockets st) None (reconnectDelay st) (state st) (sendBuffer st)
           (timers st) (nextTimer st), []))
    (connect throws).

(** [ws.close()] on a socket. *)
Definition closing (r : ReadyState) : ReadyState :=
  match r with
  | OPEN | CONNECTING => CLOSING
  | _ => r
  end.

(** [dispose]: the timer is cleared, the field keeps its handle. *)
Definition dispose : act := fun st =>
  let ts :=
    match reconnectTimer st with
    | Some h => filter (fun t => t ≠ h) (timers st)
    | None => timers st
    end in
  (mk (ws st)
      (match ws st with
       | Some i => alter closing i (sockets st)
       | None => sockets st
       end)
      (reconnectTimer st) (reconnectDelay st) (state st) (sendBuffer st) ts
      (nextTimer st),
   []).

(** What can happen to the object once its constructor has run. *)
Inductive Event :=
  | Post (serialized : jsstring)
  | Dispose
  | SockOpen (i : nat)
  | SockClose (i : nat)
  | TimerFires (h : nat) (throws : bool).

Definition set_socket (i : nat) (r : ReadyState) (st : t) : t :=
  mk (ws st) (<[i := r]> (sockets st)) (reconnectTimer st) (reconnectDelay st)
     (state st) (sendBuffer st) (timers st) (nextTimer st).

Definition set_timers (ts : list nat) (st : t) : t :=
  mk (ws st) (sockets st) (reconnectTimer st) (reconnectDelay st) (state st)
     (sendBuffer st) ts (nextTimer st).

(** One event, when the runtime can deliver it. *)
Definition step (st : t) (e : Event) : option (t * list WsClient.Effect) :=
  match e with
  | Post serialized => Some (postMessage serialized st)
  | Dispose => Some (dispose st)
  | SockOpen i =>
      match sockets st !! i with
      | Some CONNECTING => Some (onopen (set_socket i OPEN st))
      | _ => None
      end
  | SockClose i =>
      match sockets st !! i with
      | Some CLOSED | None => None
      | Some _ => Some (onclose (set_socket i CLOSED st))
      end
  | TimerFires h throws =>
      if decide (h ∈ timers st) then
        Some (reconnectFires throws (set_timers (filter (fun t => t ≠ h) (timers st)) st))
      else None
  end.

Fixpoint run (st : t) (es : list Event) : option (t * list WsClient.Effect) :=
  match es with
  | [] => Some (st, [])
  | e :: es' =>
      match step st e with
      | Some (st1, out1) =>
          match run st1 es' with
          | Some (st2, out2) => Some (st2, out1 ++ out2)
          | None => None
          end
      | None => None
      end
  end.

(** The constructor: the field initialisers, then [connect()]. *)
Definition construct (throws : bool) : t * list WsClient.Effect := connect throws init.

End WsRuntime.

(** * Specification vocabulary *)

(** ** The translator *)

(** What every state of the translator satisfies: the two maps have the
    same keys in the same order, the ids are 1, 2, 3, ... in the order of
    assignment, each agent carries the id of its session, and the counter
    is the next id. *)
Record translator_wf (st : Translator.t) : Prop := {
  wf_keys :
    JsMap.keys (Translator.agents st) = JsMap.keys (Translator.sessionToId st);
  wf_ids :
    JsMap.values (Translator.sessionToId st)
    = seq 1 (length (Translator.sessionToId st));
  wf_next :
    Translator.nextAgentId st = S (length (Translator.sessionToId st));
  wf_nodup : NoDup (JsMap.keys (Translator.sessionToId st));
  wf_agent_ids :
    TrackedAgent.id <$> JsMap.values (Translator.agents st)
    = JsMap.values (Translator.sessionToId st);
}.

(** The session key a handler reads off an event, when it is tracked. *)
Definition tracked (st : Translator.t) (key : option jsstring) : option nat :=
  truthy key ≫= fun k => JsMap.get k (Translator.sessionToId st).

Definition is_lifecycle (e : Translator.GatewayEvent) : Prop :=
  Translator.ev_name e = js "agent.stream" /\
  Payload.stream (Translator.ev_payload e) = Some (js "lifecycle").

Definition is_tool (e : Translator.GatewayEvent) : Prop :=
  Translator.ev_name e = js "agent.stream" /\
  Payload.stream (Translator.ev_payload e) = Some (js "tool").

Definition is_approval (e : Translator.GatewayEvent) : Prop :=
  Translator.ev_name e = js "exec.approval.requested".

(** The phase of a tool event: [toolEvent?.phase ?? toolEvent?.type]. *)
Definition toolEventOf (p : Payload.t) : Fields.t :=
  default (Payload.top p) (Payload.data p).

Definition toolPhase (p : Payload.t) : option jsstring :=
  Fields.phase (toolEventOf p) ?? Fields.type (toolEventOf p).

(** Events as the simulator of the repository sends them. *)
Definition lifecycleEvent (phase key : string) (runId : option jsstring)
    : Translator.GatewayEvent :=
  Translator.Ev 0 (js "agent.stream")
    (Payload.mk (Fields.mk None (Some (js key)) None None None None None)
       (Some (js "lifecycle")) runId None
       (Some (Fields.mk (Some (js phase)) None None None None None None))).

Definition toolEvent (phase key name : string) (input : ToolInput.t)
    (toolId : option jsstring) : Translator.GatewayEvent :=
  Translator.Ev 0 (js "agent.stream")
    (Payload.mk (Fields.mk None (Some (js key)) None None None None None)
       (Some (js "tool")) None None
       (Some (Fields.mk (Some (js phase)) None None (Some (js name)) None
                (Some input) toolId))).

Definition approvalEvent (key : string) : Translator.GatewayEvent :=
  Translator.Ev 0 (js "exec.approval.requested")
    (Payload.mk (Fields.mk None (Some (js key)) None None None None None)
       None None None None).

(** Two sessions start. *)
Definition twoSessions : list Translator.GatewayEvent :=
  [lifecycleEvent "start" "support-triage" (Some (js "run-1"));
   lifecycleEvent "start" "billing-agent" (Some (js "run-2"))].

(** A session starts and opens one tool call. *)
Definition oneOpenTool : list Translator.GatewayEvent :=
  [lifecycleEvent "start" "support-triage" (Some (js "run-1"));
   toolEvent "start" "support-triage" "Bash"
     (ToolInput.mk None (Some (js "npm run test")) None) (Some (js "t1"))].

(** No event of the sequence that is a tool event supplies a tool id. *)
Definition supplies_no_tool_id (e : Translator.GatewayEvent) : Prop :=
  is_tool e -> Fields.toolId (toolEventOf (Translator.ev_payload e)) = None.

(** Every tool id in every history came from the counter. *)
Definition generated_history (st : Translator.t) : Prop :=
  forall k a tool,
    JsMap.get k (Translator.agents st) = Some a ->
    tool ∈ TrackedAgent.toolHistory a ->
    exists n, n <= Translator.toolIdCounter st /\
              TrackedTool.toolId tool = Translator.generatedToolId n.

(** A session starts a tool call whose id the gateway supplies as
    [tool-1], the way the simulator of the repository names its tool calls;
    the event that ends a call then carries no tool id. *)
Definition suppliedToolId : list Translator.GatewayEvent :=
  [lifecycleEvent "start" "support-triage" (Some (js "run-1"));
   toolEvent "start" "support-triage" "Bash"
     (ToolInput.mk None (Some (js "npm run test")) None) (Some (js "tool-1"))].

Definition toolEndWithoutId : Translator.GatewayEvent :=
  toolEvent "end" "support-triage" "Bash" ToolInput.empty None.

(** The same, the start carrying no tool id either. *)
Definition generatedToolIds : list Translator.GatewayEvent :=
  [lifecycleEvent "start" "support-triage" (Some (js "run-1"));
   toolEvent "start" "support-triage" "Bash"
     (ToolInput.mk None (Some (js "npm run test")) None) None].

(** A shell command of 90 code units. *)
Definition longCommand : jsstring :=
  js "find . -name '*.ts' -not -path './node_modules/*' -print0 | xargs -0 grep -c 'handleTasks'".

(** ** The gateway client *)

(** What the object and the timers of the runtime satisfy together: timer
    handles are distinct and below the next handle; the armed request
    timers are those of the pending requests; pending ids were drawn from
    the counter; the armed reconnect timers are the one the object holds;
    the tick timer the object holds is armed. *)
Record gateway_wf (st : Gateway.t) : Prop := {
  gw_handles : NoDup (Gateway.timers st).*1;
  gw_below : forall h k, (h, k) ∈ Gateway.timers st -> h < Gateway.nextTimer st;
  gw_nodup : NoDup (JsMap.keys (Gateway.pendingRequests st));
  gw_pending : forall h id method t,
    (h, Gateway.RequestTimer id method t) ∈ Gateway.timers st ->
    JsMap.get id (Gateway.pendingRequests st) = Some h;
  gw_armed : forall id h,
    JsMap.get id (Gateway.pendingRequests st) = Some h ->
    exists method t, (h, Gateway.RequestTimer id method t) ∈ Gateway.timers st;
  gw_ids : forall id h,
    JsMap.get id (Gateway.pendingRequests st) = Some h ->
    exists n, n <= Gateway.requestId st /\ id = Gateway.requestIdName n;
  gw_reconnect : forall h d,
    (h, Gateway.ReconnectTimer d) ∈ Gateway.timers st ->
    Gateway.reconnectTimer st = Some h;
  gw_reconnect_armed : forall h,
    Gateway.reconnectTimer st = Some h ->
    exists d, (h, Gateway.ReconnectTimer d) ∈ Gateway.timers st;
  gw_tick_armed : forall h,
    Gateway.tickTimer st = Some h ->
    exists ms, (h, Gateway.TickTimer ms) ∈ Gateway.timers st;
}.

(** [request] registers only when connected, [onConnected] runs only for a
    registered request: from the initial state neither ever happens. *)
Definition never_connected (st : Gateway.t) : Prop :=
  Gateway.state st ≠ connected /\ Gateway.pendingRequests st = [].

(** The method keeps the property of the state. *)
Definition preserved (P : Gateway.t -> Prop) (f : Gateway.act) : Prop :=
  forall st, P st -> P (f st).1.

(** The id is one the counter has already given out. *)
Definition issued (st : Gateway.t) (id : jsstring) : Prop :=
  exists n, n <= Gateway.requestId st /\ id = Gateway.requestIdName n.

(** 1 when the request is in the pending set, 0 otherwise. *)
Definition pendingCount (id : jsstring) (st : Gateway.t) : nat :=
  match JsMap.get id (Gateway.pendingRequests st) with Some _ => 1 | None => 0 end.

Definition settles (id : jsstring) (e : Gateway.Effect) : bool :=
  match e with
  | Gateway.Resolve i _ | Gateway.Reject i _ => bool_decide (i = id)
  | _ => false
  end.

(** How many times the effects resolve or reject the request. *)
Definition settlements (id : jsstring) (out : list Gateway.Effect) : nat :=
  length (filter (fun e => settles id e = true) out).

(** The method keeps the object and the timers consistent, does not move
    the request counter back, and settles an issued request exactly when it
    takes it out of the pending set. *)
Definition sound (f : Gateway.act) : Prop :=
  forall st, gateway_wf st ->
    gateway_wf (f st).1 /\
    Gateway.requestId st <= Gateway.requestId (f st).1 /\
    forall id, issued st id ->
      pendingCount id st = settlements id (f st).2 + pendingCount id (f st).1.

Definition is_reconnect_timer (t : nat * Gateway.TimerKind) : bool :=
  match t.2 with Gateway.ReconnectTimer _ => true | _ => false end.

(** The reconnect timers that are armed. *)
Definition reconnectTimers (st : Gateway.t) : list (nat * Gateway.TimerKind) :=
  filter (fun t => is_reconnect_timer t = true) (Gateway.timers st).

(** The accepted handshake response of the gateway, as its simulator sends
    it, and the frames around it. *)
Definition helloOk : Gateway.ResPayload.t :=
  Gateway.ResPayload.mk (Some (js "hello-ok")) (Some 15000%Z) (JObj [(js "protocol", JNum 3)]).

Definition challenge : Gateway.Frame :=
  Gateway.EventFrame (js "connect.challenge") Payload.empty.

Definition helloOkResponse (id : string) : Gateway.Frame :=
  Gateway.ResFrame (js id) true (Some helloOk) None.

(** The [k]-th connection attempt fails: its socket closes and the
    reconnect timer that this arms fires. *)
Definition failedAttempt (k : nat) : list Gateway.Event :=
  [Gateway.SockClose k; Gateway.TimerFires k None].

Definition failedAttempts (n : nat) : list Gateway.Event :=
  Gateway.CallConnect None :: (seq 0 n ≫= failedAttempt).

(** One failed attempt, then a connection on which the whole handshake
    arrives. *)
Definition handshakeAfterFailure : list Gateway.Event :=
  failedAttempts 1 ++
  [Gateway.SockOpen 1;
   Gateway.SockMessage 1 (Some challenge);
   Gateway.SockMessage 1 (Some (helloOkResponse "pa-1"))].

(** A client that is connected, as [onConnected] would leave it: the socket
    open, the tick timer armed. *)
Definition connectedClient : Gateway.t :=
  Gateway.mk (Some 0) connected None 1000 (Some 0) 1 [] [OPEN]
    [(0, Gateway.TickTimer 15000)] 1.

(** The client when [n] attempts in a row have failed and the next one is
    under way: the delay the next failure will wait is
    [min (1000 * 2^n) 30000]. *)
Definition afterFailures (n : nat) : Gateway.t :=
  Gateway.mk (Some n) connecting None (Z.min (1000 * 2 ^ Z.of_nat n) 30000) None 0 []
    (replicate n CLOSED ++ [CONNECTING]) [] n.

(** A connection opens and the owner calls [disconnect]; the gateway keeps
    sending on the socket, then closes it. *)
Definition afterDisconnect : list Gateway.Event :=
  [Gateway.CallConnect None; Gateway.SockOpen 0; Gateway.CallDisconnect].

Definition lateStart : Gateway.Frame :=
  Gateway.EventFrame (js "agent.stream")
    (Translator.ev_payload (lifecycleEvent "start" "support-triage" None)).

(** An approval is sent from the connected client. *)
Definition approvalParams : json :=
  JObj [(js "sessionKey", JStr (js "support-triage")); (js "approved", JBool true)].

Definition approvalRequested : Gateway.t :=
  (Gateway.request (js "exec.approval.resolve") approvalParams 10000 connectedClient).1.

(** The request times out; the answer of the gateway arrives afterwards. *)
Definition timedOutThenAnswered : list Gateway.Event :=
  [Gateway.TimerFires 1 None;
   Gateway.SockMessage 0
     (Some (Gateway.ResFrame (js "pa-2") true None None))].

(** ** The snapshot *)

(** The asset messages of the snapshot as the specification words them:
    one for each catalog that could be loaded, in the order characters,
    floor, wall, furniture. *)
Definition snapshotAssets (env : Dashboard.Loaded) : list DashboardMessage :=
  option_list (characterSpritesLoaded <$> Dashboard.characterSprites env) ++
  option_list (floorTilesLoaded <$> Dashboard.floorTiles env) ++
  option_list (wallTilesLoaded <$> Dashboard.wallTiles env) ++
  option_list ((fun f => furnitureAssetsLoaded f.1 f.2) <$> Dashboard.furnitureAssets env).

(** The replay of one agent as the specification words it. *)
Definition snapshotReplay (agent : TrackedAgent.t) : list DashboardMessage :=
  match TrackedAgent.status agent with
  | busy =>
      agentStatus (TrackedAgent.id agent) active ::
      ((fun tool => agentToolStart (TrackedAgent.id agent) (TrackedTool.toolId tool)
                      (TrackedTool.status tool))
         <$> filter (fun tool => TrackedTool.done tool = false)
               (TrackedAgent.toolHistory agent))
  | error => [agentStatus (TrackedAgent.id agent) error_tag]
  | idle | waiting_approval => []
  end.

Definition is_toolDone (m : DashboardMessage) : Prop :=
  match m with agentToolDone _ _ => True | _ => False end.

(** The two messages of the snapshot that belong to the settings and the
    layout store. *)
Definition settings_or_layout (m : DashboardMessage) : bool :=
  match m with settingsLoaded _ | layoutLoaded _ => true | _ => false end.

(** Nothing could be loaded and no layout is stored. *)
Definition nothingLoaded : Dashboard.Loaded :=
  Dashboard.mkLoaded None None None None None None.

(** ** The browser's client *)

(** The last [n] of a list. *)
Definition lastN {A} (n : nat) (l : list A) : list A := drop (length l - n) l.

Definition saveSeats (n : nat) : jsstring := js "saveAgentSeats " ++ decimal n.

(** ** The translator: what its messages and its agents look like *)

(** The agent a dashboard message is about. *)
Definition agentOf (m : DashboardMessage) : option nat :=
  match m with
  | agentCreated id _ | agentClosed id | agentToolStart id _ _
  | agentToolDone id _ | agentToolsClear id | agentStatus id _
  | agentToolPermission id | agentToolPermissionClear id | agentError id _ =>
      Some id
  | _ => None
  end.

Definition is_agentCreated (m : DashboardMessage) : Prop :=
  match m with agentCreated _ _ => True | _ => False end.

#[global] Instance is_agentCreated_dec m : Decision (is_agentCreated m).
Proof. destruct m; simpl; apply _. Defined.

(** The message that announces agent [id]. *)
Definition created (id : nat) : DashboardMessage :=
  agentCreated id (js "Agent #" ++ decimal id).

(** A stream of messages over agents [1 .. known]: an [agentCreated]
    announces the next id, any other message is about an agent that is
    known by then. *)
Fixpoint announced (known : nat) (out : list DashboardMessage) : Prop :=
  match out with
  | [] => True
  | m :: out' =>
      if decide (is_agentCreated m) then
        m = created (S known) /\ announced (S known) out'
      else
        (exists id, agentOf m = Some id /\ 1 <= id <= known) /\ announced known out'
  end.

(** A tool call of a history: it never waits for a permission, and it is
    done exactly when it has a completion time. *)
Definition tool_ok (tool : TrackedTool.t) : Prop :=
  TrackedTool.permissionWait tool = false /\
  (TrackedTool.done tool = true <-> is_Some (TrackedTool.completedAt tool)).

(** An agent as the map holds it under [key]. *)
Record agent_ok (key : jsstring) (a : TrackedAgent.t) : Prop := {
  ok_key : TrackedAgent.sessionKey a = key;
  ok_name : TrackedAgent.name a = js "Agent #" ++ decimal (TrackedAgent.id a);
  ok_idle : TrackedAgent.status a = idle -> TrackedAgent.currentRunId a = None;
  ok_tools : Forall tool_ok (TrackedAgent.toolHistory a);
}.

Definition agents_ok (st : Translator.t) : Prop :=
  forall k a, JsMap.get k (Translator.agents st) = Some a -> agent_ok k a.

(** What an event never changes of an agent. *)
Definition same_identity (a a' : TrackedAgent.t) : Prop :=
  TrackedAgent.id a' = TrackedAgent.id a /\
  TrackedAgent.sessionKey a' = TrackedAgent.sessionKey a /\
  TrackedAgent.name a' = TrackedAgent.name a /\
  TrackedAgent.createdAt a' = TrackedAgent.createdAt a.

(** Three sessions, the second of which fails and the first of which asks
    for an approval. *)
Definition threeSessions : list Translator.GatewayEvent :=
  twoSessions ++
  [lifecycleEvent "error" "billing-agent" None;
   lifecycleEvent "start" "docs-writer" None;
   approvalEvent "support-triage"].

(** A tool event that opens a call, and one that closes a call. *)
Definition opens_tool (e : Translator.GatewayEvent) : Prop :=
  is_tool e /\
  (toolPhase (Translator.ev_payload e) = Some (js "start") \/
   toolPhase (Translator.ev_payload e) = Some (js "tool_start")).

Definition closes_tool (e : Translator.GatewayEvent) : Prop :=
  is_tool e /\
  (toolPhase (Translator.ev_payload e) = Some (js "end") \/
   toolPhase (Translator.ev_payload e) = Some (js "tool_end")).

(** The event is for session [k] and supplies the tool id [toolId]. *)
Definition tool_of (k toolId : jsstring) (e : Translator.GatewayEvent) : Prop :=
  truthy (Translator.sessionKeyOf (Translator.ev_payload e)) = Some k /\
  Fields.toolId (toolEventOf (Translator.ev_payload e)) = Some toolId.

(** The status line of the call a tool event opens. *)
Definition statusLine (e : Translator.GatewayEvent) : jsstring :=
  let toolEvent := toolEventOf (Translator.ev_payload e) in
  formatToolStatus
    (default (js "unknown") (Fields.toolName toolEvent ?? Fields.name toolEvent))
    (default ToolInput.empty (Fields.input toolEvent)).

(** A session starts and asks for an approval. *)
Definition approvalPending : list Translator.GatewayEvent :=
  [lifecycleEvent "start" "support-triage" (Some (js "run-1"));
   approvalEvent "support-triage"].

(** ** The gateway client: what it does while it has never been connected *)

(** The effects of a client that has not completed a handshake: state
    changes other than to [connected], gateway events passed on, [connect]
    requests sent, and the rejection of requests that were not sent. *)
Definition handshake_effect (e : Gateway.Effect) : Prop :=
  match e with
  | Gateway.EmitConnectionState s _ => s ≠ connected
  | Gateway.EmitGatewayEvent event _ => event ≠ js "connect.challenge"
  | Gateway.Send _ (Gateway.ConnectReq _) => True
  | Gateway.RejectUnsent _ => True
  | _ => False
  end.

(** Never connected, and no timer armed but reconnect timers. *)
Definition unconnected (st : Gateway.t) : Prop :=
  never_connected st /\
  forall x, x ∈ Gateway.timers st -> is_reconnect_timer x = true.

(** The method keeps [P] of the state and has only effects in [Q]. *)
Definition keeps (P : Gateway.t -> Prop) (Q : Gateway.Effect -> Prop)
    (f : Gateway.act) : Prop :=
  forall st, P st -> P (f st).1 /\ Forall Q (f st).2.

(** The id of a request frame that is sent. *)
Definition sentId (e : Gateway.Effect) : option jsstring :=
  match e with
  | Gateway.Send _ (Gateway.ConnectReq id) | Gateway.Send _ (Gateway.Req id _ _) => Some id
  | _ => None
  end.

Definition sentIds (out : list Gateway.Effect) : list jsstring := omap sentId out.

(** The ids are those of strictly increasing numbers above [lo] and up to
    [hi]. *)
Definition numbered (lo hi : nat) (ids : list jsstring) : Prop :=
  exists ns, ids = Gateway.requestIdName <$> ns /\
             StronglySorted lt ns /\
             Forall (fun n => lo < n <= hi) ns.

(** The delay of the next reconnect and of every armed reconnect timer is
    between one second and the maximum. *)
Definition delay_in_range (d : Z) : Prop := (1000 <= d <= Gateway.maxReconnectDelay)%Z.

Definition delays_ok (st : Gateway.t) : Prop :=
  delay_in_range (Gateway.reconnectDelay st) /\
  forall h d, (h, Gateway.ReconnectTimer d) ∈ Gateway.timers st -> delay_in_range d.


(** The method draws its request ids from the counter: what it sends is
    numbered above the counter before and up to the counter after. *)
Definition numbers (f : Gateway.act) : Prop :=
  forall st,
    Gateway.requestId st <= Gateway.requestId (f st).1 /\
    numbered (Gateway.requestId st) (Gateway.requestId (f st).1) (sentIds (f st).2).

(** The method sends no request and leaves the counter alone. *)
Definition silent (f : Gateway.act) : Prop :=
  forall st,
    Gateway.requestId (f st).1 = Gateway.requestId st /\ sentIds (f st).2 = [].

(** ** The dashboard server *)

(** The last event about the socket is its connection. *)
Definition present (ws : nat) (es : list DashboardServer.ClientEvent) : bool :=
  foldl (fun b e =>
           match e with
           | DashboardServer.Connection w => if decide (w = ws) then true else b
           | DashboardServer.Close w => if decide (w = ws) then false else b
           end) false es.

(** A [saveLayout] message of a browser. *)
Definition saveLayoutMessage (layout : json) : json :=
  JObj [(js "type", JStr (js "saveLayout")); (js "layout", layout)].

Definition layoutOfVersion (v : Z) : json :=
  JObj [(js "version", JNum v); (js "tiles", JArr [JNum 0; JNum 1])].

(** An [approveExec] message of a browser. *)
Definition approveExecMessage (id : Z) (approved : bool) : json :=
  JObj [(js "type", JStr (js "approveExec")); (js "id", JNum id);
        (js "approved", JBool approved)].

(** ** The asset loader *)

Definition is_byte (x : N) : Prop := (x < 256)%N.

(** The code unit is one of [0-9a-f]. *)
Definition is_hex_digit (c : N) : Prop :=
  (48 <= c <= 57)%N \/ (97 <= c <= 102)%N.

(** A sprite of [h] lines of [w] cells. *)
Definition has_shape (h w : nat) (sprite : list (list jsstring)) : Prop :=
  length sprite = h /\ Forall (fun line => length line = w) sprite.

(** The cell of a sprite at a line and a column. *)
Definition cell_at (sprite : list (list jsstring)) (row col : nat) : option jsstring :=
  sprite !! row ≫= fun line => line !! col.

(** An image of 2 by 2 pixels: red, green over blue, transparent. *)
Definition fourPixels : AssetLoader.PNG :=
  AssetLoader.mkPNG 2 2
    [255; 0; 0; 255;   0; 255; 0; 255;
     0; 0; 255; 255;   9; 9; 9; 0]%N.

(** ** The browser's client and its sockets *)

(** What the object and its runtime satisfy together: the socket held
    exists; every other socket is closed; an armed timer is the only one,
    the field holds its handle and no socket is held meanwhile; handles are
    below the next one; the delay is between one second and the maximum. *)
Record ws_wf (st : WsRuntime.t) : Prop := {
  ws_held : forall i, WsRuntime.ws st = Some i -> i < length (WsRuntime.sockets st);
  ws_others : forall i r,
    WsRuntime.sockets st !! i = Some r -> r ≠ CLOSED -> WsRuntime.ws st = Some i;
  ws_timer : forall h,
    h ∈ WsRuntime.timers st ->
    WsRuntime.timers st = [h] /\ WsRuntime.reconnectTimer st = Some h /\
    WsRuntime.ws st = None;
  ws_below : forall h, h ∈ WsRuntime.timers st -> h < WsRuntime.nextTimer st;
  ws_delay : (1000 <= WsRuntime.reconnectDelay st <= WsRuntime.maxReconnectDelay)%Z;
}.

(** The first connection attempt fails and the client waits to retry. *)
Definition browserWaiting : list WsRuntime.Event := [WsRuntime.SockClose 0].

(** The client has stopped: it holds no socket, no timer is armed and
    every socket it constructed is closed. *)
Definition halted (st : WsRuntime.t) : Prop :=
  WsRuntime.ws st = None /\ WsRuntime.timers st = [] /\
  forall i r, WsRuntime.sockets st !! i = Some r -> r = CLOSED.

Definition is_call (e : WsRuntime.Event) : Prop :=
  match e with
  | WsRuntime.Post _ | WsRuntime.Dispose => True
  | _ => False
  end.

(** The browser's client right after its constructor, with one message
    posted while its first socket is still connecting. *)
Definition browserPosting : WsRuntime.t :=
  (WsRuntime.postMessage (saveSeats 1) (WsRuntime.construct false).1).1.

(** The browser's client with its socket open. *)
Definition browserOpen : WsRuntime.t :=
  WsRuntime.mk (Some 0) [OPEN] None 1000 WsClient.ws_connected [] [] 1.

(** The browser's client waiting to retry after a first failure. *)
Definition browserRetrying : WsRuntime.t :=
  WsRuntime.mk None [CLOSED] (Some 1) 2000 WsClient.ws_reconnecting [] [1] 2.

(** ** The browser's client: the send buffer over reconnects *)

(** The messages that a sequence of events posts, in order. *)
Definition posts (es : list WsRuntime.Event) : list jsstring :=
  omap (fun e => match e with WsRuntime.Post m => Some m | _ => None end) es.

Definition is_open_event (e : WsRuntime.Event) : Prop :=
  match e with WsRuntime.SockOpen _ => True | _ => False end.

(** The messages handed to [ws.send], in order. *)
Definition sent (out : list WsClient.Effect) : list jsstring :=
  omap (fun e => match e with WsClient.Sent m => Some m | _ => None end) out.

(** The method sends nothing, leaves the buffer alone and opens no
    socket. *)
Definition buffer_kept (f : WsRuntime.act) : Prop :=
  forall st,
    WsRuntime.sendBuffer (f st).1 = WsRuntime.sendBuffer st /\
    sent (f st).2 = [] /\
    (WsRuntime.readyState st ≠ Some OPEN -> WsRuntime.readyState (f st).1 ≠ Some OPEN).

(** Two messages are posted while the client waits to retry, then the
    timer fires. *)
Definition postedOffline : list WsRuntime.Event :=
  [WsRuntime.Post (saveSeats 1); WsRuntime.Post (saveSeats 2);
   WsRuntime.TimerFires 1 false].

(** * Properties *)

(** ** Strings and decimal names *)

Lemma js_inj (s1 s2 : string) : js s1 = js s2 -> s1 = s2.
Proof.
  unfold js. revert s2.
  induction s1 as [|a s1 IH]; intros [|b s2]; simpl; intros H; try done.
  injection H as Hab Hs.
  f_equal; [| by apply IH].
  rewrite <- (ascii_N_embedding a), <- (ascii_N_embedding b). by rewrite Hab.
Qed.

Lemma decimal_inj (n m : nat) : decimal n = decimal m -> n = m.
Proof. intros H. apply js_inj in H. by apply (inj pretty) in H. Qed.

Lemma literal_ne (a b : string) : a ≠ b -> js a ≠ js b.
Proof. intros Hne Heq. by apply Hne, js_inj. Qed.

(** Closed goals are settled by evaluation. *)
Ltac by_eval :=
  vm_compute; repeat split;
  first [reflexivity | congruence | left; reflexivity | right; reflexivity | done].

(** ** The insertion-ordered map *)

Section jsmap_facts.
Context {K V : Type} `{EqDecision K}.
Implicit Types (m : list (K * V)) (k : K) (v : V).

Lemma get_None m k : JsMap.get k m = None <-> k ∉ JsMap.keys m.
Proof.
  unfold JsMap.keys. induction m as [|[k' v'] m IH]; simpl.
  - split; [intros _; apply not_elem_of_nil | done].
  - rewrite not_elem_of_cons. case_decide as Hk.
    + split; [done | by intros [? _]].
    + rewrite IH. split; [by split; [congruence|] | by intros [_ ?]].
Qed.

Lemma get_Some_elem m k v : JsMap.get k m = Some v -> (k, v) ∈ m.
Proof.
  induction m as [|[k' v'] m IH]; simpl; [done|].
  case_decide; subst.
  - intros [= ->]. apply list_elem_of_here.
  - intros. apply list_elem_of_further. auto.
Qed.

Lemma set_fresh m k v : JsMap.get k m = None -> JsMap.set k v m = m ++ [(k, v)].
Proof.
  induction m as [|[k' v'] m IH]; simpl; [done|].
  case_decide; [done|]. intros. by rewrite IH.
Qed.

Lemma get_set_eq m k v : JsMap.get k (JsMap.set k v m) = Some v.
Proof.
  induction m as [|[k' v'] m IH]; simpl.
  - by rewrite decide_True.
  - case_decide; simpl; [by rewrite decide_True | by rewrite decide_False].
Qed.

Lemma get_set_ne m k k' v : k ≠ k' -> JsMap.get k' (JsMap.set k v m) = JsMap.get k' m.
Proof.
  intros Hne. induction m as [|[k0 v0] m IH]; simpl.
  - by rewrite decide_False.
  - destruct (decide (k0 = k)) as [->|]; simpl.
    + by rewrite !decide_False.
    + case_decide; [done | apply IH].
Qed.

Lemma get_app_l m m' k v : JsMap.get k m = Some v -> JsMap.get k (m ++ m') = Some v.
Proof.
  induction m as [|[k0 v0] m IH]; simpl; [done|]. case_decide; auto.
Qed.

Lemma keys_alter (f : V -> V) m k : JsMap.keys (JsMap.alter f k m) = JsMap.keys m.
Proof.
  unfold JsMap.keys. induction m as [|[k0 v0] m IH]; simpl; [done|].
  case_decide; simpl; [done | by f_equal].
Qed.

Lemma get_alter_eq (f : V -> V) m k : JsMap.get k (JsMap.alter f k m) = f <$> JsMap.get k m.
Proof.
  induction m as [|[k0 v0] m IH]; simpl; [done|].
  case_decide; simpl; [by rewrite decide_True | by rewrite decide_False].
Qed.

Lemma get_alter_ne (f : V -> V) m k k' :
  k ≠ k' -> JsMap.get k' (JsMap.alter f k m) = JsMap.get k' m.
Proof.
  intros Hne. induction m as [|[k0 v0] m IH]; simpl; [done|].
  destruct (decide (k0 = k)) as [->|]; simpl.
  - by rewrite !decide_False.
  - case_decide; [done | apply IH].
Qed.

(** A mutation that leaves the object as it was leaves the map as it was. *)
Lemma alter_fixed (f : V -> V) m k :
  (forall v, JsMap.get k m = Some v -> f v = v) -> JsMap.alter f k m = m.
Proof.
  induction m as [|[k0 v0] m IH]; simpl; [done|].
  case_decide; intros Hf; [by rewrite Hf | by rewrite IH].
Qed.

Lemma values_alter_fmap {B} (g : V -> B) (f : V -> V) m k :
  (forall v, g (f v) = g v) ->
  g <$> JsMap.values (JsMap.alter f k m) = g <$> JsMap.values m.
Proof.
  intros Hg. unfold JsMap.values.
  induction m as [|[k0 v0] m IH]; simpl; [done|].
  case_decide; simpl; [by rewrite Hg | by f_equal].
Qed.

Lemma get_delete_eq m k : NoDup (JsMap.keys m) -> JsMap.get k (JsMap.delete k m) = None.
Proof.
  unfold JsMap.keys. induction m as [|[k0 v0] m IH]; simpl; [done|].
  intros Hnd. apply NoDup_cons in Hnd as [Hk0 Hnd].
  case_decide; subst; simpl.
  - by apply get_None.
  - rewrite decide_False by done. auto.
Qed.

Lemma get_delete_ne m k k' : k ≠ k' -> JsMap.get k' (JsMap.delete k m) = JsMap.get k' m.
Proof.
  intros Hne. induction m as [|[k0 v0] m IH]; simpl; [done|].
  destruct (decide (k0 = k)) as [->|]; simpl.
  - by rewrite decide_False.
  - case_decide; [done | apply IH].
Qed.

Lemma elem_get m k v : NoDup (JsMap.keys m) -> (k, v) ∈ m -> JsMap.get k m = Some v.
Proof.
  unfold JsMap.keys. induction m as [|[k0 v0] m IH]; simpl.
  - by intros _ ?%elem_of_nil.
  - intros [Hk0 Hnd]%NoDup_cons [[= -> ->]|Hin]%elem_of_cons.
    + by rewrite decide_True.
    + rewrite decide_False; [by apply IH|].
      intros ->. apply Hk0. apply list_elem_of_fmap. by exists (k, v).
Qed.

Lemma get_alter_inv (f : V -> V) m k k' v' :
  JsMap.get k' (JsMap.alter f k m) = Some v' ->
  exists v, JsMap.get k' m = Some v /\ v' = if decide (k = k') then f v else v.
Proof.
  destruct (decide (k = k')) as [->|Hne].
  - rewrite get_alter_eq. destruct (JsMap.get k' m); [|done].
    intros [= <-]. eauto.
  - rewrite get_alter_ne by done. eauto.
Qed.

Lemma get_set_inv m k k' v v' :
  JsMap.get k' (JsMap.set k v m) = Some v' ->
  (k = k' /\ v' = v) \/ (k ≠ k' /\ JsMap.get k' m = Some v').
Proof.
  destruct (decide (k = k')) as [->|Hne].
  - rewrite get_set_eq. intros [= <-]. by left.
  - rewrite get_set_ne by done. by right.
Qed.

Lemma keys_delete_subseteq m k x : x ∈ JsMap.keys (JsMap.delete k m) -> x ∈ JsMap.keys m.
Proof.
  unfold JsMap.keys. induction m as [|[k0 v0] m IH]; simpl; [done|].
  case_decide; simpl.
  - apply list_elem_of_further.
  - rewrite !elem_of_cons. intros [->|Hin]; [by left | right; auto].
Qed.

Lemma NoDup_keys_delete m k : NoDup (JsMap.keys m) -> NoDup (JsMap.keys (JsMap.delete k m)).
Proof.
  induction m as [|[k0 v0] m IH]; simpl; [done|].
  unfold JsMap.keys in *. simpl.
  intros [Hnot Hnd]%NoDup_cons. case_decide; simpl; [done|].
  apply NoDup_cons. split; [|auto].
  intros Hin. apply Hnot. by eapply keys_delete_subseteq.
Qed.

End jsmap_facts.

(** ** Tool status formatting *)

Lemma preview_long n s : n < length s -> preview n s = take n s ++ ellipsis.
Proof. intros. unfold preview. by rewrite decide_True. Qed.

Lemma preview_short n s : length s <= n -> preview n s = s.
Proof. intros. unfold preview. rewrite decide_False; [done | lia]. Qed.

(** C5. [formatToolStatus] is a function of the tool name and the input
    alone. On [Bash] with command [npm run test] it gives
    [Running: npm run test]; on [Read] with file path [/a/b/c.md] it gives
    [Reading c.md]; on [Bash] with any command of 90 code units it gives
    [Running: ], the first 60 code units of the command and the ellipsis;
    on any tool name that is not a case label of the switch it gives
    [Using ] and the name. *)
Theorem C5_formatToolStatus :
  formatToolStatus (js "Bash") (ToolInput.mk None (Some (js "npm run test")) None)
    = js "Running: npm run test" /\
  formatToolStatus (js "Read") (ToolInput.mk (Some (js "/a/b/c.md")) None None)
    = js "Reading c.md" /\
  (forall (cmd : jsstring) (input : ToolInput.t),
      ToolInput.command input = Some cmd ->
      length cmd = 90 ->
      formatToolStatus (js "Bash") input = js "Running: " ++ take 60 cmd ++ ellipsis) /\
  (forall (toolName : jsstring) (input : ToolInput.t),
      toolName ∉ knownTools ->
      formatToolStatus toolName input = js "Using " ++ toolName).
Proof.
  split_and!.
  - by vm_compute.
  - by vm_compute.
  - intros cmd input Hcmd Hlen. unfold formatToolStatus.
    do 3 (rewrite decide_False by by apply literal_ne).
    rewrite decide_True by done. rewrite Hcmd. simpl.
    rewrite preview_long by lia. done.
  - intros toolName input Hnot. unfold formatToolStatus.
    repeat (rewrite decide_False;
            [| intros ->; apply Hnot; apply list_elem_of_In; simpl; tauto]).
    done.
Qed.

Lemma C5_formatToolStatus_witness :
  length longCommand = 90 /\
  formatToolStatus (js "Bash") (ToolInput.mk None (Some longCommand) None)
    = js "Running: " ++ take 60 longCommand ++ ellipsis /\
  formatToolStatus (js "TodoWrite") ToolInput.empty = js "Using TodoWrite".
Proof.
  destruct C5_formatToolStatus as (_ & _ & Hlong & Hother).
  split_and!.
  - by vm_compute.
  - apply Hlong; by vm_compute.
  - apply (Hother (js "TodoWrite")).
    intros Hin%list_elem_of_In. vm_compute in Hin.
    repeat (destruct Hin as [Hin|Hin]; [discriminate Hin|]). done.
Defined.

(** ** The translator: session keys and agent ids *)

Lemma translator_wf_init : translator_wf Translator.init.
Proof. split; simpl; try done. apply NoDup_nil_2. Qed.

Lemma translator_wf_alter (f : TrackedAgent.t -> TrackedAgent.t) k st :
  (forall a, TrackedAgent.id (f a) = TrackedAgent.id a) ->
  translator_wf st ->
  translator_wf (Translator.with_agents (JsMap.alter f k) st).
Proof.
  intros Hf [Hk Hi Hn Hd Ha]. split; simpl; try done.
  - by rewrite keys_alter.
  - by rewrite values_alter_fmap.
Qed.

Lemma translator_wf_counter st c :
  translator_wf st ->
  translator_wf (Translator.mk (Translator.agents st) (Translator.nextAgentId st)
                   (Translator.sessionToId st) c).
Proof. by intros [Hk Hi Hn Hd Ha]. Qed.

Lemma translator_wf_new st k agent :
  translator_wf st ->
  JsMap.get k (Translator.sessionToId st) = None ->
  TrackedAgent.id agent = Translator.nextAgentId st ->
  translator_wf
    (Translator.mk (JsMap.set k agent (Translator.agents st))
       (S (Translator.nextAgentId st))
       (JsMap.set k (Translator.nextAgentId st) (Translator.sessionToId st))
       (Translator.toolIdCounter st)).
Proof.
  intros [Hk Hi Hn Hd Ha] Hnone Hid.
  assert (JsMap.get k (Translator.agents st) = None) as Hnone'.
  { apply get_None. rewrite Hk. by apply get_None. }
  rewrite (set_fresh _ _ _ Hnone), (set_fresh _ _ _ Hnone').
  split; simpl; unfold JsMap.keys, JsMap.values in *;
    rewrite ?fmap_app, ?length_app; simpl.
  - by rewrite Hk.
  - rewrite Hi, Hn, Nat.add_1_r, seq_S. done.
  - rewrite Hn. lia.
  - apply NoDup_app. split; [done|]. split; [|apply NoDup_singleton].
    intros x Hx ->%list_elem_of_singleton. by apply get_None in Hnone.
  - by rewrite Ha, Hid.
Qed.

Lemma handleLifecycleEvent_wf now p st :
  translator_wf st -> translator_wf (Translator.handleLifecycleEvent now p st).1.
Proof.
  intros Hwf. unfold Translator.handleLifecycleEvent.
  destruct (truthy _) as [k|]; [|done].
  repeat case_decide; try done;
    destruct (JsMap.get k (Translator.sessionToId st)) eqn:Hget; simpl; try done;
    try (by apply translator_wf_alter).
  by apply translator_wf_new.
Qed.

Lemma handleToolEvent_wf now p st :
  translator_wf st -> translator_wf (Translator.handleToolEvent now p st).1.
Proof.
  intros Hwf. unfold Translator.handleToolEvent.
  destruct (truthy _ ≫= _) as [[k id]|]; [|done].
  destruct (Fields.toolId _); repeat case_decide; simpl;
    try (by apply translator_wf_counter);
    by apply (translator_wf_alter _ _ (Translator.mk _ _ _ _));
      [|apply translator_wf_counter].
Qed.

Lemma handleApprovalRequest_wf p st :
  translator_wf st -> translator_wf (Translator.handleApprovalRequest p st).1.
Proof.
  intros Hwf. unfold Translator.handleApprovalRequest.
  destruct (truthy _ ≫= _) as [[k id]|]; [|done].
  by apply translator_wf_alter.
Qed.

Lemma step_wf st e : translator_wf st -> translator_wf (Translator.step st e).1.
Proof.
  intros Hwf. unfold Translator.step, Translator.handleGatewayEvent.
  repeat case_decide; try done.
  - by apply handleLifecycleEvent_wf.
  - by apply handleToolEvent_wf.
  - by apply handleApprovalRequest_wf.
Qed.

Lemma run_wf es : forall st, translator_wf st -> translator_wf (Translator.run st es).1.
Proof.
  induction es as [|e es IH]; intros st Hwf; simpl; [done|].
  pose proof (step_wf st e Hwf) as H1.
  destruct (Translator.step st e) as [st1 out1]. simpl in H1.
  specialize (IH st1 H1).
  by destruct (Translator.run st1 es) as [st2 out2].
Qed.

(** An event only ever adds entries at the end of [sessionToId]. *)
Lemma step_sessionToId_prefix st e :
  Translator.sessionToId st `prefix_of` Translator.sessionToId (Translator.step st e).1.
Proof.
  unfold Translator.step, Translator.handleGatewayEvent.
  repeat case_decide; try done.
  - unfold Translator.handleLifecycleEvent.
    destruct (truthy _) as [k|]; [|done].
    repeat case_decide; try done;
      destruct (JsMap.get k (Translator.sessionToId st)) eqn:Hget; simpl; try done.
    rewrite (set_fresh _ _ _ Hget). by apply prefix_app_r.
  - unfold Translator.handleToolEvent.
    destruct (truthy _ ≫= _) as [[k id]|]; [|done].
    by destruct (Fields.toolId _); repeat case_decide.
  - unfold Translator.handleApprovalRequest.
    by destruct (truthy _ ≫= _) as [[k id]|].
Qed.

Lemma run_sessionToId_prefix es : forall st,
  Translator.sessionToId st `prefix_of` Translator.sessionToId (Translator.run st es).1.
Proof.
  induction es as [|e es IH]; intros st; simpl; [done|].
  pose proof (step_sessionToId_prefix st e) as H1.
  destruct (Translator.step st e) as [st1 out1]. simpl in H1.
  specialize (IH st1).
  destruct (Translator.run st1 es) as [st2 out2]. simpl in *.
  by etrans.
Qed.

Lemma wf_ids_lookup st k i :
  translator_wf st ->
  JsMap.get k (Translator.sessionToId st) = Some i ->
  exists n, Translator.sessionToId st !! n = Some (k, i) /\ i = S n.
Proof.
  intros [_ Hi _ _ _] Hget.
  apply get_Some_elem, list_elem_of_lookup in Hget as [n Hn].
  exists n. split; [done|].
  assert (JsMap.values (Translator.sessionToId st) !! n = Some i) as Hv.
  { unfold JsMap.values. by rewrite list_lookup_fmap, Hn. }
  rewrite Hi in Hv. apply lookup_seq in Hv as [-> _]. done.
Qed.

Lemma wf_injective st k1 k2 i :
  translator_wf st ->
  JsMap.get k1 (Translator.sessionToId st) = Some i ->
  JsMap.get k2 (Translator.sessionToId st) = Some i ->
  k1 = k2.
Proof.
  intros Hwf H1 H2.
  destruct (wf_ids_lookup _ _ _ Hwf H1) as (n1 & Hn1 & ->).
  destruct (wf_ids_lookup _ _ _ Hwf H2) as (n2 & Hn2 & [= ->]).
  congruence.
Qed.

Lemma wf_agent_of st k i :
  translator_wf st ->
  JsMap.get k (Translator.sessionToId st) = Some i ->
  exists a, JsMap.get k (Translator.agents st) = Some a /\ TrackedAgent.id a = i.
Proof.
  intros Hwf Hget.
  destruct (wf_ids_lookup _ _ _ Hwf Hget) as (n & Hn & ->).
  destruct Hwf as [Hk Hi _ Hd Ha]. unfold JsMap.keys, JsMap.values in *.
  assert ((Translator.agents st).*1 !! n = Some k) as Hkn.
  { by rewrite Hk, list_lookup_fmap, Hn. }
  rewrite list_lookup_fmap in Hkn.
  destruct (Translator.agents st !! n) as [[k' a]|] eqn:Han; [|done].
  injection Hkn as ->. exists a. split.
  - apply elem_get; [unfold JsMap.keys; by rewrite Hk|].
    by eapply list_elem_of_lookup_2.
  - assert ((TrackedAgent.id <$> (Translator.agents st).*2) !! n
            = Some (TrackedAgent.id a)) as Hid.
    { by rewrite !list_lookup_fmap, Han. }
    rewrite Ha, list_lookup_fmap, Hn in Hid. by injection Hid.
Qed.

(** C1. For every sequence of gateway events the translator processes from
    its initial state, the ids in the session-key-to-id mapping are 1, 2,
    3, ... in the order of assignment and the counter holds the next one;
    distinct session keys have distinct ids; a lifecycle [start] for an
    untracked session key appends that key with the counter's value; and
    whatever events follow, the mapping only grows at its end: an entry,
    once there, is never changed or removed, and every entry added later
    carries a larger id. *)
Theorem C1_session_ids_append_only (es es' : list Translator.GatewayEvent) :
  let st := (Translator.run Translator.init es).1 in
  let st' := (Translator.run st es').1 in
  JsMap.values (Translator.sessionToId st)
    = seq 1 (length (Translator.sessionToId st)) /\
  Translator.nextAgentId st = S (length (Translator.sessionToId st)) /\
  (forall k1 k2 i1 i2,
      JsMap.get k1 (Translator.sessionToId st) = Some i1 ->
      JsMap.get k2 (Translator.sessionToId st) = Some i2 ->
      k1 ≠ k2 -> i1 ≠ i2) /\
  (forall e k,
      is_lifecycle e ->
      Translator.lifecyclePhase (Translator.ev_payload e) = Some (js "start") ->
      truthy (Translator.sessionKeyOf (Translator.ev_payload e)) = Some k ->
      JsMap.get k (Translator.sessionToId st) = None ->
      Translator.sessionToId (Translator.step st e).1
      = Translator.sessionToId st ++ [(k, Translator.nextAgentId st)]) /\
  Translator.sessionToId st `prefix_of` Translator.sessionToId st' /\
  (forall k i,
      JsMap.get k (Translator.sessionToId st) = Some i ->
      JsMap.get k (Translator.sessionToId st') = Some i) /\
  (forall k i,
      JsMap.get k (Translator.sessionToId st') = Some i ->
      JsMap.get k (Translator.sessionToId st) = None ->
      Translator.nextAgentId st <= i).
Proof.
  intros st st'.
  assert (translator_wf st) as Hwf by apply run_wf, translator_wf_init.
  assert (translator_wf st') as Hwf' by by apply run_wf.
  pose proof (run_sessionToId_prefix es' st) as Hpre. fold st' in Hpre.
  split_and!.
  - apply Hwf.
  - apply Hwf.
  - intros k1 k2 i1 i2 H1 H2 Hne ->. apply Hne.
    exact (wf_injective st k1 k2 _ Hwf H1 H2).
  - intros e k [Hname Hstream] Hphase Hkey Hnone.
    unfold Translator.step, Translator.handleGatewayEvent.
    rewrite decide_True by done. rewrite decide_True by done.
    unfold Translator.handleLifecycleEvent.
    rewrite Hkey, decide_True by done. rewrite Hnone. simpl.
    by apply set_fresh.
  - done.
  - intros k i Hget. destruct Hpre as [new ->]. by apply get_app_l.
  - intros k i Hget' Hnone.
    destruct (wf_ids_lookup _ _ _ Hwf' Hget') as (n & Hn & ->).
    destruct Hpre as [new Hnew]. rewrite (wf_next _ Hwf).
    destruct (decide (n < length (Translator.sessionToId st))) as [Hlt|]; [|lia].
    rewrite Hnew, lookup_app_l in Hn by done.
    apply list_elem_of_lookup_2, elem_get in Hn; [congruence | apply Hwf].
Qed.

(** C2. In every state the translator reaches, a lifecycle [start] for a
    session key that is already tracked allocates no id and emits no
    [agentCreated]: the only message is one [agentStatus] with ['active']
    for the existing id, the mapping and the counter are as before, and the
    existing agent is set to busy with the event's run id and an empty tool
    history, every other agent being left as it was. *)
Theorem C2_start_on_tracked_session (es : list Translator.GatewayEvent)
    (e : Translator.GatewayEvent) (k : jsstring) (id : nat) :
  let st := (Translator.run Translator.init es).1 in
  let st' := (Translator.step st e).1 in
  is_lifecycle e ->
  Translator.lifecyclePhase (Translator.ev_payload e) = Some (js "start") ->
  truthy (Translator.sessionKeyOf (Translator.ev_payload e)) = Some k ->
  JsMap.get k (Translator.sessionToId st) = Some id ->
  (Translator.step st e).2 = [agentStatus id active] /\
  Translator.nextAgentId st' = Translator.nextAgentId st /\
  Translator.sessionToId st' = Translator.sessionToId st /\
  JsMap.keys (Translator.agents st') = JsMap.keys (Translator.agents st) /\
  (exists a a',
      JsMap.get k (Translator.agents st) = Some a /\
      JsMap.get k (Translator.agents st') = Some a' /\
      TrackedAgent.id a' = id /\
      TrackedAgent.id a = id /\
      TrackedAgent.status a' = busy /\
      TrackedAgent.currentRunId a' = Payload.runId (Translator.ev_payload e) /\
      TrackedAgent.toolHistory a' = []) /\
  (forall k', k' ≠ k ->
      JsMap.get k' (Translator.agents st') = JsMap.get k' (Translator.agents st)).
Proof.
  intros st st' [Hname Hstream] Hphase Hkey Hget.
  assert (translator_wf st) as Hwf by apply run_wf, translator_wf_init.
  destruct (wf_agent_of _ _ _ Hwf Hget) as (a & Ha & Hid).
  subst st'. unfold Translator.step, Translator.handleGatewayEvent.
  rewrite decide_True by done. rewrite decide_True by done.
  unfold Translator.handleLifecycleEvent.
  rewrite Hkey, decide_True by done. rewrite Hget. simpl.
  split_and!; try done.
  - apply keys_alter.
  - exists a, (Translator.restart (Payload.runId (Translator.ev_payload e)) a).
    rewrite get_alter_eq, Ha. by split_and!.
  - intros k' Hne. by apply get_alter_ne.
Qed.

Lemma C1_session_ids_witness :
  JsMap.get (js "billing-agent")
    (Translator.sessionToId
       (Translator.run
          (Translator.run Translator.init twoSessions).1
          [lifecycleEvent "start" "docs-writer" None]).1)
  = Some 2.
Proof.
  apply (C1_session_ids_append_only twoSessions
           [lifecycleEvent "start" "docs-writer" None]).
  by_eval.
Defined.

Lemma C2_start_on_tracked_session_witness :
  let st := (Translator.run Translator.init oneOpenTool).1 in
  let e := lifecycleEvent "start" "support-triage" (Some (js "run-2")) in
  JsMap.get (js "support-triage") (Translator.sessionToId st) = Some 1 /\
  (Translator.step st e).2 = [agentStatus 1 active] /\
  Translator.nextAgentId (Translator.step st e).1 = Translator.nextAgentId st.
Proof.
  intros st e.
  assert (JsMap.get (js "support-triage") (Translator.sessionToId st) = Some 1)
    as Hget by by_eval.
  split; [exact Hget|].
  assert (is_lifecycle e) as H1 by by_eval.
  assert (Translator.lifecyclePhase (Translator.ev_payload e) = Some (js "start"))
    as H2 by by_eval.
  assert (truthy (Translator.sessionKeyOf (Translator.ev_payload e))
          = Some (js "support-triage")) as H3 by by_eval.
  pose proof (C2_start_on_tracked_session oneOpenTool e (js "support-triage") 1
                H1 H2 H3 Hget) as (Hout & Hnext & _).
  by split.
Defined.

(** ** The translator: events of sessions it does not track *)

(** C8. In every state of the translator, a lifecycle [end] or [error]
    event, a tool event, or an approval-requested event whose session key
    is missing, empty or not in the session-key-to-id mapping emits nothing
    and leaves the whole state (agents, mapping, both counters) as it was. *)
Theorem C8_untracked_session_dropped (st : Translator.t) (e : Translator.GatewayEvent) :
  let p := Translator.ev_payload e in
  (is_lifecycle e /\
   (Translator.lifecyclePhase p = Some (js "end") \/
    Translator.lifecyclePhase p = Some (js "error")) /\
   tracked st (Translator.sessionKeyOf p) = None)
  \/ (is_tool e /\ tracked st (Translator.sessionKeyOf p) = None)
  \/ (is_approval e /\ tracked st (Fields.sessionKey (Payload.top p)) = None) ->
  Translator.step st e = (st, []).
Proof.
  intros p. subst p.
  unfold tracked, Translator.step, Translator.handleGatewayEvent.
  unfold is_lifecycle, is_tool, is_approval.
  set (p := Translator.ev_payload e).
  intros [([Hname Hstream] & Hphase & Hkey) | [([Hname Hstream] & Hkey) | [Hname Hkey]]].
  - rewrite decide_True by done. rewrite decide_True by done.
    unfold Translator.handleLifecycleEvent.
    destruct (truthy (Translator.sessionKeyOf p)) as [k|]; [|done].
    simpl in Hkey. rewrite Hkey.
    destruct Hphase as [-> | ->].
    + rewrite decide_False by (intros [= H]; by apply js_inj in H).
      by rewrite decide_True.
    + rewrite decide_False by (intros [= H]; by apply js_inj in H).
      rewrite decide_False by (intros [= H]; by apply js_inj in H).
      by rewrite decide_True.
  - rewrite decide_True by done.
    rewrite decide_False
      by (rewrite Hstream; intros [= H]; by apply js_inj in H).
    rewrite decide_True by done.
    unfold Translator.handleToolEvent.
    destruct (truthy (Translator.sessionKeyOf p)) as [k|]; [|done].
    simpl in *. by rewrite Hkey.
  -     rewrite decide_False by (rewrite Hname; by apply literal_ne).
    rewrite Hname.
    rewrite decide_True by done.
    unfold Translator.handleApprovalRequest.
    destruct (truthy (Fields.sessionKey (Payload.top p))) as [k|]; [|done].
    simpl in *. by rewrite Hkey.
Qed.

Lemma C8_untracked_session_dropped_witness :
  let st := (Translator.run Translator.init twoSessions).1 in
  Translator.step st (lifecycleEvent "end" "docs-writer" None) = (st, []) /\
  Translator.step st
    (toolEvent "start" "docs-writer" "Read" ToolInput.empty None) = (st, []) /\
  Translator.step st (approvalEvent "docs-writer") = (st, []).
Proof.
  intros st. split_and!.
  - apply (C8_untracked_session_dropped st). left. by_eval.
  - apply (C8_untracked_session_dropped st). right. left. by_eval.
  - apply (C8_untracked_session_dropped st). right. right. by_eval.
Defined.

(** ** The translator: the end of a tool call *)

Lemma generatedToolId_inj (n m : nat) :
  Translator.generatedToolId n = Translator.generatedToolId m -> n = m.
Proof.
  unfold Translator.generatedToolId. intros H.
  apply app_inv_head in H. by apply decimal_inj.
Qed.

Lemma mark_done_no_match now toolId hist :
  Forall (fun tool => TrackedTool.toolId tool ≠ toolId) hist ->
  Translator.mark_done now toolId hist = hist.
Proof.
  intros Hall. unfold Translator.mark_done.
  assert (list_find (fun tool => TrackedTool.toolId tool = toolId) hist = None) as ->
    by by apply list_find_None.
  done.
Qed.

Lemma mark_done_toolIds now toolId hist :
  TrackedTool.toolId <$> Translator.mark_done now toolId hist
  = TrackedTool.toolId <$> hist.
Proof.
  unfold Translator.mark_done.
  destruct (list_find _ hist) as [[i tool]|] eqn:Hfind; [|done].
  apply list_find_Some in Hfind as (Hi & _ & _).
  rewrite list_fmap_insert. simpl. apply list_insert_id.
  by rewrite list_lookup_fmap, Hi.
Qed.

Lemma finish_tool_no_match now toolId a :
  Forall (fun tool => TrackedTool.toolId tool ≠ toolId) (TrackedAgent.toolHistory a) ->
  Translator.finish_tool now toolId a = a.
Proof.
  intros Hall. unfold Translator.finish_tool.
  rewrite mark_done_no_match by done. by destruct a.
Qed.

Lemma generated_history_init : generated_history Translator.init.
Proof. intros k a tool Hget. done. Qed.

Lemma generated_history_step st e :
  supplies_no_tool_id e ->
  generated_history st -> generated_history (Translator.step st e).1.
Proof.
  intros Hno Hgen. unfold Translator.step, Translator.handleGatewayEvent.
  destruct (decide (Translator.ev_name e = js "agent.stream")) as [Hname|_];
    [destruct (decide (Payload.stream (Translator.ev_payload e) = Some (js "lifecycle")))
       as [_|_];
       [|destruct (decide (Payload.stream (Translator.ev_payload e) = Some (js "tool")))
           as [Hstream|_]; [|done]]
    |case_decide; [|done]].
  - unfold Translator.handleLifecycleEvent.
    destruct (truthy _) as [k|]; [|done].
    repeat case_decide; try done;
      destruct (JsMap.get k (Translator.sessionToId st)) eqn:Hk; simpl; try done;
      intros k' a' tool Hget Hin; simpl in *.
    + apply get_alter_inv in Hget as (a & Ha & ->).
      case_decide; [by apply elem_of_nil in Hin | by eapply Hgen].
    + apply get_set_inv in Hget as [[_ ->] | [_ Hget]];
        [by apply elem_of_nil in Hin | by eapply Hgen].
    + apply get_alter_inv in Hget as (a & Ha & ->).
      case_decide; by eapply Hgen.
    + apply get_alter_inv in Hget as (a & Ha & ->).
      case_decide; by eapply Hgen.
  - unfold Translator.handleToolEvent.
    destruct (truthy _ ≫= _) as [[k id]|]; [|done].
    rewrite (Hno (conj Hname Hstream) : Fields.toolId (default _ _) = None).
    assert (forall k' a tool,
      JsMap.get k' (Translator.agents st) = Some a ->
      tool ∈ TrackedAgent.toolHistory a ->
      exists n, n <= S (Translator.toolIdCounter st) /\
                TrackedTool.toolId tool = Translator.generatedToolId n) as Hgen'.
    { intros k' a tool Ha Hin. destruct (Hgen k' a tool Ha Hin) as (n & ? & ?).
      exists n. split; [lia | done]. }
    repeat case_decide; simpl; intros k' a' tool Hget Hin; simpl in *;
      try (by eapply Hgen').
    + apply get_alter_inv in Hget as (a & Ha & ->).
      case_decide; [|by eapply Hgen'].
      simpl in Hin. apply elem_of_app in Hin as [Hin | ->%list_elem_of_singleton].
      * by eapply Hgen'.
      * simpl. eauto.
    + apply get_alter_inv in Hget as (a & Ha & ->).
      case_decide; [|by eapply Hgen'].
      simpl in Hin.
      assert (TrackedTool.toolId tool ∈ TrackedTool.toolId <$> TrackedAgent.toolHistory a)
        as Hid.
      { rewrite <- (mark_done_toolIds (Translator.ev_now e)
                      (Translator.generatedToolId (S (Translator.toolIdCounter st)))).
        apply list_elem_of_fmap. eauto. }
      apply list_elem_of_fmap in Hid as (tool0 & -> & Hin0). by eapply Hgen'.
  - unfold Translator.handleApprovalRequest.
    destruct (truthy _ ≫= _) as [[k id]|]; [|done].
    intros k' a' tool Hget Hin; simpl in *.
    apply get_alter_inv in Hget as (a & Ha & ->).
    case_decide; by eapply Hgen.
Qed.

Lemma generated_history_run es : forall st,
  Forall supplies_no_tool_id es ->
  generated_history st -> generated_history (Translator.run st es).1.
Proof.
  induction es as [|e es IH]; intros st Hall Hgen; simpl; [done|].
  apply Forall_cons in Hall as [He Hall].
  pose proof (generated_history_step st e He Hgen) as H1.
  destruct (Translator.step st e) as [st1 out1]. simpl in H1.
  specialize (IH st1 Hall H1).
  by destruct (Translator.run st1 es) as [st2 out2].
Qed.

(** C10, as stated, fails: the gateway started a tool call under the id
    [tool-1]; an [end] event without a tool id then draws [tool-1] from the
    counter, which matches that call, and the history changes. *)
Lemma C10_generated_id_matches_supplied_id :
  let st := (Translator.run Translator.init suppliedToolId).1 in
  let e := toolEndWithoutId in
  let history (s : Translator.t) :=
    TrackedAgent.toolHistory <$> JsMap.get (js "support-triage") (Translator.agents s) in
  is_tool e /\
  toolPhase (Translator.ev_payload e) = Some (js "end") /\
  tracked st (Translator.sessionKeyOf (Translator.ev_payload e)) = Some 1 /\
  Fields.toolId (toolEventOf (Translator.ev_payload e)) = None /\
  (Translator.step st e).2 = [agentToolDone 1 (js "tool-1")] /\
  history st
  = Some [TrackedTool.mk (js "tool-1") (js "Bash") (js "Running: npm run test")
            0 None false false] /\
  history (Translator.step st e).1
  = Some [TrackedTool.mk (js "tool-1") (js "Bash") (js "Running: npm run test")
            0 (Some 0%Z) true false] /\
  history (Translator.step st e).1 ≠ history st.
Proof. by_eval. Qed.

(** C10, amended. In every state the translator reaches, a tool event with
    phase [end] or [tool_end] for a tracked session emits exactly one
    [agentToolDone], with the event's tool id or, when it carries none, with
    the next id of the counter, [tool-<n>]; nothing else of the mapping or
    the agent counter moves. A counter id differs from every id the counter
    gave before. When no entry of the agent's history has the id, the agents
    are left as they were; that is so in particular for an event without a
    tool id when no earlier tool event supplied one. When an entry has the
    id, the first such entry is marked done and the others are left as they
    were. *)
Theorem C10_tool_end_emits_done (es : list Translator.GatewayEvent)
    (e : Translator.GatewayEvent) (k : jsstring) (id : nat) :
  let st := (Translator.run Translator.init es).1 in
  let p := Translator.ev_payload e in
  let toolId :=
    default (Translator.generatedToolId (S (Translator.toolIdCounter st)))
      (Fields.toolId (toolEventOf p)) in
  let st' := (Translator.step st e).1 in
  is_tool e ->
  toolPhase p = Some (js "end") \/ toolPhase p = Some (js "tool_end") ->
  truthy (Translator.sessionKeyOf p) = Some k ->
  JsMap.get k (Translator.sessionToId st) = Some id ->
  (Translator.step st e).2 = [agentToolDone id toolId] /\
  Translator.sessionToId st' = Translator.sessionToId st /\
  Translator.nextAgentId st' = Translator.nextAgentId st /\
  (Fields.toolId (toolEventOf p) = None ->
     Translator.toolIdCounter st' = S (Translator.toolIdCounter st) /\
     forall n, n <= Translator.toolIdCounter st ->
               Translator.generatedToolId n ≠ toolId) /\
  ((forall a, JsMap.get k (Translator.agents st) = Some a ->
      Forall (fun tool => TrackedTool.toolId tool ≠ toolId)
        (TrackedAgent.toolHistory a)) ->
   Translator.agents st' = Translator.agents st) /\
  (Forall supplies_no_tool_id es ->
   Fields.toolId (toolEventOf p) = None ->
   Translator.agents st' = Translator.agents st) /\
  (forall a i tool,
      JsMap.get k (Translator.agents st) = Some a ->
      list_find (fun t => TrackedTool.toolId t = toolId) (TrackedAgent.toolHistory a)
      = Some (i, tool) ->
      exists a',
        JsMap.get k (Translator.agents st') = Some a' /\
        TrackedAgent.toolHistory a'
        = <[i := Translator.complete (Translator.ev_now e) tool]>
            (TrackedAgent.toolHistory a) /\
        TrackedTool.done (Translator.complete (Translator.ev_now e) tool) = true /\
        TrackedTool.toolId (Translator.complete (Translator.ev_now e) tool) = toolId).
Proof.
  intros st p toolId st' [Hname Hstream] Hphase Hkey Hget.
  assert (generated_history st ->
          Fields.toolId (toolEventOf p) = None ->
          forall a, JsMap.get k (Translator.agents st) = Some a ->
            Forall (fun tool => TrackedTool.toolId tool ≠ toolId)
              (TrackedAgent.toolHistory a)) as Hfresh.
  { intros Hgen Hnone a Ha. apply Forall_forall. intros tool Hin Heq.
    destruct (Hgen k a tool Ha Hin) as (n & Hle & Hn).
    subst toolId. rewrite Hnone in Heq. simpl in Heq.
    rewrite Hn in Heq. apply generatedToolId_inj in Heq. lia. }
  assert (Translator.step st e
          = (Translator.with_agents
               (JsMap.alter (Translator.finish_tool (Translator.ev_now e) toolId) k)
               (Translator.mk (Translator.agents st) (Translator.nextAgentId st)
                  (Translator.sessionToId st)
                  (match Fields.toolId (toolEventOf p) with
                   | Some _ => Translator.toolIdCounter st
                   | None => S (Translator.toolIdCounter st)
                   end)),
             [agentToolDone id toolId])) as Hstep.
  { unfold Translator.step, Translator.handleGatewayEvent.
    rewrite decide_True by done.
    rewrite decide_False
      by (rewrite Hstream; intros [= H]; by apply js_inj in H).
    rewrite decide_True by done.
    unfold Translator.handleToolEvent. fold p. rewrite Hkey. simpl. rewrite Hget. simpl.
    subst toolId. unfold toolPhase, toolEventOf in *.
    destruct (Fields.toolId (default (Payload.top p) (Payload.data p))); simpl.
    - rewrite decide_False, decide_True; [done | done |].
      intros [H|H]; destruct Hphase as [H'|H']; rewrite H' in H;
        vm_compute in H; congruence.
    - rewrite decide_False, decide_True; [done | done |].
      intros [H|H]; destruct Hphase as [H'|H']; rewrite H' in H;
        vm_compute in H; congruence. }
  subst st'. rewrite Hstep. simpl. split_and!; try done.
  - intros Hnone. rewrite Hnone. split; [done|].
    intros n Hle Heq. subst toolId. rewrite Hnone in Heq. simpl in Heq.
    apply generatedToolId_inj in Heq. lia.
  - intros Hno. apply alter_fixed. intros a Ha.
    by apply finish_tool_no_match, Hno.
  - intros Hall Hnone. apply alter_fixed. intros a Ha.
    apply finish_tool_no_match, Hfresh; try done.
    apply generated_history_run; [done | apply generated_history_init].
  - intros a i tool Ha Hfind. eexists.
    rewrite get_alter_eq, Ha. split; [done|]. simpl.
    unfold Translator.mark_done. rewrite Hfind. split_and!; [done | done |].
    by apply list_find_Some in Hfind as (_ & ? & _).
Qed.

Lemma C10_tool_end_emits_done_witness :
  let st := (Translator.run Translator.init generatedToolIds).1 in
  let e := toolEndWithoutId in
  (Translator.step st e).2 = [agentToolDone 1 (js "tool-2")] /\
  Translator.agents (Translator.step st e).1 = Translator.agents st.
Proof.
  intros st e.
  assert (is_tool e) as H1 by by_eval.
  assert (toolPhase (Translator.ev_payload e) = Some (js "end") \/
          toolPhase (Translator.ev_payload e) = Some (js "tool_end")) as H2 by by_eval.
  assert (truthy (Translator.sessionKeyOf (Translator.ev_payload e))
          = Some (js "support-triage")) as H3 by by_eval.
  assert (JsMap.get (js "support-triage") (Translator.sessionToId st) = Some 1)
    as H4 by by_eval.
  assert (Forall supplies_no_tool_id generatedToolIds) as H5.
  { repeat constructor; intros _; reflexivity. }
  pose proof (C10_tool_end_emits_done generatedToolIds e (js "support-triage") 1
                H1 H2 H3 H4) as (Hout & _ & _ & _ & _ & Hagents & _).
  split; [exact Hout | exact (Hagents H5 eq_refl)].
Defined.

(** ** The gateway client: runs *)

Lemma gateway_run_app es1 : forall es2 st,
  Gateway.run st (es1 ++ es2)
  = match Gateway.run st es1 with
    | Some (st1, out1) =>
        match Gateway.run st1 es2 with
        | Some (st2, out2) => Some (st2, out1 ++ out2)
        | None => None
        end
    | None => None
    end.
Proof.
  induction es1 as [|e es1 IH]; intros es2 st; simpl.
  - by destruct (Gateway.run st es2) as [[st2 out2]|].
  - destruct (Gateway.step st e) as [[st1 out1]|]; [|done].
    rewrite IH. destruct (Gateway.run st1 es1) as [[st2 out2]|]; [|done].
    destruct (Gateway.run st2 es2) as [[st3 out3]|]; [|done].
    by rewrite app_assoc.
Qed.

(** ** The gateway client: the handshake never completes *)

Lemma seq_act_fst (f g : Gateway.act) st :
  (Gateway.seq_act f g st).1 = (g (f st).1).1.
Proof.
  unfold Gateway.seq_act. destruct (f st) as [s1 e1]. simpl.
  by destruct (g s1) as [s2 e2].
Qed.

Lemma seq_act_snd (f g : Gateway.act) st :
  (Gateway.seq_act f g st).2 = (f st).2 ++ (g (f st).1).2.
Proof.
  unfold Gateway.seq_act. destruct (f st) as [s1 e1]. simpl.
  by destruct (g s1) as [s2 e2].
Qed.

Lemma preserved_seq P f g :
  preserved P f -> preserved P g -> preserved P (Gateway.seq_act f g).
Proof. intros Hf Hg st HP. rewrite seq_act_fst. by apply Hg, Hf. Qed.

Lemma preserved_skip P : preserved P Gateway.skip.
Proof. by intros st. Qed.

Lemma preserved_effect P e : preserved P (Gateway.effect e).
Proof. by intros st. Qed.

Lemma preserved_sendRaw P frame : preserved P (Gateway.sendRaw frame).
Proof.
  intros st HP. unfold Gateway.sendRaw.
  destruct (Gateway.ws st); [case_decide|]; done.
Qed.

Lemma nc_setState s detail :
  s ≠ connected -> preserved never_connected (Gateway.setState s detail).
Proof. by intros Hs st [_ Hp]. Qed.

Lemma nc_scheduleReconnect : preserved never_connected Gateway.scheduleReconnect.
Proof.
  intros st [Hs Hp]. unfold Gateway.scheduleReconnect.
  by destruct (Gateway.reconnectTimer st).
Qed.

Lemma nc_cleanup : preserved never_connected Gateway.cleanup.
Proof. by intros st [Hs Hp]. Qed.

Lemma nc_connect throws : preserved never_connected (Gateway.connect throws).
Proof.
  intros st Hn. unfold Gateway.connect. case_decide as Hc; [done|]. clear Hc.
  revert st Hn. apply preserved_seq; [by apply nc_setState|].
  intros st Hn. destruct throws; [|by destruct Hn].
  revert st Hn. apply preserved_seq; [by apply nc_setState|].
  apply nc_scheduleReconnect.
Qed.

Lemma nc_disconnect : preserved never_connected Gateway.disconnect.
Proof.
  unfold Gateway.disconnect. repeat apply preserved_seq.
  - intros st [Hs Hp]. by destruct (Gateway.reconnectTimer st).
  - apply nc_cleanup.
  - intros st [Hs Hp]. by destruct (Gateway.ws st).
  - by apply nc_setState.
Qed.

Lemma nc_request method params timeoutMs :
  preserved never_connected (Gateway.request method params timeoutMs).
Proof. intros st [Hs Hp]. unfold Gateway.request. by rewrite decide_False. Qed.

Lemma nc_handleFrame frame : preserved never_connected (Gateway.handleFrame frame).
Proof.
  destruct frame as [ev p|id ok payload err|]; simpl.
  - case_decide; [|apply preserved_effect].
    intros st [Hs Hp]. unfold Gateway.sendConnectRequest.
    by apply (preserved_sendRaw never_connected).
  - intros st [Hs Hp]. by rewrite Hp.
  - apply preserved_skip.
Qed.

Lemma nc_onClose : preserved never_connected Gateway.onClose.
Proof.
  unfold Gateway.onClose. repeat apply preserved_seq.
  - apply nc_cleanup.
  - by apply nc_setState.
  - apply nc_scheduleReconnect.
Qed.

Lemma never_connected_step st e st' out :
  never_connected st -> Gateway.step st e = Some (st', out) -> never_connected st'.
Proof.
  intros Hn Hstep.
  assert (forall f st0, never_connected st0 -> preserved never_connected f ->
            Some (f st0) = Some (st', out) -> never_connected st') as Huse.
  { intros f st0 H0 Hf [= Heq]. specialize (Hf st0 H0). by rewrite Heq in Hf. }
  assert (forall st0, Gateway.state st0 = Gateway.state st ->
            Gateway.pendingRequests st0 = Gateway.pendingRequests st ->
            never_connected st0) as Hsame.
  { intros st0 H1 H2. destruct Hn. split; congruence. }
  destruct e as [throws| |method params timeoutMs|i|i parsed|i|i|h throws];
    simpl in Hstep.
  - eapply Huse; [done | apply nc_connect | done].
  - eapply Huse; [done | apply nc_disconnect | done].
  - eapply Huse; [done | apply nc_request | done].
  - destruct (Gateway.sockets st !! i) as [[]|]; try done.
    eapply Huse; [| by apply (nc_setState handshaking) | exact Hstep].
    by apply Hsame.
  - destruct (Gateway.sockets st !! i) as [[]|]; try done;
      (eapply Huse; [done | | exact Hstep]);
      (destruct parsed; [apply nc_handleFrame | apply preserved_skip]).
  - destruct (Gateway.sockets st !! i) as [[]|]; try done;
      (eapply Huse; [| apply nc_onClose | exact Hstep]); by apply Hsame.
  - destruct (Gateway.sockets st !! i); [|done].
    eapply Huse; [done | apply preserved_skip | exact Hstep].
  - destruct (Gateway.timer_kind h st) as [[d|id method t|t]|]; [| | |done].
    + eapply Huse; [| | exact Hstep]; [by apply Hsame|].
      apply preserved_seq; [|apply nc_connect]. by intros st0 [? ?].
    + eapply Huse; [| | exact Hstep]; [by apply Hsame|].
      intros st0 [? Hp0]. split; [done|]. simpl. by rewrite Hp0.
    + eapply Huse; [done | apply preserved_sendRaw | exact Hstep].
Qed.

Lemma never_connected_run es : forall st st' out,
  never_connected st -> Gateway.run st es = Some (st', out) -> never_connected st'.
Proof.
  induction es as [|e es IH]; intros st st' out Hn; simpl.
  - by intros [= <- _].
  - destruct (Gateway.step st e) as [[st1 out1]|] eqn:Hstep; [|done].
    destruct (Gateway.run st1 es) as [[st2 out2]|] eqn:Hrun; [|done].
    intros [= <- _]. eapply IH; [|done]. by eapply never_connected_step.
Qed.

Lemma never_connected_init : never_connected Gateway.init.
Proof. by split. Qed.

(** ** The gateway client: backoff *)

Lemma scheduleReconnect_unarmed st :
  Gateway.reconnectTimer st = None ->
  Gateway.scheduleReconnect st
  = (Gateway.mk (Gateway.ws st) (Gateway.state st) (Some (Gateway.nextTimer st))
       (Z.min (Gateway.reconnectDelay st * 2) 30000) (Gateway.tickTimer st)
       (Gateway.requestId st) (Gateway.pendingRequests st) (Gateway.sockets st)
       (Gateway.timers st
          ++ [(Gateway.nextTimer st, Gateway.ReconnectTimer (Gateway.reconnectDelay st))])
       (S (Gateway.nextTimer st)),
     []).
Proof. intros H. unfold Gateway.scheduleReconnect. by rewrite H. Qed.

Lemma scheduleReconnect_armed st :
  is_Some (Gateway.reconnectTimer st) -> Gateway.scheduleReconnect st = (st, []).
Proof. intros [h H]. unfold Gateway.scheduleReconnect. by rewrite H. Qed.

Lemma onConnected_resets hello st :
  Gateway.reconnectDelay (Gateway.onConnected hello st).1 = 1000%Z /\
  Gateway.state (Gateway.onConnected hello st).1 = connected.
Proof. done. Qed.

Lemma backoff_doubles (n : nat) :
  (Z.min (Z.min (1000 * 2 ^ Z.of_nat n) 30000 * 2) 30000
   = Z.min (1000 * 2 ^ Z.of_nat (S n)) 30000)%Z.
Proof.
  rewrite Nat2Z.inj_succ, Z.pow_succ_r by lia.
  assert (0 < 2 ^ Z.of_nat n)%Z by (apply Z.pow_pos_nonneg; lia). lia.
Qed.

Lemma failedAttempt_run n :
  exists out,
    Gateway.run (afterFailures n) (failedAttempt n) = Some (afterFailures (S n), out).
Proof.
  assert (<[n:=CLOSED]> (replicate n CLOSED ++ [CONNECTING]) = replicate (S n) CLOSED)
    as Hsock.
  { rewrite insert_app_r_alt by by rewrite length_replicate.
    rewrite length_replicate, Nat.sub_diag. simpl. by rewrite <- replicate_S_end. }
  unfold failedAttempt, afterFailures. simpl.
  rewrite lookup_app_r by by rewrite length_replicate.
  rewrite length_replicate, Nat.sub_diag. simpl.
  unfold Gateway.onClose, Gateway.set_socket. simpl.
  unfold Gateway.timer_kind. simpl. rewrite decide_True by done. simpl.
  unfold Gateway.disarm. simpl.
  rewrite filter_cons_False by (simpl; intros H; by apply H).
  rewrite filter_nil, Hsock, length_replicate.
  unfold Gateway.maxReconnectDelay. rewrite backoff_doubles.
  by eexists.
Qed.

Lemma failedAttempts_run n :
  exists out, Gateway.run Gateway.init (failedAttempts n) = Some (afterFailures n, out).
Proof.
  induction n as [|n [out IH]].
  - by eexists.
  - assert (failedAttempts (S n) = failedAttempts n ++ failedAttempt n) as ->.
    { unfold failedAttempts. by rewrite seq_S, bind_app. }
    rewrite gateway_run_app, IH.
    destruct (failedAttempt_run n) as [out' ->]. by eexists.
Qed.

(** ** The gateway client: timers and pending requests *)

Lemma elem_of_disarm h ts (x : nat * Gateway.TimerKind) :
  x ∈ Gateway.disarm h ts <-> x.1 ≠ h /\ x ∈ ts.
Proof.
  unfold Gateway.disarm.
  apply (list_elem_of_filter (fun t : nat * Gateway.TimerKind => t.1 ≠ h)).
Qed.

Lemma NoDup_disarm h ts : NoDup ts.*1 -> NoDup (Gateway.disarm h ts).*1.
Proof.
  unfold Gateway.disarm. induction ts as [|[h' k] ts IH]; simpl; [done|].
  intros [Hnot Hnd]%NoDup_cons. rewrite filter_cons. case_decide; simpl; [|auto].
  apply NoDup_cons. split; [|auto].
  intros ([h2 k2] & Heq & [_ Hin]%list_elem_of_filter)%list_elem_of_fmap.
  simpl in Heq. subst h2. apply Hnot. apply list_elem_of_fmap. by exists (h', k2).
Qed.

Lemma elem_of_disarm_all (ps : list (list N * nat)) : forall ts (x : nat * Gateway.TimerKind),
  x ∈ foldl (fun ts p => Gateway.disarm p.2 ts) ts ps <-> (x.1 ∉ ps.*2) /\ x ∈ ts.
Proof.
  induction ps as [|[id h] ps IH]; intros ts x; simpl.
  - split; [intros; split; [apply not_elem_of_nil | done] | by intros [_ ?]].
  - rewrite IH, elem_of_disarm, not_elem_of_cons. tauto.
Qed.

Lemma NoDup_disarm_all (ps : list (list N * nat)) : forall ts,
  NoDup ts.*1 -> NoDup (foldl (fun ts p => Gateway.disarm p.2 ts) ts ps).*1.
Proof.
  induction ps as [|[id h] ps IH]; intros ts Hnd; simpl; [done|].
  by apply IH, NoDup_disarm.
Qed.

Lemma settlements_app id out1 out2 :
  settlements id (out1 ++ out2) = settlements id out1 + settlements id out2.
Proof. unfold settlements. by rewrite filter_app, length_app. Qed.

Lemma settlements_resolve i id payload :
  settlements i [Gateway.Resolve id payload] = if decide (i = id) then 1 else 0.
Proof.
  unfold settlements. rewrite filter_cons, filter_nil. simpl.
  destruct (decide (i = id)) as [->|Hne].
  - rewrite bool_decide_eq_true_2 by done. by rewrite decide_True.
  - rewrite bool_decide_eq_false_2 by done. by rewrite decide_False.
Qed.

Lemma settlements_reject i id message :
  settlements i [Gateway.Reject id message] = if decide (i = id) then 1 else 0.
Proof.
  unfold settlements. rewrite filter_cons, filter_nil. simpl.
  destruct (decide (i = id)) as [->|Hne].
  - rewrite bool_decide_eq_true_2 by done. by rewrite decide_True.
  - rewrite bool_decide_eq_false_2 by done. by rewrite decide_False.
Qed.

Lemma requestIdName_inj n m :
  Gateway.requestIdName n = Gateway.requestIdName m -> n = m.
Proof.
  unfold Gateway.requestIdName. intros H%app_inv_head. by apply decimal_inj.
Qed.

Lemma issued_mono st st' id :
  Gateway.requestId st <= Gateway.requestId st' -> issued st id -> issued st' id.
Proof. intros Hle (n & Hn & ->). exists n. split; [lia | done]. Qed.

Lemma sound_seq f g : sound f -> sound g -> sound (Gateway.seq_act f g).
Proof.
  intros Hf Hg st Hwf. rewrite seq_act_fst, seq_act_snd.
  destruct (Hf st Hwf) as (Hwf1 & Hle1 & Hc1).
  destruct (Hg _ Hwf1) as (Hwf2 & Hle2 & Hc2).
  split_and!; [done | lia |].
  intros id Hid. rewrite settlements_app, (Hc1 id Hid).
  rewrite (Hc2 id) by by eapply issued_mono. lia.
Qed.

Lemma handle_unique (ts : list (nat * Gateway.TimerKind)) h k1 k2 :
  NoDup ts.*1 -> (h, k1) ∈ ts -> (h, k2) ∈ ts -> k1 = k2.
Proof.
  intros Hnd [i Hi]%list_elem_of_lookup [j Hj]%list_elem_of_lookup.
  assert (i = j) as ->.
  { eapply NoDup_lookup; [exact Hnd | |];
      rewrite list_lookup_fmap; [by rewrite Hi | by rewrite Hj]. }
  congruence.
Qed.

Lemma disarm_keeps h ts (x : nat * Gateway.TimerKind) :
  x ∈ ts -> x.1 ≠ h -> x ∈ Gateway.disarm h ts.
Proof. intros. by apply elem_of_disarm. Qed.

(** Disarming the timer under a handle leaves the timers of other kinds
    armed. *)
Lemma disarm_other_kind h k ts h' k' :
  NoDup ts.*1 -> (h, k) ∈ ts -> (h', k') ∈ ts -> k ≠ k' ->
  (h', k') ∈ Gateway.disarm h ts.
Proof.
  intros Hnd Hk Hk' Hne. apply disarm_keeps; [done|]. simpl. intros ->.
  apply Hne. by eapply handle_unique.
Qed.

Lemma gateway_wf_same st st' :
  gateway_wf st ->
  Gateway.timers st' = Gateway.timers st ->
  Gateway.nextTimer st' = Gateway.nextTimer st ->
  Gateway.pendingRequests st' = Gateway.pendingRequests st ->
  Gateway.reconnectTimer st' = Gateway.reconnectTimer st ->
  Gateway.tickTimer st' = Gateway.tickTimer st ->
  Gateway.requestId st <= Gateway.requestId st' ->
  gateway_wf st'.
Proof.
  intros [H1 H2 H3 H4 H5 H6 H7 H8 H9] Ht Hn Hp Hr Hk Hle.
  split; rewrite ?Ht, ?Hn, ?Hp, ?Hr, ?Hk; try done.
  intros id h Hget. destruct (H6 id h Hget) as (n & ? & ->).
  exists n. split; [lia | done].
Qed.

(** A method that touches neither the timers nor the pending set and
    settles nothing. *)
Lemma sound_same f :
  (forall st,
      Gateway.timers (f st).1 = Gateway.timers st /\
      Gateway.nextTimer (f st).1 = Gateway.nextTimer st /\
      Gateway.pendingRequests (f st).1 = Gateway.pendingRequests st /\
      Gateway.reconnectTimer (f st).1 = Gateway.reconnectTimer st /\
      Gateway.tickTimer (f st).1 = Gateway.tickTimer st /\
      Gateway.requestId st <= Gateway.requestId (f st).1 /\
      forall id, settlements id (f st).2 = 0) ->
  sound f.
Proof.
  intros Hf st Hwf. destruct (Hf st) as (Ht & Hn & Hp & Hr & Hk & Hle & Hs).
  split_and!; [by eapply gateway_wf_same | done |].
  intros id _. unfold pendingCount. by rewrite Hs, Hp.
Qed.

Lemma sound_skip : sound Gateway.skip.
Proof. apply sound_same. intros st. by split_and!. Qed.

Lemma sound_setState s detail : sound (Gateway.setState s detail).
Proof. apply sound_same. intros st. by split_and!. Qed.

Lemma sound_sendRaw frame : sound (Gateway.sendRaw frame).
Proof.
  apply sound_same. intros st. unfold Gateway.sendRaw.
  destruct (Gateway.ws st); [case_decide|]; by split_and!.
Qed.

Lemma sound_sendConnectRequest : sound Gateway.sendConnectRequest.
Proof.
  apply sound_same. intros st. unfold Gateway.sendConnectRequest, Gateway.sendRaw.
  simpl. destruct (Gateway.ws st); [case_decide|]; simpl; split_and!; try done; lia.
Qed.

(** Arming a timer under the next handle keeps the handles distinct and
    below the next one. *)
Lemma arm_handles st k :
  gateway_wf st ->
  NoDup (Gateway.timers st ++ [(Gateway.nextTimer st, k)]).*1 /\
  forall h k', (h, k') ∈ Gateway.timers st ++ [(Gateway.nextTimer st, k)] ->
               h < S (Gateway.nextTimer st).
Proof.
  intros Hwf. split.
  - rewrite fmap_app. apply NoDup_app.
    split_and!; [apply Hwf | | apply NoDup_singleton].
    intros h ([h' k'] & Heq & Hin)%list_elem_of_fmap Hnew%list_elem_of_singleton.
    simpl in *. subst. apply (gw_below _ Hwf) in Hin. lia.
  - intros h k' [Hin | [= -> ->]%list_elem_of_singleton]%elem_of_app; [|lia].
    apply (gw_below _ Hwf) in Hin. lia.
Qed.

Lemma elem_of_armed (ts : list (nat * Gateway.TimerKind)) x y :
  x ∈ ts ++ [y] <-> x ∈ ts \/ x = y.
Proof. by rewrite elem_of_app, list_elem_of_singleton. Qed.

Lemma sound_scheduleReconnect : sound Gateway.scheduleReconnect.
Proof.
  intros st Hwf. destruct (Gateway.reconnectTimer st) as [h|] eqn:Hr.
  - rewrite scheduleReconnect_armed by by rewrite Hr. simpl. by split_and!.
  - rewrite scheduleReconnect_unarmed by done. simpl. split_and!; [|done|done].
    destruct (arm_handles st (Gateway.ReconnectTimer (Gateway.reconnectDelay st)) Hwf)
      as [Hnd Hbelow].
    split; simpl; try done; try apply Hwf.
    + intros h id method t [Hin | [=]]%elem_of_armed. by eapply gw_pending.
    + intros id h Hget. destruct (gw_armed _ Hwf _ _ Hget) as (m & t & Hin).
      exists m, t. apply elem_of_armed. by left.
    + intros h d [Hin | [= -> _]]%elem_of_armed; [|done].
      apply (gw_reconnect _ Hwf) in Hin. congruence.
    + intros h [= <-]. eexists. apply elem_of_armed. by right.
    + intros h Hk. destruct (gw_tick_armed _ Hwf _ Hk) as (ms & Hin).
      exists ms. apply elem_of_armed. by left.
Qed.

Lemma sound_onConnected hello : sound (Gateway.onConnected hello).
Proof.
  unfold Gateway.onConnected. repeat apply sound_seq.
  - apply sound_same. intros st. by split_and!.
  - apply sound_setState.
  - intros st Hwf. simpl. split_and!; [|done|done].
    destruct (arm_handles st
                (Gateway.TickTimer (default 15000%Z (Gateway.ResPayload.tickIntervalMs hello)))
                Hwf) as [Hnd Hbelow].
    split; simpl; try done; try apply Hwf.
    + intros h id method t [Hin | [=]]%elem_of_armed. by eapply gw_pending.
    + intros id h Hget. destruct (gw_armed _ Hwf _ _ Hget) as (m & t & Hin).
      exists m, t. apply elem_of_armed. by left.
    + intros h d [Hin | [=]]%elem_of_armed. by eapply gw_reconnect.
    + intros h Hr. destruct (gw_reconnect_armed _ Hwf _ Hr) as (d & Hin).
      exists d. apply elem_of_armed. by left.
    + intros h [= <-]. eexists. apply elem_of_armed. by right.
  - apply sound_same. intros st. by split_and!.
Qed.

Lemma settlements_reject_all id (ps : list (list N * nat)) :
  NoDup (JsMap.keys ps) ->
  settlements id ((fun p => Gateway.Reject p.1 (js "Connection closed")) <$> ps)
  = match JsMap.get id ps with Some _ => 1 | None => 0 end.
Proof.
  unfold settlements, JsMap.keys. generalize (js "Connection closed") as msg.
  intros msg. induction ps as [|[id' h] ps IH]; csimpl; [done|].
  intros [Hnot Hnd]%NoDup_cons. rewrite filter_cons. csimpl.
  destruct (decide (id' = id)) as [->|Hne].
  - rewrite bool_decide_eq_true_2 by done. rewrite decide_True by done. csimpl.
    rewrite IH by done.
    assert (JsMap.get id ps = None) as -> by by apply get_None. done.
  - rewrite bool_decide_eq_false_2 by done. rewrite decide_False by done. auto.
Qed.

(** What [cleanup] leaves armed: every timer but the tick timer and the
    timers of the pending requests. *)
Lemma cleanup_timers st (x : nat * Gateway.TimerKind) :
  x ∈ Gateway.timers (Gateway.cleanup st).1 <->
  x ∈ Gateway.timers st /\
  Gateway.tickTimer st ≠ Some x.1 /\
  x.1 ∉ (Gateway.pendingRequests st).*2.
Proof.
  unfold Gateway.cleanup. simpl. rewrite elem_of_disarm_all.
  destruct (Gateway.tickTimer st) as [h|]; simpl.
  - rewrite elem_of_disarm. split.
    + intros (? & ? & ?). split_and!; [done | congruence | done].
    + intros (? & Hne & ?). split_and!; [done | congruence | done].
  - split; [intros (? & ?) | intros (? & _ & ?)]; by split_and!.
Qed.

Lemma sound_cleanup : sound Gateway.cleanup.
Proof.
  intros st Hwf.
  assert (NoDup (Gateway.timers (Gateway.cleanup st).1).*1) as Hnd.
  { unfold Gateway.cleanup. simpl. apply NoDup_disarm_all.
    destruct (Gateway.tickTimer st); simpl; [apply NoDup_disarm|]; apply Hwf. }
  split_and!; [|done|].
  - split; try done.
    + intros h k [Hin _]%cleanup_timers. exact (gw_below _ Hwf _ _ Hin).
    + apply NoDup_nil_2.
    + intros h id method t (Hin & _ & Hnot)%cleanup_timers. exfalso.
      apply Hnot. simpl. apply (gw_pending _ Hwf), get_Some_elem in Hin.
      apply list_elem_of_fmap. by exists (id, h).
    + intros h d [Hin _]%cleanup_timers. exact (gw_reconnect _ Hwf _ _ Hin).
    + intros h Hr. change (Gateway.reconnectTimer st = Some h) in Hr.
      destruct (gw_reconnect_armed _ Hwf _ Hr) as (d & Hin).
      exists d. apply cleanup_timers. split_and!; [done | |].
      * intros Hk. destruct (gw_tick_armed _ Hwf _ Hk) as (ms & Hin').
        simpl in Hin'. by pose proof (handle_unique _ _ _ _ (gw_handles _ Hwf) Hin Hin').
      * intros ([id h'] & Heq & Hin')%list_elem_of_fmap. simpl in Heq. subst h'.
        apply (elem_get _ _ _ (gw_nodup _ Hwf)) in Hin'.
        destruct (gw_armed _ Hwf _ _ Hin') as (m & t & Hin'').
        by pose proof (handle_unique _ _ _ _ (gw_handles _ Hwf) Hin Hin'').
  - intros id _. unfold Gateway.cleanup. simpl.
    rewrite settlements_reject_all by apply Hwf.
    unfold pendingCount. simpl. lia.
Qed.

Lemma sound_connect throws : sound (Gateway.connect throws).
Proof.
  intros st Hwf. unfold Gateway.connect. case_decide as Hc.
  { by apply sound_skip. }
  clear Hc. revert st Hwf. apply sound_seq; [apply sound_setState|].
  destruct throws.
  - apply sound_seq; [apply sound_setState | apply sound_scheduleReconnect].
  - apply sound_same. intros st. by split_and!.
Qed.

(** Disarming a timer that is not a request timer, the object's fields
    apart from the two timer fields being as they were. *)
Lemma gateway_wf_disarm st st' h k :
  gateway_wf st ->
  (h, k) ∈ Gateway.timers st ->
  (forall id m t, k ≠ Gateway.RequestTimer id m t) ->
  Gateway.timers st' = Gateway.disarm h (Gateway.timers st) ->
  Gateway.nextTimer st' = Gateway.nextTimer st ->
  Gateway.pendingRequests st' = Gateway.pendingRequests st ->
  Gateway.requestId st' = Gateway.requestId st ->
  (forall h' d, (h', Gateway.ReconnectTimer d) ∈ Gateway.timers st' ->
                Gateway.reconnectTimer st' = Some h') ->
  (forall h', Gateway.reconnectTimer st' = Some h' ->
              Gateway.reconnectTimer st = Some h' /\ h' ≠ h) ->
  (forall h', Gateway.tickTimer st' = Some h' ->
              Gateway.tickTimer st = Some h' /\ h' ≠ h) ->
  gateway_wf st'.
Proof.
  intros Hwf Hk Hkind Ht Hn Hp Hi Hr Hra Hta.
  split; rewrite ?Ht, ?Hn, ?Hp, ?Hi; try apply Hwf.
  - apply NoDup_disarm, Hwf.
  - intros h' k' [_ Hin]%elem_of_disarm. by eapply gw_below.
  - intros h' id m t [_ Hin]%elem_of_disarm. by eapply gw_pending.
  - intros id h' Hget. destruct (gw_armed _ Hwf _ _ Hget) as (m & t & Hin).
    exists m, t. eapply disarm_other_kind; [apply Hwf | exact Hk | done | apply Hkind].
  - intros h' d Hin. apply (Hr h' d). by rewrite Ht.
  - intros h' [Hr' Hne]%Hra. destruct (gw_reconnect_armed _ Hwf _ Hr') as (d & Hin).
    exists d. by apply disarm_keeps.
  - intros h' [Hk' Hne]%Hta. destruct (gw_tick_armed _ Hwf _ Hk') as (ms & Hin).
    exists ms. by apply disarm_keeps.
Qed.

Lemma sound_disconnect : sound Gateway.disconnect.
Proof.
  unfold Gateway.disconnect. repeat apply sound_seq.
  - intros st Hwf. destruct (Gateway.reconnectTimer st) as [h|] eqn:Hr;
      [|by apply sound_skip].
    simpl. split_and!; [|done|done].
    destruct (gw_reconnect_armed _ Hwf _ Hr) as (d & Hd).
    eapply (gateway_wf_disarm st _ h); simpl; try done.
    + intros h' d' [Hne Hin]%elem_of_disarm.
      apply (gw_reconnect _ Hwf) in Hin. simpl in Hne. congruence.
    + intros h' Hk. split; [done|]. intros ->.
      destruct (gw_tick_armed _ Hwf _ Hk) as (ms & Hin).
      by pose proof (handle_unique _ _ _ _ (gw_handles _ Hwf) Hd Hin).
  - apply sound_cleanup.
  - apply sound_same. intros st. destruct (Gateway.ws st); by split_and!.
  - apply sound_setState.
Qed.

Lemma sound_request method params timeoutMs :
  sound (Gateway.request method params timeoutMs).
Proof.
  intros st Hwf. unfold Gateway.request. case_decide as Hc.
  2: { by apply sound_skip. }
  set (id := Gateway.requestIdName (S (Gateway.requestId st))).
  assert (JsMap.get id (Gateway.pendingRequests st) = None) as Hfresh.
  { destruct (JsMap.get id _) as [h|] eqn:Hget; [|done].
    destruct (gw_ids _ Hwf _ _ Hget) as (n & Hle & Heq).
    apply requestIdName_inj in Heq. lia. }
  simpl.
  match goal with |- context [Gateway.sendRaw ?f ?s] =>
    set (st1 := s); destruct (sound_sendRaw f st1) as (Hwf' & Hle & Hcount)
  end.
  - destruct (arm_handles st (Gateway.RequestTimer id method timeoutMs) Hwf)
      as [Hnd Hbelow].
    split; simpl; try done.
    + unfold JsMap.keys. rewrite set_fresh, fmap_app by done.
      apply NoDup_app. split_and!; [apply Hwf | | apply NoDup_singleton].
      intros x Hx ->%list_elem_of_singleton. by apply get_None in Hfresh.
    + intros h i m t [Hin | [= -> -> _ _]]%elem_of_armed.
      * apply (gw_pending _ Hwf) in Hin.
        rewrite get_set_ne; [done | congruence].
      * apply get_set_eq.
    + intros i h [[<- ->] | [_ Hget]]%get_set_inv.
      * eexists _, _. apply elem_of_armed. by right.
      * destruct (gw_armed _ Hwf _ _ Hget) as (m & t & Hin).
        exists m, t. apply elem_of_armed. by left.
    + intros i h [[<- _] | [_ Hget]]%get_set_inv.
      * exists (S (Gateway.requestId st)). split; [simpl; lia | done].
      * destruct (gw_ids _ Hwf _ _ Hget) as (n & ? & ->).
        exists n. split; [simpl; lia | done].
    + intros h d [Hin | [=]]%elem_of_armed. by eapply gw_reconnect.
    + intros h Hr. destruct (gw_reconnect_armed _ Hwf _ Hr) as (d & Hin).
      exists d. apply elem_of_armed. by left.
    + intros h Hk. destruct (gw_tick_armed _ Hwf _ Hk) as (ms & Hin).
      exists ms. apply elem_of_armed. by left.
  - split_and!; [done | simpl in Hle; lia |].
    intros i Hi. rewrite <- Hcount.
    + unfold pendingCount. simpl. rewrite get_set_ne; [done|].
      destruct Hi as (n & Hn & ->). intros Heq%requestIdName_inj. lia.
    + eapply issued_mono; [|done]. simpl. lia.
Qed.

(** A pending request leaves the pending set and its timer is disarmed:
    on its response and on its timeout. *)
Lemma gateway_wf_settle st st' id h :
  gateway_wf st ->
  JsMap.get id (Gateway.pendingRequests st) = Some h ->
  Gateway.timers st' = Gateway.disarm h (Gateway.timers st) ->
  Gateway.nextTimer st' = Gateway.nextTimer st ->
  Gateway.pendingRequests st' = JsMap.delete id (Gateway.pendingRequests st) ->
  Gateway.requestId st' = Gateway.requestId st ->
  Gateway.reconnectTimer st' = Gateway.reconnectTimer st ->
  Gateway.tickTimer st' = Gateway.tickTimer st ->
  gateway_wf st'.
Proof.
  intros Hwf Hget Ht Hn Hp Hi Hr Hk.
  destruct (gw_armed _ Hwf _ _ Hget) as (m0 & t0 & Hin0).
  split; rewrite ?Ht, ?Hn, ?Hp, ?Hi, ?Hr, ?Hk.
  - apply NoDup_disarm, Hwf.
  - intros h' k' [_ Hin]%elem_of_disarm. by eapply gw_below.
  - apply NoDup_keys_delete, Hwf.
  - intros h' i m t [Hne Hin]%elem_of_disarm.
    apply (gw_pending _ Hwf) in Hin. simpl in Hne.
    rewrite get_delete_ne; [done | congruence].
  - intros i h' Hget'. destruct (decide (id = i)) as [->|Hne].
    { by rewrite get_delete_eq in Hget' by apply Hwf. }
    rewrite get_delete_ne in Hget' by done.
    destruct (gw_armed _ Hwf _ _ Hget') as (m & t & Hin).
    exists m, t. eapply disarm_other_kind; [apply Hwf | exact Hin0 | done | congruence].
  - intros i h' Hget'. destruct (decide (id = i)) as [->|Hne].
    { by rewrite get_delete_eq in Hget' by apply Hwf. }
    rewrite get_delete_ne in Hget' by done. by eapply gw_ids.
  - intros h' d [_ Hin]%elem_of_disarm. by eapply gw_reconnect.
  - intros h' Hr'. destruct (gw_reconnect_armed _ Hwf _ Hr') as (d & Hin).
    exists d. by eapply disarm_other_kind; [apply Hwf | exact Hin0 | |].
  - intros h' Hk'. destruct (gw_tick_armed _ Hwf _ Hk') as (ms & Hin).
    exists ms. by eapply disarm_other_kind; [apply Hwf | exact Hin0 | |].
Qed.

Lemma sound_handleFrame frame : sound (Gateway.handleFrame frame).
Proof.
  destruct frame as [ev p|id ok payload err|]; simpl.
  - case_decide; [apply sound_sendConnectRequest|].
    apply sound_same. intros st. by split_and!.
  - intros st Hwf.
    destruct (JsMap.get id (Gateway.pendingRequests st)) as [timer|] eqn:Hget;
      [|by apply sound_skip].
    set (st1 := Gateway.mk _ _ _ _ _ _ (JsMap.delete id _) _ _ _).
    assert (gateway_wf st1) as Hwf1 by by eapply (gateway_wf_settle st st1 id timer).
    assert (forall i, pendingCount i st
                      = (if decide (i = id) then 1 else 0) + pendingCount i st1) as Hdel.
    { intros i. unfold pendingCount. simpl. case_decide as Hi.
      - subst i. rewrite Hget, get_delete_eq by apply Hwf. done.
      - rewrite get_delete_ne by done. done. }
    destruct ok.
    + assert (sound (fun st =>
                match payload with
                | Some hello =>
                    if decide (Gateway.ResPayload.type hello = Some (js "hello-ok"))
                    then Gateway.onConnected hello st else (st, [])
                | None => (st, [])
                end)) as Hhello.
      { destruct payload as [hello|]; [|apply sound_skip].
        case_decide; [apply sound_onConnected | apply sound_skip]. }
      rewrite seq_act_fst, seq_act_snd. simpl.
      destruct (Hhello st1 Hwf1) as (Hwf2 & Hle & Hcount).
      split_and!; [done | done |].
      intros i Hi. rewrite settlements_app, Hdel, (Hcount i Hi).
      unfold Gateway.effect. simpl. rewrite settlements_resolve. lia.
    + simpl. split_and!; [done | done |].
      intros i Hi. by rewrite Hdel, settlements_reject.
  - apply sound_skip.
Qed.

Lemma timer_kind_elem h st k :
  Gateway.timer_kind h st = Some k -> (h, k) ∈ Gateway.timers st.
Proof.
  unfold Gateway.timer_kind.
  destruct (list_find _ _) as [[i [h' k']]|] eqn:Hfind; [|done].
  simpl. intros [= ->]. apply list_find_Some in Hfind as (Hi & Hh & _).
  simpl in Hh. subst h'. by eapply list_elem_of_lookup_2.
Qed.

Lemma gateway_wf_set_socket i r st : gateway_wf st -> gateway_wf (Gateway.set_socket i r st).
Proof. intros Hwf. by eapply gateway_wf_same. Qed.

Lemma sound_onClose : sound Gateway.onClose.
Proof.
  unfold Gateway.onClose. repeat apply sound_seq;
    [apply sound_cleanup | apply sound_setState | apply sound_scheduleReconnect].
Qed.

Lemma sound_reconnect_fires h d throws st :
  gateway_wf st ->
  Gateway.timer_kind h st = Some (Gateway.ReconnectTimer d) ->
  let r := Gateway.reconnectFires throws
             (Gateway.set_timers (Gateway.disarm h (Gateway.timers st)) st) in
  gateway_wf r.1 /\
  Gateway.requestId st <= Gateway.requestId r.1 /\
  forall id, issued st id -> pendingCount id st = settlements id r.2 + pendingCount id r.1.
Proof.
  intros Hwf Hk%timer_kind_elem r. subst r.
  unfold Gateway.reconnectFires. rewrite seq_act_fst, seq_act_snd. simpl.
  match goal with |- context [Gateway.connect throws ?s] => set (st1 := s) end.
  assert (gateway_wf st1) as Hwf1.
  { eapply (gateway_wf_disarm st st1 h); simpl; try done.
    - intros h' d' [Hne Hin]%elem_of_disarm. simpl in Hne.
      apply (gw_reconnect _ Hwf) in Hin. apply (gw_reconnect _ Hwf) in Hk.
      congruence.
    - intros h' Hk'. split; [done|]. intros ->.
      destruct (gw_tick_armed _ Hwf _ Hk') as (ms & Hin).
      by pose proof (handle_unique _ _ _ _ (gw_handles _ Hwf) Hk Hin). }
  destruct (sound_connect throws st1 Hwf1) as (Hwf2 & Hle & Hcount).
  split_and!; [done | done |].
  intros id Hid. by rewrite <- Hcount.
Qed.

Lemma sound_request_timeout h id method t st :
  gateway_wf st ->
  Gateway.timer_kind h st = Some (Gateway.RequestTimer id method t) ->
  let r := Gateway.requestTimeout id method
             (Gateway.set_timers (Gateway.disarm h (Gateway.timers st)) st) in
  gateway_wf r.1 /\
  Gateway.requestId st <= Gateway.requestId r.1 /\
  forall i, issued st i -> pendingCount i st = settlements i r.2 + pendingCount i r.1.
Proof.
  intros Hwf Hk%timer_kind_elem r. subst r. simpl.
  pose proof (gw_pending _ Hwf _ _ _ _ Hk) as Hget.
  split_and!; [|done|].
  - by eapply (gateway_wf_settle st _ id h).
  - intros i _. rewrite settlements_reject. unfold pendingCount. simpl.
    destruct (decide (i = id)) as [->|Hne].
    + by rewrite Hget, get_delete_eq by apply Hwf.
    + by rewrite get_delete_ne.
Qed.

Lemma step_sound st e st' out :
  gateway_wf st ->
  Gateway.step st e = Some (st', out) ->
  gateway_wf st' /\
  Gateway.requestId st <= Gateway.requestId st' /\
  forall id, issued st id -> pendingCount id st = settlements id out + pendingCount id st'.
Proof.
  intros Hwf Hstep.
  assert (forall f st0,
            gateway_wf st0 -> sound f ->
            Gateway.requestId st0 = Gateway.requestId st ->
            Gateway.pendingRequests st0 = Gateway.pendingRequests st ->
            Some (f st0) = Some (st', out) ->
            gateway_wf st' /\
            Gateway.requestId st <= Gateway.requestId st' /\
            forall id, issued st id ->
              pendingCount id st = settlements id out + pendingCount id st') as Huse.
  { intros f st0 H0 Hf Hr Hp [= Heq]. destruct (Hf st0 H0) as (H1 & H2 & H3).
    rewrite Heq in *. simpl in *. split_and!; [done | lia |].
    intros id Hid. rewrite <- H3.
    - unfold pendingCount. by rewrite Hp.
    - destruct Hid as (n & ? & ->). exists n. split; [lia | done]. }
  destruct e as [throws| |method params timeoutMs|i|i parsed|i|i|h throws];
    simpl in Hstep.
  - eapply Huse; [done | apply sound_connect | done..].
  - eapply Huse; [done | apply sound_disconnect | done..].
  - eapply Huse; [done | apply sound_request | done..].
  - destruct (Gateway.sockets st !! i) as [[]|]; try done.
    eapply Huse; [| apply sound_setState | | | exact Hstep]; try done.
    by apply gateway_wf_set_socket.
  - destruct (Gateway.sockets st !! i) as [[]|]; try done;
      (eapply Huse; [done | | done | done | exact Hstep]);
      (destruct parsed; [apply sound_handleFrame | apply sound_skip]).
  - destruct (Gateway.sockets st !! i) as [[]|]; try done;
      (eapply Huse; [| apply sound_onClose | | | exact Hstep]); try done;
      by apply gateway_wf_set_socket.
  - destruct (Gateway.sockets st !! i); [|done].
    eapply Huse; [done | apply sound_skip | done | done | exact Hstep].
  - destruct (Gateway.timer_kind h st) as [[d|id method t|t]|] eqn:Hk; [| | |done].
    + pose proof (sound_reconnect_fires h d throws st Hwf Hk) as Hfire.
      cbv zeta in Hfire.
      assert (Gateway.reconnectFires throws
                (Gateway.set_timers (Gateway.disarm h (Gateway.timers st)) st)
              = (st', out)) as Heq by congruence.
      rewrite Heq in Hfire. exact Hfire.
    + pose proof (sound_request_timeout h id method t st Hwf Hk) as Hfire.
      cbv zeta in Hfire.
      assert (Gateway.requestTimeout id method
                (Gateway.set_timers (Gateway.disarm h (Gateway.timers st)) st)
              = (st', out)) as Heq by congruence.
      rewrite Heq in Hfire. exact Hfire.
    + eapply Huse; [done | apply sound_sendRaw | done | done | exact Hstep].
Qed.

Lemma run_sound es : forall st st' out,
  gateway_wf st ->
  Gateway.run st es = Some (st', out) ->
  gateway_wf st' /\
  Gateway.requestId st <= Gateway.requestId st' /\
  forall id, issued st id -> pendingCount id st = settlements id out + pendingCount id st'.
Proof.
  induction es as [|e es IH]; intros st st' out Hwf; simpl.
  - intros [= <- <-]. by split_and!.
  - destruct (Gateway.step st e) as [[st1 out1]|] eqn:Hstep; [|done].
    destruct (Gateway.run st1 es) as [[st2 out2]|] eqn:Hrun; [|done].
    intros [= <- <-].
    destruct (step_sound _ _ _ _ Hwf Hstep) as (Hwf1 & Hle1 & Hc1).
    destruct (IH _ _ _ Hwf1 Hrun) as (Hwf2 & Hle2 & Hc2).
    split_and!; [done | lia |].
    intros id Hid. rewrite settlements_app, (Hc1 id Hid).
    rewrite (Hc2 id) by by eapply issued_mono. lia.
Qed.

Lemma gateway_wf_init : gateway_wf Gateway.init.
Proof.
  split; simpl; try done; try apply NoDup_nil_2;
    by intros * ?%elem_of_nil.
Qed.

Lemma at_most_one_handle (h : nat) (l : list (nat * Gateway.TimerKind)) :
  NoDup l.*1 -> (forall x, x ∈ l -> x.1 = h) -> length l <= 1.
Proof.
  destruct l as [|x [|y l]]; simpl; [lia | lia |].
  intros [Hnot _]%NoDup_cons Hall. exfalso. apply Hnot.
  rewrite (Hall x), <- (Hall y).
  - apply list_elem_of_here.
  - apply list_elem_of_further, list_elem_of_here.
  - apply list_elem_of_here.
Qed.

Lemma NoDup_fst_filter (P : nat * Gateway.TimerKind -> Prop) `{!forall x, Decision (P x)}
    (ts : list (nat * Gateway.TimerKind)) :
  NoDup ts.*1 -> NoDup (filter P ts).*1.
Proof.
  induction ts as [|[h' k] ts IH]; simpl; [done|].
  intros [Hnot Hnd]%NoDup_cons. rewrite filter_cons. case_decide; simpl; [|auto].
  apply NoDup_cons. split; [|auto].
  intros ([h2 k2] & Heq & [_ Hin]%list_elem_of_filter)%list_elem_of_fmap.
  simpl in Heq. subst h2. apply Hnot. apply list_elem_of_fmap. by exists (h', k2).
Qed.

(** At most one reconnect timer is armed. *)
Lemma reconnect_timers_at_most_one st :
  gateway_wf st -> length (reconnectTimers st) <= 1.
Proof.
  intros Hwf. unfold reconnectTimers.
  destruct (Gateway.reconnectTimer st) as [h|] eqn:Hr.
  - apply (at_most_one_handle h); [apply NoDup_fst_filter, Hwf|].
    intros [h' k] [Hk Hin]%list_elem_of_filter. simpl.
    destruct k; try done. apply (gw_reconnect _ Hwf) in Hin. congruence.
  - destruct (filter _ _) as [|[h' k] l] eqn:Hf; simpl; [lia|].
    assert ((h', k) ∈ filter (fun t => is_reconnect_timer t = true) (Gateway.timers st))
      as [Hk Hin]%list_elem_of_filter by (rewrite Hf; apply list_elem_of_here).
    destruct k; try done. apply (gw_reconnect _ Hwf) in Hin. congruence.
Qed.

(** C3. The delay starts at 1000 ms; after [n] failed attempts in a row it
    is [min (1000 * 2^n) 30000]; a call of [scheduleReconnect] while a timer
    is armed changes nothing, and in every state the client reaches at most
    one reconnect timer is armed; [onConnected] sets the delay back to
    1000 ms. But [onConnected] is never reached: the [connect] request is
    sent without an entry in the pending set, so in every state the client
    reaches the state is not [connected], no request is pending, and a
    response frame, the [hello-ok] one included, changes nothing. After
    one failed attempt and a complete handshake the client is still
    [handshaking] and the delay is still 2000 ms. *)
Theorem C3_backoff_and_dropped_handshake :
  Gateway.reconnectDelay Gateway.init = 1000%Z /\
  (forall n, exists out,
      Gateway.run Gateway.init (failedAttempts n) = Some (afterFailures n, out) /\
      Gateway.reconnectDelay (afterFailures n) = Z.min (1000 * 2 ^ Z.of_nat n) 30000) /\
  (forall st, is_Some (Gateway.reconnectTimer st) ->
      Gateway.scheduleReconnect st = (st, [])) /\
  (forall es st out,
      Gateway.run Gateway.init es = Some (st, out) -> length (reconnectTimers st) <= 1) /\
  (forall hello st,
      Gateway.reconnectDelay (Gateway.onConnected hello st).1 = 1000%Z) /\
  (forall es st out id ok payload errorMessage,
      Gateway.run Gateway.init es = Some (st, out) ->
      Gateway.state st ≠ connected /\
      Gateway.pendingRequests st = [] /\
      Gateway.handleFrame (Gateway.ResFrame id ok payload errorMessage) st = (st, [])) /\
  (exists st out,
      Gateway.run Gateway.init handshakeAfterFailure = Some (st, out) /\
      Gateway.state st = handshaking /\
      Gateway.reconnectDelay st = 2000%Z /\
      Gateway.Send 1 (Gateway.ConnectReq (js "pa-1")) ∈ out).
Proof.
  split_and!.
  - done.
  - intros n. destruct (failedAttempts_run n) as [out Hrun]. by exists out.
  - apply scheduleReconnect_armed.
  - intros es st out Hrun. apply reconnect_timers_at_most_one.
    by destruct (run_sound es _ _ _ gateway_wf_init Hrun).
  - intros hello st. apply onConnected_resets.
  - intros es st out id ok payload err Hrun.
    destruct (never_connected_run es _ _ _ never_connected_init Hrun) as [Hs Hp].
    split_and!; [done | done |]. simpl. by rewrite Hp.
  - eexists _, _. split; [by vm_compute|].
    split_and!; [done | done |]. vm_compute. apply list_elem_of_In. simpl. tauto.
Qed.

(** ** The gateway client: [disconnect] *)

Lemma disconnect_timers_subset st x :
  x ∈ Gateway.timers (Gateway.disconnect st).1 ->
  x ∈ Gateway.timers st /\ Gateway.reconnectTimer st ≠ Some x.1.
Proof.
  unfold Gateway.disconnect. rewrite !seq_act_fst.
  destruct (Gateway.reconnectTimer st) as [h|] eqn:Hr; simpl.
  - intros [_ Hin]%elem_of_disarm_all.
    assert (x ∈ Gateway.disarm h (Gateway.timers st)) as [Hne Hin']%elem_of_disarm.
    { destruct (Gateway.tickTimer st); simpl in Hin; [|done].
      by apply elem_of_disarm in Hin as [_ ?]. }
    split; [done | congruence].
  - intros [_ Hin]%elem_of_disarm_all. split; [|done].
    destruct (Gateway.tickTimer st); simpl in Hin; [|done].
    by apply elem_of_disarm in Hin as [_ ?].
Qed.

(** C7. [disconnect] clears the reconnect timer, so that none is armed
    afterwards, sets the state to [disconnected], rejects every pending
    request with [Connection closed] in the order of the pending set and
    empties it, and drops its reference to the socket. But it never calls
    [close] on the socket: [cleanup] has set [this.ws] to null before the
    test that guards [this.ws.close()]. The socket stays as it was; after
    [disconnect] on an open connection its frames are still dispatched and
    its later close arms a reconnect. *)
Theorem C7_disconnect_never_closes_socket (st : Gateway.t) :
  let r := Gateway.disconnect st in
  Gateway.reconnectTimer r.1 = None /\
  (gateway_wf st -> reconnectTimers r.1 = []) /\
  Gateway.state r.1 = disconnected /\
  Gateway.pendingRequests r.1 = [] /\
  r.2 = ((fun p => Gateway.Reject p.1 (js "Connection closed"))
           <$> Gateway.pendingRequests st)
        ++ [Gateway.EmitConnectionState disconnected None] /\
  Gateway.ws r.1 = None /\
  Gateway.sockets r.1 = Gateway.sockets st /\
  (forall i, Gateway.SocketClose i ∉ r.2) /\
  (exists s out,
      Gateway.run Gateway.init afterDisconnect = Some (s, out) /\
      Gateway.sockets s = [OPEN] /\
      (forall i, Gateway.SocketClose i ∉ out) /\
      Gateway.step s (Gateway.SockMessage 0 (Some lateStart))
      = Some (s, [Gateway.EmitGatewayEvent (js "agent.stream")
                    (Translator.ev_payload
                       (lifecycleEvent "start" "support-triage" None))]) /\
      exists s' out',
        Gateway.step s (Gateway.SockClose 0) = Some (s', out') /\
        Gateway.reconnectTimer s' = Some 0 /\
        Gateway.timers s' = [(0, Gateway.ReconnectTimer 1000)]).
Proof.
  intros r.
  assert (r.2 = ((fun p => Gateway.Reject p.1 (js "Connection closed"))
                   <$> Gateway.pendingRequests st)
                ++ [Gateway.EmitConnectionState disconnected None]) as Hout.
  { subst r. unfold Gateway.disconnect. rewrite !seq_act_snd, ?seq_act_fst.
    destruct (Gateway.reconnectTimer st) eqn:Hr; simpl; rewrite ?Hr; reflexivity. }
  split_and!.
  - subst r. unfold Gateway.disconnect. rewrite !seq_act_fst.
    destruct (Gateway.reconnectTimer st) eqn:Hr; simpl; rewrite ?Hr; reflexivity.
  - intros Hwf. unfold reconnectTimers.
    destruct (filter _ _) as [|[h k] l] eqn:Hf; [done|]. exfalso.
    assert ((h, k) ∈ filter (fun t => is_reconnect_timer t = true)
                       (Gateway.timers r.1))
      as [Hk Hin]%list_elem_of_filter by (rewrite Hf; apply list_elem_of_here).
    apply disconnect_timers_subset in Hin as [Hin Hne].
    destruct k; try done. by apply (gw_reconnect _ Hwf) in Hin.
  - subst r. unfold Gateway.disconnect. rewrite !seq_act_fst.
    destruct (Gateway.reconnectTimer st) eqn:Hr; simpl; rewrite ?Hr; reflexivity.
  - subst r. unfold Gateway.disconnect. rewrite !seq_act_fst.
    destruct (Gateway.reconnectTimer st) eqn:Hr; simpl; rewrite ?Hr; reflexivity.
  - done.
  - subst r. unfold Gateway.disconnect. rewrite !seq_act_fst.
    destruct (Gateway.reconnectTimer st) eqn:Hr; simpl; rewrite ?Hr; reflexivity.
  - subst r. unfold Gateway.disconnect. rewrite !seq_act_fst.
    destruct (Gateway.reconnectTimer st) eqn:Hr; simpl; rewrite ?Hr; reflexivity.
  - intros i. rewrite Hout.
    intros [([id h] & [=] & _)%list_elem_of_fmap | [=]%list_elem_of_singleton]%elem_of_app.
  - eexists _, _. split; [by vm_compute|]. split_and!.
    + done.
    + intros i Hin%list_elem_of_In. simpl in Hin.
      repeat (destruct Hin as [Hin|Hin]; [discriminate Hin|]). done.
    + by vm_compute.
    + eexists _, _. split; [by vm_compute|]. by split.
Qed.

(** ** The gateway client: requests *)

Lemma timer_kind_armed h k st :
  NoDup (Gateway.timers st).*1 ->
  (h, k) ∈ Gateway.timers st ->
  Gateway.timer_kind h st = Some k.
Proof.
  intros Hnd Hin. unfold Gateway.timer_kind.
  destruct (list_find (fun t : nat * Gateway.TimerKind => t.1 = h) (Gateway.timers st))
    as [[i [h' k']]|] eqn:Hfind.
  - apply list_find_Some in Hfind as (Hi & Hh & _). simpl in *. subst h'.
    apply list_elem_of_lookup in Hin as [j Hj].
    assert (i = j) as ->.
    { eapply NoDup_lookup; [exact Hnd | |];
        rewrite list_lookup_fmap; [by rewrite Hi | by rewrite Hj]. }
    congruence.
  - exfalso. apply list_find_None in Hfind.
    rewrite Forall_forall in Hfind. by apply (Hfind _ Hin).
Qed.

Lemma handleFrame_ok id payload errorMessage st h :
  NoDup (JsMap.keys (Gateway.pendingRequests st)) ->
  JsMap.get id (Gateway.pendingRequests st) = Some h ->
  let r := Gateway.handleFrame (Gateway.ResFrame id true payload errorMessage) st in
  JsMap.get id (Gateway.pendingRequests r.1) = None /\
  Gateway.Resolve id payload ∈ r.2 /\
  settlements id r.2 = 1 /\
  forall message, Gateway.Reject id message ∉ r.2.
Proof.
  intros Hnd Hget r. subst r. simpl. rewrite Hget.
  rewrite seq_act_fst, seq_act_snd.
  assert (forall message out,
            (forall m', Gateway.Reject id m' ∉ out) ->
            Gateway.Reject id message ∉ out ++ [Gateway.Resolve id payload]) as Hrej.
  { intros message out Hout [Hin | [=]%list_elem_of_singleton]%elem_of_app.
    by apply (Hout message). }
  destruct payload as [p|]; [case_decide|]; simpl.
  - split_and!.
    + by apply get_delete_eq.
    + apply list_elem_of_In. simpl. tauto.
    + unfold settlements. simpl. rewrite !filter_cons, filter_nil. simpl.
      rewrite bool_decide_eq_true_2 by done. by rewrite decide_True.
    + intros message Hin%list_elem_of_In. simpl in Hin.
      repeat (destruct Hin as [Hin|Hin]; [discriminate Hin|]). done.
  - split_and!.
    + by apply get_delete_eq.
    + apply list_elem_of_here.
    + by rewrite settlements_resolve, decide_True.
    + intros message [=]%list_elem_of_singleton.
  - split_and!.
    + by apply get_delete_eq.
    + apply list_elem_of_here.
    + by rewrite settlements_resolve, decide_True.
    + intros message [=]%list_elem_of_singleton.
Qed.

(** C4. A request made while connected is registered under a fresh id with
    its timer armed. From then on, whatever happens to the client, the
    request is either still pending and not settled, or out of the pending
    set and settled exactly once. While it is pending, a response frame
    with its id and [ok] resolves it with the payload, one without [ok]
    rejects it with the error message, its timer is armed and the firing
    of it rejects the request as timed out, and each removes it from the
    pending set. A response frame whose id is not pending leaves the client
    as it was and settles nothing. *)
Theorem C4_request_settles_once (st : Gateway.t) (method : jsstring) (params : json)
    (timeoutMs : Z) :
  gateway_wf st ->
  Gateway.state st = connected ->
  let id := Gateway.requestIdName (S (Gateway.requestId st)) in
  let st1 := (Gateway.request method params timeoutMs st).1 in
  JsMap.get id (Gateway.pendingRequests st) = None /\
  JsMap.get id (Gateway.pendingRequests st1) = Some (Gateway.nextTimer st) /\
  Gateway.timer_kind (Gateway.nextTimer st) st1
    = Some (Gateway.RequestTimer id method timeoutMs) /\
  (forall es st' out,
      Gateway.run st1 es = Some (st', out) ->
      settlements id out + pendingCount id st' = 1) /\
  (forall es st' out,
      Gateway.run st1 es = Some (st', out) ->
      pendingCount id st' = 1 ->
      (forall payload errorMessage,
          let r := Gateway.handleFrame (Gateway.ResFrame id true payload errorMessage) st' in
          JsMap.get id (Gateway.pendingRequests r.1) = None /\
          Gateway.Resolve id payload ∈ r.2 /\
          settlements id r.2 = 1 /\
          forall message, Gateway.Reject id message ∉ r.2) /\
      (forall payload errorMessage,
          let r := Gateway.handleFrame (Gateway.ResFrame id false payload errorMessage) st' in
          JsMap.get id (Gateway.pendingRequests r.1) = None /\
          r.2 = [Gateway.Reject id (default (js "Request failed") errorMessage)]) /\
      (exists h m t,
          JsMap.get id (Gateway.pendingRequests st') = Some h /\
          Gateway.timer_kind h st' = Some (Gateway.RequestTimer id m t) /\
          forall throws, exists st'',
            Gateway.step st' (Gateway.TimerFires h throws)
            = Some (st'', [Gateway.Reject id (js "Request " ++ m ++ js " timed out")]) /\
            JsMap.get id (Gateway.pendingRequests st'') = None)) /\
  (forall s i ok payload errorMessage,
      JsMap.get i (Gateway.pendingRequests s) = None ->
      Gateway.handleFrame (Gateway.ResFrame i ok payload errorMessage) s = (s, [])).
Proof.
  intros Hwf Hconn id st1.
  destruct (sound_request method params timeoutMs st Hwf) as (Hwf1 & Hle & _).
  fold st1 in Hwf1, Hle.
  assert (JsMap.get id (Gateway.pendingRequests st) = None) as Hfresh.
  { destruct (JsMap.get id _) as [h|] eqn:Hget; [|done].
    destruct (gw_ids _ Hwf _ _ Hget) as (n & Hn & Heq).
    apply requestIdName_inj in Heq. lia. }
  assert (st1 = (Gateway.sendRaw (Gateway.Req id method params)
                   (Gateway.mk (Gateway.ws st) (Gateway.state st)
                      (Gateway.reconnectTimer st) (Gateway.reconnectDelay st)
                      (Gateway.tickTimer st) (S (Gateway.requestId st))
                      (JsMap.set id (Gateway.nextTimer st) (Gateway.pendingRequests st))
                      (Gateway.sockets st)
                      (Gateway.timers st
                         ++ [(Gateway.nextTimer st,
                              Gateway.RequestTimer id method timeoutMs)])
                      (S (Gateway.nextTimer st)))).1) as Hst1.
  { subst st1. unfold Gateway.request. by rewrite decide_True. }
  assert (Gateway.pendingRequests st1
          = JsMap.set id (Gateway.nextTimer st) (Gateway.pendingRequests st) /\
          Gateway.timers st1
          = Gateway.timers st
              ++ [(Gateway.nextTimer st, Gateway.RequestTimer id method timeoutMs)] /\
          Gateway.requestId st1 = S (Gateway.requestId st)) as (Hp1 & Ht1 & Hr1).
  { rewrite Hst1. unfold Gateway.sendRaw. simpl.
    destruct (Gateway.ws st); [case_decide|]; done. }
  assert (issued st1 id) as Hissued.
  { exists (S (Gateway.requestId st)). split; [lia | done]. }
  assert (pendingCount id st1 = 1) as Hcount1.
  { unfold pendingCount. by rewrite Hp1, get_set_eq. }
  split_and!.
  - done.
  - by rewrite Hp1, get_set_eq.
  - apply timer_kind_armed; [apply Hwf1|]. rewrite Ht1.
    apply elem_of_app. right. apply list_elem_of_here.
  - intros es st' out Hrun.
    destruct (run_sound es _ _ _ Hwf1 Hrun) as (_ & _ & Hc).
    rewrite <- (Hc id Hissued). done.
  - intros es st' out Hrun Hpending.
    destruct (run_sound es _ _ _ Hwf1 Hrun) as (Hwf' & Hle' & _).
    assert (exists h, JsMap.get id (Gateway.pendingRequests st') = Some h) as [h Hget].
    { unfold pendingCount in Hpending.
      destruct (JsMap.get id (Gateway.pendingRequests st')); [by eexists | done]. }
    split_and!.
    + intros payload err.
      exact (handleFrame_ok id payload err st' h (gw_nodup _ Hwf') Hget).
    + intros payload err r. subst r. simpl. rewrite Hget. simpl.
      split; [|done]. apply get_delete_eq, Hwf'.
    + destruct (gw_armed _ Hwf' _ _ Hget) as (m & t & Hin).
      pose proof (timer_kind_armed _ _ _ (gw_handles _ Hwf') Hin) as Hk.
      exists h, m, t. split_and!; [done | done |].
      intros throws. simpl. rewrite Hk. simpl.
      eexists. split; [done|]. simpl. apply get_delete_eq, Hwf'.
  - intros s i ok payload err Hnone. simpl. by rewrite Hnone.
Qed.

Lemma gateway_wf_connectedClient : gateway_wf connectedClient.
Proof.
  split; simpl; try done.
  - apply NoDup_singleton.
  - intros h k [= -> _]%list_elem_of_singleton. lia.
  - apply NoDup_nil_2.
  - intros h id method t [=]%list_elem_of_singleton.
  - intros h d [=]%list_elem_of_singleton.
  - intros h [= <-]. eexists. apply list_elem_of_here.
Qed.

Lemma C4_request_settles_once_witness :
  gateway_wf connectedClient /\
  Gateway.state connectedClient = connected /\
  exists st' out,
    Gateway.run approvalRequested timedOutThenAnswered = Some (st', out) /\
    out = [Gateway.Reject (js "pa-2") (js "Request exec.approval.resolve timed out")] /\
    settlements (js "pa-2") out + pendingCount (js "pa-2") st' = 1.
Proof.
  split; [apply gateway_wf_connectedClient|]. split; [reflexivity|].
  destruct (Gateway.run approvalRequested timedOutThenAnswered) as [[st' out]|] eqn:Hrun;
    [|by vm_compute in Hrun].
  exists st', out. split; [reflexivity|]. split.
  - vm_compute in Hrun. by injection Hrun as _ <-.
  - exact (proj1 (proj2 (proj2 (proj2
             (C4_request_settles_once connectedClient (js "exec.approval.resolve")
                approvalParams 10000 gateway_wf_connectedClient eq_refl))))
             timedOutThenAnswered st' out Hrun).
Defined.

(** ** The snapshot sent to an observer *)

Lemma sendIf_open {A} (loaded : option A) (msg : A -> DashboardMessage) :
  Dashboard.sendIf OPEN loaded msg = option_list (msg <$> loaded).
Proof. by destruct loaded. Qed.

Lemma replayAgent_open agent : Dashboard.replayAgent OPEN agent = snapshotReplay agent.
Proof.
  unfold Dashboard.replayAgent, snapshotReplay.
  destruct (TrackedAgent.status agent); try done.
  simpl. f_equal.
  induction (TrackedAgent.toolHistory agent) as [|tool hist IH]; [done|].
  csimpl. destruct (TrackedTool.done tool) eqn:Hd.
  - rewrite filter_cons_False by by rewrite Hd. done.
  - rewrite filter_cons_True by done. csimpl. by f_equal.
Qed.

Lemma snapshotReplay_no_toolDone agent :
  Forall (fun m => ~ is_toolDone m) (snapshotReplay agent).
Proof.
  unfold snapshotReplay. destruct (TrackedAgent.status agent);
    repeat constructor; try (by intros []).
  apply Forall_fmap, Forall_forall. by intros tool _ [].
Qed.

Lemma filter_all {A} (P : A -> Prop) `{!forall x, Decision (P x)} (l : list A) :
  Forall P l -> filter P l = l.
Proof.
  induction 1 as [|x l Hx Hl IH]; [done|].
  rewrite filter_cons_True by done. by f_equal.
Qed.

Lemma snapshotAssets_kinds env :
  Forall (fun m => settings_or_layout m = false) (snapshotAssets env).
Proof.
  unfold snapshotAssets. rewrite !Forall_app.
  split_and!;
    match goal with |- Forall _ (option_list (_ <$> ?o)) =>
      destruct o; by repeat constructor end.
Qed.

Lemma snapshotReplay_kinds agents :
  Forall (fun m => settings_or_layout m = false) (agents ≫= snapshotReplay).
Proof.
  apply Forall_bind, Forall_forall. intros a _. unfold compose, snapshotReplay.
  destruct (TrackedAgent.status a); repeat constructor.
  apply Forall_fmap, Forall_forall. by intros tool _.
Qed.

(** C6. Whatever the translator's state, the snapshot sent on an open
    observer socket is, in this order: the asset messages, one for each
    catalog that could be loaded; [settingsLoaded]; the [existingAgents]
    roster with the id of every tracked agent, in the order the agents were
    created; [layoutLoaded]; for each agent in that order, nothing unless
    it is busy or in error, [agentStatus] with ['active'] followed by one
    [agentToolStart] for each tool of its history that is not done when it
    is busy, [agentStatus] with ['error'] when it is in error; and last one
    [connectionStatus] with the gateway's state. Leaving the settings and
    the layout message aside, the snapshot is exactly assets, roster,
    replay, connection status. No [agentToolDone] is part of it. In every
    state the translator reaches the roster is the ids of the
    session-key-to-id mapping, 1, 2, 3, ... *)
Theorem C6_snapshot_order (env : Dashboard.Loaded) (translator : Translator.t)
    (gateway : Gateway.t) :
  let agents := Translator.getTrackedAgents translator in
  let snapshot := Dashboard.sendInitialState OPEN env translator gateway in
  snapshot
  = snapshotAssets env ++
    [settingsLoaded true] ++
    [existingAgents (TrackedAgent.id <$> agents)] ++
    [layoutLoaded (default JNull (Dashboard.storedLayout env ?? Dashboard.defaultLayout env))] ++
    (agents ≫= snapshotReplay) ++
    [connectionStatus (Gateway.state gateway) None] /\
  filter (fun m => settings_or_layout m = false) snapshot
  = snapshotAssets env ++
    [existingAgents (TrackedAgent.id <$> agents)] ++
    (agents ≫= snapshotReplay) ++
    [connectionStatus (Gateway.state gateway) None] /\
  Forall (fun m => ~ is_toolDone m) snapshot /\
  (forall es,
      translator = (Translator.run Translator.init es).1 ->
      TrackedAgent.id <$> agents = JsMap.values (Translator.sessionToId translator) /\
      TrackedAgent.id <$> agents = seq 1 (length agents)) /\
  (let st := (Translator.run Translator.init oneOpenTool).1 in
   Dashboard.sendInitialState OPEN nothingLoaded st gateway
   = [settingsLoaded true; existingAgents [1]; layoutLoaded JNull;
      agentStatus 1 active;
      agentToolStart 1 (js "t1") (js "Running: npm run test");
      connectionStatus (Gateway.state gateway) None]).
Proof.
  intros agents snapshot.
  assert (snapshot
          = snapshotAssets env ++
            [settingsLoaded true] ++
            [existingAgents (TrackedAgent.id <$> agents)] ++
            [layoutLoaded (default JNull
                             (Dashboard.storedLayout env ?? Dashboard.defaultLayout env))] ++
            (agents ≫= snapshotReplay) ++
            [connectionStatus (Gateway.state gateway) None]) as Heq.
  { assert (agents ≫= Dashboard.replayAgent OPEN = agents ≫= snapshotReplay) as Hreplay.
    { induction agents as [|a l IH]; [done|]. csimpl.
      by rewrite replayAgent_open, IH. }
    subst snapshot. unfold Dashboard.sendInitialState, Dashboard.sendAssets.
    rewrite !sendIf_open. fold agents. rewrite Hreplay. unfold snapshotAssets.
    by rewrite <- !app_assoc. }
  split_and!.
  - done.
  - rewrite Heq, !filter_app.
    rewrite (filter_all _ _ (snapshotAssets_kinds env)).
    rewrite (filter_all _ _ (snapshotReplay_kinds agents)).
    done.
  - rewrite Heq. rewrite !Forall_app. split_and!.
    + unfold snapshotAssets. rewrite !Forall_app.
      split_and!;
        match goal with |- Forall _ (option_list (_ <$> ?o)) =>
          destruct o; repeat constructor; by intros [] end.
    + repeat constructor. by intros [].
    + repeat constructor. by intros [].
    + repeat constructor. by intros [].
    + apply Forall_bind, Forall_forall. intros a _.
      apply snapshotReplay_no_toolDone.
    + repeat constructor. by intros [].
  - intros es ->.
    assert (translator_wf (Translator.run Translator.init es).1) as Hwf
      by apply run_wf, translator_wf_init.
    assert (length (Translator.agents (Translator.run Translator.init es).1)
            = length (Translator.sessionToId (Translator.run Translator.init es).1))
      as Hlen.
    { pose proof (f_equal length (wf_keys _ Hwf)) as Hlen.
      unfold JsMap.keys in Hlen. by rewrite !length_fmap in Hlen. }
    subst agents. unfold Translator.getTrackedAgents.
    rewrite (wf_agent_ids _ Hwf). split; [done|].
    rewrite (wf_ids _ Hwf). unfold JsMap.values. by rewrite length_fmap, Hlen.
  - by vm_compute.
Qed.

Lemma C6_snapshot_order_witness :
  TrackedAgent.id <$> Translator.getTrackedAgents
                        (Translator.run Translator.init twoSessions).1
  = [1; 2].
Proof.
  exact (proj2 (proj1 (proj2 (proj2 (proj2
           (C6_snapshot_order nothingLoaded
              (Translator.run Translator.init twoSessions).1 Gateway.init))))
           twoSessions eq_refl)).
Defined.

(** ** The browser's client: the send buffer *)

Lemma postMessage_closed m st :
  WsClient.ws st ≠ Some OPEN ->
  length (WsClient.sendBuffer st) <= WsClient.maxBufferSize ->
  let r := WsClient.postMessage m st in
  r.2 = [] /\
  WsClient.ws r.1 = WsClient.ws st /\
  WsClient.state r.1 = WsClient.state st /\
  WsClient.sendBuffer r.1 = lastN WsClient.maxBufferSize (WsClient.sendBuffer st ++ [m]).
Proof.
  intros Hws Hlen r. subst r. unfold WsClient.postMessage.
  rewrite decide_False by done. simpl. split_and!; try done.
  unfold lastN, WsClient.shift.
  assert (length (WsClient.sendBuffer st ++ [m]) = S (length (WsClient.sendBuffer st)))
    as Hpush by (rewrite length_app; simpl; lia).
  case_decide as Hfull.
  - by replace (length (WsClient.sendBuffer st ++ [m]) - WsClient.maxBufferSize)
      with 1 by lia.
  - by replace (length (WsClient.sendBuffer st ++ [m]) - WsClient.maxBufferSize)
      with 0 by lia.
Qed.

Lemma length_lastN {A} n (l : list A) : length (lastN n l) <= n.
Proof. unfold lastN. rewrite length_drop. lia. Qed.

Lemma lastN_lastN_app {A} n (l k : list A) :
  lastN n (lastN n l ++ k) = lastN n (l ++ k).
Proof.
  unfold lastN. rewrite length_app, length_drop, length_app.
  rewrite <- (drop_app_le l k) by lia.
  rewrite drop_drop. f_equal. lia.
Qed.

Lemma lastN_all {A} n (l : list A) : length l <= n -> lastN n l = l.
Proof. intros Hl. unfold lastN. by replace (length l - n) with 0 by lia. Qed.

(** * More of the translator *)

(** ** The stream of messages *)

Lemma announced_app n out1 out2 :
  announced n out1 ->
  announced (n + length (filter is_agentCreated out1)) out2 ->
  announced n (out1 ++ out2).
Proof.
  revert n. induction out1 as [|m out1 IH]; intros n; simpl.
  - by rewrite Nat.add_0_r.
  - rewrite filter_cons. case_decide as Hm; simpl.
    + intros [-> H1] H2. split; [done|]. apply IH; [done|].
      by rewrite Nat.add_succ_comm.
    + intros [Hid H1] H2. split; [done|]. by apply IH.
Qed.

Lemma announced_created n out :
  announced n out ->
  filter is_agentCreated out
  = created <$> seq (S n) (length (filter is_agentCreated out)).
Proof.
  revert n. induction out as [|m out IH]; intros n; simpl; [done|].
  rewrite filter_cons. case_decide as Hm; simpl.
  - intros [-> H1]. f_equal. by apply IH.
  - intros [_ H1]. by apply IH.
Qed.

Lemma announced_mention n out i m :
  announced n out ->
  out !! i = Some m ->
  exists id, agentOf m = Some id /\ 1 <= id /\
    (id <= n \/ exists j, j <= i /\ out !! j = Some (created id)).
Proof.
  revert n i. induction out as [|m0 out IH]; intros n i; simpl; [done|].
  case_decide as Hm.
  - intros [-> H1]. destruct i as [|i]; simpl.
    + intros [= <-]. exists (S n). split; [done|]. split; [lia|].
      right. exists 0. by split.
    + intros Hi. destruct (IH _ _ H1 Hi) as (id & Hid & Hpos & Hcase).
      exists id. split; [done|]. split; [done|].
      destruct Hcase as [Hle|(j & Hj & Hout)].
      * destruct (decide (id = S n)) as [->|]; [|left; lia].
        right. exists 0. split; [lia | done].
      * right. exists (S j). split; [lia | done].
  - intros [(id0 & Hid0 & Hr) H1]. destruct i as [|i]; simpl.
    + intros [= <-]. exists id0. split; [done|]. split; [lia|]. left. lia.
    + intros Hi. destruct (IH _ _ H1 Hi) as (id & Hid & Hpos & Hcase).
      exists id. split; [done|]. split; [done|].
      destruct Hcase as [Hle|(j & Hj & Hout)]; [by left|].
      right. exists (S j). split; [lia | done].
Qed.

Lemma wf_id_range st k id :
  translator_wf st ->
  JsMap.get k (Translator.sessionToId st) = Some id ->
  1 <= id <= length (Translator.sessionToId st).
Proof.
  intros Hwf Hget. destruct (wf_ids_lookup _ _ _ Hwf Hget) as (n & Hn & ->).
  apply lookup_lt_Some in Hn. lia.
Qed.

Lemma step_announced st e :
  translator_wf st ->
  announced (length (Translator.sessionToId st)) (Translator.step st e).2 /\
  length (Translator.sessionToId (Translator.step st e).1)
  = length (Translator.sessionToId st)
    + length (filter is_agentCreated (Translator.step st e).2).
Proof.
  intros Hwf.
  assert (forall k id, JsMap.get k (Translator.sessionToId st) = Some id ->
            1 <= id <= length (Translator.sessionToId st)) as Hr
    by (intros; by eapply wf_id_range).
  unfold Translator.step, Translator.handleGatewayEvent.
  repeat case_decide; simpl; try (split; [done | lia]).
  - unfold Translator.handleLifecycleEvent.
    destruct (truthy _) as [k|]; simpl; [|split; [done | lia]].
    repeat case_decide;
      destruct (JsMap.get k (Translator.sessionToId st)) as [id|] eqn:Hget;
      simpl; try (split; [done | lia]);
      try (split; [|lia]; repeat split; eauto).
    rewrite (wf_next _ Hwf), (set_fresh _ _ _ Hget), length_app. simpl.
    split; [|lia]. split; [done|]. split; [|done]. exists (S (length (Translator.sessionToId st))).
    split; [done | lia].
  - unfold Translator.handleToolEvent.
    destruct (truthy _) as [k|]; simpl; [|split; [done | lia]].
    destruct (JsMap.get k (Translator.sessionToId st)) as [id|] eqn:Hget;
      simpl; [|split; [done | lia]].
    destruct (Fields.toolId _); repeat case_decide; simpl;
      try (split; [done | lia]); (split; [|lia]; repeat split; eauto).
  - unfold Translator.handleApprovalRequest.
    destruct (truthy _) as [k|]; simpl; [|split; [done | lia]].
    destruct (JsMap.get k (Translator.sessionToId st)) as [id|] eqn:Hget;
      simpl; [|split; [done | lia]].
    split; [|lia]. repeat split; eauto.
Qed.

Lemma run_announced es : forall st,
  translator_wf st ->
  announced (length (Translator.sessionToId st)) (Translator.run st es).2 /\
  length (Translator.sessionToId (Translator.run st es).1)
  = length (Translator.sessionToId st)
    + length (filter is_agentCreated (Translator.run st es).2).
Proof.
  induction es as [|e es IH]; intros st Hwf; simpl; [split; [done | lia]|].
  pose proof (step_wf st e Hwf) as Hwf1.
  destruct (step_announced st e Hwf) as [Ha1 Hl1].
  destruct (Translator.step st e) as [st1 out1]. simpl in *.
  destruct (IH st1 Hwf1) as [Ha2 Hl2].
  destruct (Translator.run st1 es) as [st2 out2]. simpl in *.
  rewrite filter_app, length_app. split; [|lia].
  apply announced_app; [done|]. by rewrite <- Hl1.
Qed.

(** X1. Whatever events the translator processes from its initial state,
    the [agentCreated] messages it emits are, in order, those of the ids
    1, 2, ..., n, each once and each with the name [Agent #<id>], where n
    is the number of tracked sessions. *)
Theorem created_stream (es : list Translator.GatewayEvent) :
  let st := (Translator.run Translator.init es).1 in
  let out := (Translator.run Translator.init es).2 in
  filter is_agentCreated out
  = created <$> seq 1 (length (Translator.sessionToId st)).
Proof.
  intros st out.
  destruct (run_announced es _ translator_wf_init) as [Ha Hl]. simpl in *.
  subst st. rewrite Hl. by apply announced_created.
Qed.

(** X2. Every message the translator emits is about an agent, and that
    agent's [agentCreated] message is the message itself or an earlier
    one. *)
Theorem message_after_creation (es : list Translator.GatewayEvent)
    (i : nat) (m : DashboardMessage) :
  let out := (Translator.run Translator.init es).2 in
  out !! i = Some m ->
  exists id j, agentOf m = Some id /\ j <= i /\ out !! j = Some (created id).
Proof.
  intros out Hi.
  destruct (run_announced es _ translator_wf_init) as [Ha _]. simpl in Ha.
  destruct (announced_mention _ _ _ _ Ha Hi) as (id & Hid & Hpos & [Hle|(j & Hj & Hout)]);
    [lia|].
  by exists id, j.
Qed.

Lemma message_after_creation_witness :
  exists id j,
    agentOf (agentError 2 (js "Unknown error")) = Some id /\ j <= 4 /\
    (Translator.run Translator.init threeSessions).2 !! j = Some (created id).
Proof.
  apply (message_after_creation threeSessions 4). by_eval.
Defined.

(** ** The agents *)

Lemma agents_ok_alter (f : TrackedAgent.t -> TrackedAgent.t) k st :
  (forall k' a, agent_ok k' a -> agent_ok k' (f a)) ->
  agents_ok st ->
  agents_ok (Translator.with_agents (JsMap.alter f k) st).
Proof.
  intros Hf Hok k' a' Hget. simpl in Hget.
  apply get_alter_inv in Hget as (a & Ha & ->).
  case_decide; [apply Hf|]; by apply Hok.
Qed.

Lemma agent_ok_restart runId k a :
  agent_ok k a -> agent_ok k (Translator.restart runId a).
Proof. intros [? ? ? ?]. by split. Qed.

Lemma agent_ok_finish k a : agent_ok k a -> agent_ok k (Translator.finish a).
Proof. intros [? ? ? ?]. by split. Qed.

Lemma agent_ok_set_status s k a :
  s ≠ idle -> agent_ok k a -> agent_ok k (Translator.set_status s a).
Proof. intros ? [? ? ? ?]. by split. Qed.

Lemma agent_ok_push_tool tool k a :
  tool_ok tool -> agent_ok k a -> agent_ok k (Translator.push_tool tool a).
Proof.
  intros ? [? ? ? ?]. split; simpl; try done.
  apply Forall_app. split; [done|]. by apply Forall_singleton.
Qed.

Lemma tool_ok_complete now tool :
  tool_ok tool -> tool_ok (Translator.complete now tool).
Proof. intros [? ?]. split; simpl; [done|]. split; [by eexists | done]. Qed.

Lemma agent_ok_finish_tool now toolId k a :
  agent_ok k a -> agent_ok k (Translator.finish_tool now toolId a).
Proof.
  intros [? ? ? Htools]. split; simpl; try done.
  unfold Translator.mark_done.
  destruct (list_find _ _) as [[i tool]|] eqn:Hfind; [|done].
  apply list_find_Some in Hfind as (Hi & _ & _).
  apply Forall_insert; [done|]. apply tool_ok_complete.
  by eapply Forall_lookup_1.
Qed.

Lemma agents_ok_init : agents_ok Translator.init.
Proof. by intros k a. Qed.

Lemma step_agents_ok st e : agents_ok st -> agents_ok (Translator.step st e).1.
Proof.
  intros Hok. unfold Translator.step, Translator.handleGatewayEvent.
  repeat case_decide; try done.
  - unfold Translator.handleLifecycleEvent.
    destruct (truthy _) as [k|] eqn:Hk; [|done].
    repeat case_decide; try done;
      destruct (JsMap.get k (Translator.sessionToId st)) as [id|] eqn:Hget;
      simpl; try done.
    + apply agents_ok_alter; [|done]. intros. by apply agent_ok_restart.
    + intros k' a' [[<- ->]|[Hne Ha]]%get_set_inv; [by split | by apply Hok].
    + apply agents_ok_alter; [|done]. intros. by apply agent_ok_finish.
    + apply agents_ok_alter; [|done]. intros. by apply agent_ok_set_status.
  - unfold Translator.handleToolEvent.
    destruct (truthy _ ≫= _) as [[k id]|]; [|done].
    destruct (Fields.toolId _); repeat case_decide; simpl; try done;
      apply (agents_ok_alter _ _ (Translator.mk _ _ _ _)); try done; intros;
      first [ apply agent_ok_push_tool; [split; simpl; [done|]; split; [done | by intros [? ?]] | done]
            | by apply agent_ok_finish_tool ].
  - unfold Translator.handleApprovalRequest.
    destruct (truthy _ ≫= _) as [[k id]|]; [|done].
    apply agents_ok_alter; [|done]. intros. by apply agent_ok_set_status.
Qed.

Lemma run_agents_ok es : forall st, agents_ok st -> agents_ok (Translator.run st es).1.
Proof.
  induction es as [|e es IH]; intros st Hok; simpl; [done|].
  pose proof (step_agents_ok st e Hok) as H1.
  destruct (Translator.step st e) as [st1 out1]. simpl in H1.
  specialize (IH st1 H1).
  by destruct (Translator.run st1 es) as [st2 out2].
Qed.

Lemma wf_session_of st k a :
  translator_wf st ->
  JsMap.get k (Translator.agents st) = Some a ->
  JsMap.get k (Translator.sessionToId st) = Some (TrackedAgent.id a).
Proof.
  intros Hwf Ha.
  destruct (JsMap.get k (Translator.sessionToId st)) as [i|] eqn:Hget.
  - destruct (wf_agent_of _ _ _ Hwf Hget) as (a' & Ha' & <-). congruence.
  - apply get_None in Hget. rewrite <- (wf_keys _ Hwf) in Hget.
    apply get_None in Hget. congruence.
Qed.

Lemma values_elem {V} (m : JsMap jsstring V) v :
  v ∈ JsMap.values m -> exists k, (k, v) ∈ m.
Proof.
  unfold JsMap.values. intros ([k v'] & -> & Hin)%list_elem_of_fmap. by exists k.
Qed.

Lemma get_values {V} (m : JsMap jsstring V) k v :
  JsMap.get k m = Some v -> v ∈ JsMap.values m.
Proof.
  intros Hin%get_Some_elem. unfold JsMap.values.
  apply list_elem_of_fmap. by exists (k, v).
Qed.

(** X3. In every state the translator reaches, [getAgentById] finds the
    agent of the session that holds the id: an agent it returns carries the
    id asked for and is the one stored under its own session key, which the
    session map sends to that id; it returns nothing exactly when no
    session has the id. *)
Theorem getAgentById_session (es : list Translator.GatewayEvent) (id : nat) :
  let st := (Translator.run Translator.init es).1 in
  match EventTranslator.getAgentById id st with
  | Some a =>
      TrackedAgent.id a = id /\
      JsMap.get (TrackedAgent.sessionKey a) (Translator.agents st) = Some a /\
      JsMap.get (TrackedAgent.sessionKey a) (Translator.sessionToId st) = Some id
  | None => forall k, JsMap.get k (Translator.sessionToId st) ≠ Some id
  end.
Proof.
  intros st.
  assert (translator_wf st) as Hwf by apply run_wf, translator_wf_init.
  assert (agents_ok st) as Hok by apply run_agents_ok, agents_ok_init.
  unfold EventTranslator.getAgentById.
  destruct (list_find _ _) as [[i a]|] eqn:Hfind; simpl.
  - apply list_find_Some in Hfind as (Hi & Hid & _).
    apply list_elem_of_lookup_2, values_elem in Hi as [k Hin].
    apply elem_get in Hin; [|rewrite (wf_keys _ Hwf); apply Hwf].
    rewrite (ok_key _ _ (Hok _ _ Hin)). split; [done|]. split; [done|].
    rewrite <- Hid. by apply wf_session_of.
  - intros k Hget.
    destruct (wf_agent_of _ _ _ Hwf Hget) as (a & Ha & Hid).
    assert (list_find (fun agent => TrackedAgent.id agent = id)
              (JsMap.values (Translator.agents st)) = None) as Hnone by done.
    apply list_find_None in Hnone.
    apply get_values in Ha.
    by eapply Forall_forall in Hnone.
Qed.

(** X4. In every state the translator reaches, the agent stored under a
    session key carries that key, the name [Agent #<id>] of its own id, and
    the id the session map gives the key; an idle agent has no current run;
    and no tool call of its history waits for a permission, each being done
    exactly when it has a completion time. *)
Theorem agent_records (es : list Translator.GatewayEvent)
    (k : jsstring) (a : TrackedAgent.t) :
  let st := (Translator.run Translator.init es).1 in
  JsMap.get k (Translator.agents st) = Some a ->
  TrackedAgent.sessionKey a = k /\
  TrackedAgent.name a = js "Agent #" ++ decimal (TrackedAgent.id a) /\
  JsMap.get k (Translator.sessionToId st) = Some (TrackedAgent.id a) /\
  (TrackedAgent.status a = idle -> TrackedAgent.currentRunId a = None) /\
  Forall (fun tool =>
            TrackedTool.permissionWait tool = false /\
            (TrackedTool.done tool = true <-> is_Some (TrackedTool.completedAt tool)))
    (TrackedAgent.toolHistory a).
Proof.
  intros st Ha.
  assert (translator_wf st) as Hwf by apply run_wf, translator_wf_init.
  destruct (run_agents_ok es _ agents_ok_init k a Ha) as [? ? ? ?].
  split_and!; try done. by apply wf_session_of.
Qed.

Lemma agent_records_witness :
  let st := (Translator.run Translator.init oneOpenTool).1 in
  let a := TrackedAgent.mk 1 (js "support-triage") (js "Agent #1") busy
             (Some (js "Running: npm run test")) (Some (js "run-1"))
             [TrackedTool.mk (js "t1") (js "Bash") (js "Running: npm run test")
                0 None false false] 0 in
  JsMap.get (js "support-triage") (Translator.sessionToId st)
  = Some (TrackedAgent.id a).
Proof.
  intros st a.
  apply (agent_records oneOpenTool (js "support-triage") a). by_eval.
Defined.

Lemma step_same_identity st e k a :
  translator_wf st ->
  JsMap.get k (Translator.agents st) = Some a ->
  exists a', JsMap.get k (Translator.agents (Translator.step st e).1) = Some a' /\
             same_identity a a'.
Proof.
  intros Hwf Ha.
  assert (forall f : TrackedAgent.t -> TrackedAgent.t, forall k0,
            (forall x, same_identity x (f x)) ->
            exists a', JsMap.get k (JsMap.alter f k0 (Translator.agents st)) = Some a' /\
                       same_identity a a') as Halter.
  { intros f k0 Hf. destruct (decide (k0 = k)) as [->|Hne].
    - rewrite get_alter_eq, Ha. simpl. eauto.
    - rewrite get_alter_ne by done. exists a. by split. }
  assert (exists a', JsMap.get k (Translator.agents st) = Some a' /\ same_identity a a')
    as Hsame by (exists a; by split).
  unfold Translator.step, Translator.handleGatewayEvent.
  repeat case_decide; try done.
  - unfold Translator.handleLifecycleEvent.
    destruct (truthy _) as [k0|] eqn:Hk; [|done].
    repeat case_decide; try done;
      destruct (JsMap.get k0 (Translator.sessionToId st)) as [id|] eqn:Hget;
      simpl; try done; try (by apply Halter).
    rewrite get_set_ne; [done|]. intros ->.
    apply wf_session_of in Ha; [congruence | done].
  - unfold Translator.handleToolEvent.
    destruct (truthy _ ≫= _) as [[k0 id]|]; [|done].
    destruct (Fields.toolId _); repeat case_decide; simpl; try done;
      by apply Halter.
  - unfold Translator.handleApprovalRequest.
    destruct (truthy _ ≫= _) as [[k0 id]|]; [|done].
    by apply Halter.
Qed.

Lemma run_same_identity es : forall st k a,
  translator_wf st ->
  JsMap.get k (Translator.agents st) = Some a ->
  exists a', JsMap.get k (Translator.agents (Translator.run st es).1) = Some a' /\
             same_identity a a'.
Proof.
  induction es as [|e es IH]; intros st k a Hwf Ha; simpl.
  - exists a. by split.
  - pose proof (step_wf st e Hwf) as Hwf1.
    destruct (step_same_identity st e k a Hwf Ha) as (a1 & Ha1 & Hs1).
    destruct (Translator.step st e) as [st1 out1]. simpl in *.
    destruct (IH st1 k a1 Hwf1 Ha1) as (a2 & Ha2 & Hs2).
    destruct (Translator.run st1 es) as [st2 out2]. simpl in *.
    exists a2. split; [done|].
    destruct Hs1 as (? & ? & ? & ?), Hs2 as (? & ? & ? & ?).
    unfold same_identity. split_and!; congruence.
Qed.

(** X5. An agent, once the translator tracks it, is never removed, and no
    later event changes its id, its session key, its name or its creation
    time. *)
Theorem agent_identity_stable (es es' : list Translator.GatewayEvent)
    (k : jsstring) (a : TrackedAgent.t) :
  let st := (Translator.run Translator.init es).1 in
  let st' := (Translator.run st es').1 in
  JsMap.get k (Translator.agents st) = Some a ->
  exists a',
    JsMap.get k (Translator.agents st') = Some a' /\
    TrackedAgent.id a' = TrackedAgent.id a /\
    TrackedAgent.sessionKey a' = TrackedAgent.sessionKey a /\
    TrackedAgent.name a' = TrackedAgent.name a /\
    TrackedAgent.createdAt a' = TrackedAgent.createdAt a.
Proof.
  intros st st' Ha.
  assert (translator_wf st) as Hwf by apply run_wf, translator_wf_init.
  exact (run_same_identity es' st k a Hwf Ha).
Qed.

Lemma agent_identity_stable_witness :
  let st := (Translator.run Translator.init oneOpenTool).1 in
  let st' := (Translator.run st [lifecycleEvent "end" "support-triage" None;
                                 lifecycleEvent "start" "support-triage" None]).1 in
  exists a',
    JsMap.get (js "support-triage") (Translator.agents st') = Some a' /\
    TrackedAgent.id a' = 1 /\
    TrackedAgent.sessionKey a' = js "support-triage" /\
    TrackedAgent.name a' = js "Agent #1" /\
    TrackedAgent.createdAt a' = 0%Z.
Proof.
  intros st st'.
  apply (agent_identity_stable oneOpenTool
           [lifecycleEvent "end" "support-triage" None;
            lifecycleEvent "start" "support-triage" None]
           (js "support-triage")
           (TrackedAgent.mk 1 (js "support-triage") (js "Agent #1") busy
              (Some (js "Running: npm run test")) (Some (js "run-1"))
              [TrackedTool.mk (js "t1") (js "Bash") (js "Running: npm run test")
                 0 None false false] 0)).
  by_eval.
Defined.

(** ** Tool calls and the snapshot *)

Lemma tracked_pair st key k id :
  truthy key = Some k ->
  JsMap.get k (Translator.sessionToId st) = Some id ->
  truthy key ≫= (fun k => (k,.) <$> JsMap.get k (Translator.sessionToId st))
  = Some (k, id).
Proof. intros -> Hget. simpl. by rewrite Hget. Qed.

Lemma handleToolEvent_opens now p st k id toolId :
  truthy (Translator.sessionKeyOf p) = Some k ->
  JsMap.get k (Translator.sessionToId st) = Some id ->
  Fields.toolId (toolEventOf p) = Some toolId ->
  toolPhase p = Some (js "start") \/ toolPhase p = Some (js "tool_start") ->
  Translator.handleToolEvent now p st
  = (let toolEvent := toolEventOf p in
     let toolName :=
       default (js "unknown") (Fields.toolName toolEvent ?? Fields.name toolEvent) in
     let status :=
       formatToolStatus toolName (default ToolInput.empty (Fields.input toolEvent)) in
     (Translator.with_agents
        (JsMap.alter
           (Translator.push_tool
              (TrackedTool.mk toolId toolName status now None false false)) k) st,
      [agentToolStart id toolId status])).
Proof.
  intros Hk Hget Hid Hphase. unfold Translator.handleToolEvent.
  rewrite (tracked_pair _ _ _ _ Hk Hget).
  unfold toolPhase, toolEventOf in *. rewrite Hid. simpl.
  rewrite decide_True by done. by destruct st.
Qed.

Lemma handleToolEvent_closes now p st k id toolId :
  truthy (Translator.sessionKeyOf p) = Some k ->
  JsMap.get k (Translator.sessionToId st) = Some id ->
  Fields.toolId (toolEventOf p) = Some toolId ->
  toolPhase p = Some (js "end") \/ toolPhase p = Some (js "tool_end") ->
  Translator.handleToolEvent now p st
  = (Translator.with_agents (JsMap.alter (Translator.finish_tool now toolId) k) st,
     [agentToolDone id toolId]).
Proof.
  intros Hk Hget Hid Hphase. unfold Translator.handleToolEvent.
  rewrite (tracked_pair _ _ _ _ Hk Hget).
  unfold toolPhase, toolEventOf in *. rewrite Hid. simpl.
  rewrite decide_False.
  - rewrite decide_True by done. by destruct st.
  - intros [H|H]; destruct Hphase as [H'|H']; rewrite H' in H;
      by vm_compute in H.
Qed.

Lemma mark_done_last now toolId hist tool :
  toolId ∉ TrackedTool.toolId <$> hist ->
  TrackedTool.toolId tool = toolId ->
  Translator.mark_done now toolId (hist ++ [tool])
  = hist ++ [Translator.complete now tool].
Proof.
  intros Hfresh Hid. unfold Translator.mark_done.
  assert (list_find (fun t => TrackedTool.toolId t = toolId) hist = None) as Hnone.
  { apply list_find_None, Forall_forall. intros t Ht Heq. apply Hfresh.
    apply list_elem_of_fmap. by exists t. }
  rewrite (list_find_app_r _ _ _ Hnone). simpl.
  rewrite decide_True by done. simpl.
  by rewrite (insert_app_r_alt hist [tool] (length hist)), Nat.sub_diag by done.
Qed.

(** X6. A tool call and the snapshot. In every state the translator
    reaches, when a busy agent is sent the start of a tool call under a
    tool id that its history does not hold, and then the end of the call
    under the same id, the first event adds the call's [agentToolStart] at
    the end of what a browser that connects is replayed for the agent, and
    the second takes it away again; the events themselves emit one
    [agentToolStart] and one [agentToolDone]. *)
Theorem tool_call_round_trip (es : list Translator.GatewayEvent)
    (e1 e2 : Translator.GatewayEvent) (k toolId : jsstring) (a : TrackedAgent.t) :
  let st := (Translator.run Translator.init es).1 in
  let st1 := (Translator.step st e1).1 in
  let st2 := (Translator.step st1 e2).1 in
  let started := agentToolStart (TrackedAgent.id a) toolId (statusLine e1) in
  opens_tool e1 -> tool_of k toolId e1 ->
  closes_tool e2 -> tool_of k toolId e2 ->
  JsMap.get k (Translator.agents st) = Some a ->
  TrackedAgent.status a = busy ->
  toolId ∉ TrackedTool.toolId <$> TrackedAgent.toolHistory a ->
  exists a1 a2,
    JsMap.get k (Translator.agents st1) = Some a1 /\
    JsMap.get k (Translator.agents st2) = Some a2 /\
    (Translator.step st e1).2 = [started] /\
    (Translator.step st1 e2).2 = [agentToolDone (TrackedAgent.id a) toolId] /\
    Dashboard.replayAgent OPEN a1 = Dashboard.replayAgent OPEN a ++ [started] /\
    Dashboard.replayAgent OPEN a2 = Dashboard.replayAgent OPEN a.
Proof.
  intros st st1 st2 started [[Hn1 Hs1] Hp1] [Hk1 Ht1] [[Hn2 Hs2] Hp2] [Hk2 Ht2]
    Ha Hbusy Hfresh.
  assert (translator_wf st) as Hwf by apply run_wf, translator_wf_init.
  pose proof (wf_session_of _ _ _ Hwf Ha) as Hget.
  assert (Translator.step st e1
          = Translator.handleToolEvent (Translator.ev_now e1) (Translator.ev_payload e1) st)
    as Hstep1.
  { unfold Translator.step, Translator.handleGatewayEvent.
    rewrite decide_True by done. rewrite decide_False by (rewrite Hs1; by vm_compute).
    by rewrite decide_True. }
  rewrite (handleToolEvent_opens _ _ _ _ _ _ Hk1 Hget Ht1 Hp1) in Hstep1.
  simpl in Hstep1. fold (statusLine e1) in Hstep1.
  subst st2 st1. rewrite Hstep1. simpl.
  set (tool := TrackedTool.mk toolId _ (statusLine e1) _ None false false).
  set (st1 := Translator.with_agents _ st).
  assert (Translator.step st1 e2
          = Translator.handleToolEvent (Translator.ev_now e2) (Translator.ev_payload e2) st1)
    as Hstep2.
  { unfold Translator.step, Translator.handleGatewayEvent.
    rewrite decide_True by done. rewrite decide_False by (rewrite Hs2; by vm_compute).
    by rewrite decide_True. }
  rewrite (handleToolEvent_closes _ _ st1 _ _ _ Hk2 Hget Ht2 Hp2) in Hstep2.
  rewrite Hstep2. simpl.
  exists (Translator.push_tool tool a),
    (Translator.finish_tool (Translator.ev_now e2) toolId (Translator.push_tool tool a)).
  rewrite !get_alter_eq, Ha. simpl.
  split_and!; try done.
  - unfold Dashboard.replayAgent. simpl. rewrite Hbusy.
    rewrite bind_app. simpl. by rewrite ?app_nil_r.
  - unfold Dashboard.replayAgent. simpl. rewrite Hbusy.
    rewrite (mark_done_last _ _ _ tool) by done.
    rewrite bind_app. simpl. by rewrite ?app_nil_r.
Qed.

Lemma tool_call_round_trip_witness :
  let st := (Translator.run Translator.init oneOpenTool).1 in
  let e1 := toolEvent "start" "support-triage" "Read"
              (ToolInput.mk (Some (js "src/server/index.ts")) None None)
              (Some (js "t2")) in
  let e2 := toolEvent "end" "support-triage" "Read" ToolInput.empty (Some (js "t2")) in
  (Translator.step st e1).2 = [agentToolStart 1 (js "t2") (js "Reading index.ts")] /\
  (Translator.step (Translator.step st e1).1 e2).2 = [agentToolDone 1 (js "t2")].
Proof.
  intros st e1 e2.
  assert (opens_tool e1) as Ho by by_eval.
  assert (closes_tool e2) as Hc by by_eval.
  assert (tool_of (js "support-triage") (js "t2") e1) as H1 by by_eval.
  assert (tool_of (js "support-triage") (js "t2") e2) as H2 by by_eval.
  set (a := TrackedAgent.mk 1 (js "support-triage") (js "Agent #1") busy
              (Some (js "Running: npm run test")) (Some (js "run-1"))
              [TrackedTool.mk (js "t1") (js "Bash") (js "Running: npm run test")
                 0 None false false] 0).
  assert (JsMap.get (js "support-triage") (Translator.agents st) = Some a)
    as Ha by by_eval.
  assert (js "t2" ∉ TrackedTool.toolId <$> TrackedAgent.toolHistory a) as Hfresh.
  { vm_compute. intros H%list_elem_of_singleton. congruence. }
  destruct (tool_call_round_trip oneOpenTool e1 e2 (js "support-triage") (js "t2") a
              Ho H1 Hc H2 Ha eq_refl Hfresh)
    as (a1 & a2 & _ & _ & Hout1 & Hout2 & _).
  split; [exact Hout1 | exact Hout2].
Defined.

(** ** Approvals *)

Lemma step_keeps_waiting st e k a :
  ~ is_lifecycle e ->
  JsMap.get k (Translator.agents st) = Some a ->
  TrackedAgent.status a = waiting_approval ->
  exists a', JsMap.get k (Translator.agents (Translator.step st e).1) = Some a' /\
             TrackedAgent.status a' = waiting_approval.
Proof.
  intros Hnot Ha Hw.
  assert (forall f : TrackedAgent.t -> TrackedAgent.t, forall k0,
            (forall x, TrackedAgent.status x = waiting_approval ->
                       TrackedAgent.status (f x) = waiting_approval) ->
            exists a', JsMap.get k (JsMap.alter f k0 (Translator.agents st)) = Some a' /\
                       TrackedAgent.status a' = waiting_approval) as Halter.
  { intros f k0 Hf. destruct (decide (k0 = k)) as [->|Hne].
    - rewrite get_alter_eq, Ha. simpl. eauto.
    - rewrite get_alter_ne by done. by exists a. }
  assert (exists a', JsMap.get k (Translator.agents st) = Some a' /\
                     TrackedAgent.status a' = waiting_approval) as Hsame by by exists a.
  unfold Translator.step, Translator.handleGatewayEvent.
  repeat case_decide; try done.
  - by destruct Hnot.
  - unfold Translator.handleToolEvent.
    destruct (truthy _ ≫= _) as [[k0 id]|]; [|done].
    destruct (Fields.toolId _); repeat case_decide; simpl; try done;
      by apply Halter.
  - unfold Translator.handleApprovalRequest.
    destruct (truthy _ ≫= _) as [[k0 id]|]; [|done].
    by apply Halter.
Qed.

(** X7. An agent that waits for an approval keeps that status through
    every event that is not a lifecycle event, tool events included, and
    nothing is replayed for it to a browser that connects meanwhile:
    neither its status nor the tool calls it has open. *)
Theorem waiting_approval_until_lifecycle (st : Translator.t)
    (es : list Translator.GatewayEvent) (k : jsstring) (a : TrackedAgent.t)
    (ws : ReadyState) :
  Forall (fun e => ~ is_lifecycle e) es ->
  JsMap.get k (Translator.agents st) = Some a ->
  TrackedAgent.status a = waiting_approval ->
  exists a',
    JsMap.get k (Translator.agents (Translator.run st es).1) = Some a' /\
    TrackedAgent.status a' = waiting_approval /\
    Dashboard.replayAgent ws a' = [].
Proof.
  revert st a. induction es as [|e es IH]; intros st a Hes Ha Hw; simpl.
  - exists a. unfold Dashboard.replayAgent. by rewrite Hw.
  - apply Forall_cons in Hes as [He Hes].
    destruct (step_keeps_waiting st e k a He Ha Hw) as (a1 & Ha1 & Hw1).
    destruct (Translator.step st e) as [st1 out1]. simpl in *.
    destruct (IH st1 a1 Hes Ha1 Hw1) as (a2 & Ha2 & Hw2 & Hr).
    destruct (Translator.run st1 es) as [st2 out2]. simpl in *.
    by exists a2.
Qed.

Lemma waiting_approval_until_lifecycle_witness :
  exists a',
    JsMap.get (js "support-triage")
      (Translator.agents
         (Translator.run (Translator.run Translator.init approvalPending).1
            [toolEvent "start" "support-triage" "Bash"
               (ToolInput.mk None (Some (js "npm run test")) None) (Some (js "t1"))]).1)
    = Some a' /\
    TrackedAgent.status a' = waiting_approval /\
    Dashboard.replayAgent OPEN a' = [].
Proof.
  apply (waiting_approval_until_lifecycle _ _ _
           (TrackedAgent.mk 1 (js "support-triage") (js "Agent #1") waiting_approval
              None (Some (js "run-1")) [] 0)).
  - apply Forall_singleton. intros [_ H]. by vm_compute in H.
  - by_eval.
  - reflexivity.
Defined.

Lemma is_number_spec id agentId :
  is_number id agentId = true <-> agentId = Some (JNum (Z.of_nat id)).
Proof.
  destruct agentId as [[]|]; simpl; try (split; [done | congruence]).
  rewrite bool_decide_eq_true. split; [by intros -> | congruence].
Qed.

(** X8. [resolveApproval] in a state the translator reaches: for the id of
    a tracked session it makes one request, [exec.approval.resolve] with
    that session's key and the caller's [approved] as parameters and the
    default timeout; for anything that is not the id of a tracked session
    it makes no request at all. *)
Theorem resolveApproval_target (es : list Translator.GatewayEvent)
    (agentId approved : option json) :
  let st := (Translator.run Translator.init es).1 in
  (forall k id,
      JsMap.get k (Translator.sessionToId st) = Some id ->
      agentId = Some (JNum (Z.of_nat id)) ->
      EventTranslator.resolveApproval_call agentId approved st
      = Some (id, Gateway.request (js "exec.approval.resolve")
                    (JObj ((js "sessionKey", JStr k) ::
                           match approved with
                           | Some v => [(js "approved", v)]
                           | None => []
                           end)) 10000)) /\
  ((forall k id,
       JsMap.get k (Translator.sessionToId st) = Some id ->
       agentId ≠ Some (JNum (Z.of_nat id))) ->
   EventTranslator.resolveApproval_call agentId approved st = None).
Proof.
  intros st.
  assert (translator_wf st) as Hwf by apply run_wf, translator_wf_init.
  unfold EventTranslator.resolveApproval_call. split.
  - intros k id Hget ->.
    destruct (list_find _ _) as [[i [k' id']]|] eqn:Hfind.
    + apply list_find_Some in Hfind as (Hi & Hid & _). simpl in Hid.
      apply bool_decide_eq_true, (inj Z.of_nat) in Hid. subst id'.
      apply list_elem_of_lookup_2, elem_get in Hi; [|apply Hwf].
      by rewrite (wf_injective _ _ _ _ Hwf Hi Hget).
    + assert (list_find (fun entry : jsstring * nat =>
                           is_number entry.2 (Some (JNum (Z.of_nat id))) = true)
                (Translator.sessionToId st) = None) as Hnone by done.
      apply list_find_None in Hnone. apply get_Some_elem in Hget.
      eapply Forall_forall in Hnone; [|done]. simpl in Hnone.
      by rewrite bool_decide_true in Hnone.
  - intros Hnone.
    destruct (list_find _ _) as [[i [k' id']]|] eqn:Hfind; [|done].
    apply list_find_Some in Hfind as (Hi & Hid & _). simpl in Hid.
    apply is_number_spec in Hid.
    apply list_elem_of_lookup_2, elem_get in Hi; [|apply Hwf].
    by destruct (Hnone _ _ Hi).
Qed.

Lemma resolveApproval_target_witness :
  EventTranslator.resolveApproval_call (Some (JNum 2)) (Some (JBool true))
    (Translator.run Translator.init twoSessions).1
  = Some (2, Gateway.request (js "exec.approval.resolve")
               (JObj [(js "sessionKey", JStr (js "billing-agent"));
                      (js "approved", JBool true)]) 10000).
Proof.
  apply (proj1 (resolveApproval_target twoSessions (Some (JNum 2)) (Some (JBool true)))
           (js "billing-agent") 2); by_eval.
Defined.

(** ** The roster *)

Lemma Sorted_seq b n : Sorted le (seq b n).
Proof.
  revert b. induction n as [|n IH]; intros b; simpl; [constructor|].
  constructor; [apply IH|]. destruct n; simpl; constructor. lia.
Qed.

Lemma merge_sort_seq b n : merge_sort le (seq b n) = seq b n.
Proof.
  apply (Sorted_unique le).
  - apply Sorted_merge_sort. intros x y. lia.
  - apply Sorted_seq.
  - apply merge_sort_Permutation.
Qed.

(** X9. In every state the translator reaches, the roster that
    [syncInitialState] emits once its request has settled is the list of
    the ids 1, ..., n in ascending order, and it is the same roster that a
    browser is sent in its snapshot. *)
Theorem syncInitialState_roster (es : list Translator.GatewayEvent) :
  let st := (Translator.run Translator.init es).1 in
  EventTranslator.syncInitialState_emit st
  = existingAgents (seq 1 (length (Translator.sessionToId st))) /\
  EventTranslator.syncInitialState_emit st
  = existingAgents (TrackedAgent.id <$> Translator.getTrackedAgents st).
Proof.
  intros st.
  assert (translator_wf st) as Hwf by apply run_wf, translator_wf_init.
  unfold EventTranslator.syncInitialState_emit, Translator.getTrackedAgents.
  rewrite (wf_agent_ids _ Hwf), (wf_ids _ Hwf), merge_sort_seq. done.
Qed.

(** * More of the gateway client *)

(** ** No effect of a connected client *)

Lemma keeps_seq P Q f g : keeps P Q f -> keeps P Q g -> keeps P Q (Gateway.seq_act f g).
Proof.
  intros Hf Hg st HP. rewrite seq_act_fst, seq_act_snd.
  destruct (Hf st HP) as [HP1 HQ1]. destruct (Hg _ HP1) as [HP2 HQ2].
  split; [done|]. by apply Forall_app.
Qed.

Lemma unconnected_same st st0 :
  unconnected st ->
  Gateway.state st0 = Gateway.state st ->
  Gateway.pendingRequests st0 = Gateway.pendingRequests st ->
  (forall x, x ∈ Gateway.timers st0 -> x ∈ Gateway.timers st) ->
  unconnected st0.
Proof.
  intros [[Hs Hp] Ht] H1 H2 H3. split; [split; congruence|]. auto.
Qed.

Lemma quiet_setState s detail :
  s ≠ connected -> keeps unconnected handshake_effect (Gateway.setState s detail).
Proof.
  intros Hs st [[_ Hp] Ht]. split; [by split|]. by apply Forall_singleton.
Qed.

Lemma quiet_scheduleReconnect : keeps unconnected handshake_effect Gateway.scheduleReconnect.
Proof.
  intros st [[Hs Hp] Ht]. unfold Gateway.scheduleReconnect.
  destruct (Gateway.reconnectTimer st); simpl; [by split|].
  split; [|done]. split; [done|]. simpl.
  intros x [Hx| ->]%elem_of_armed; [auto | done].
Qed.

Lemma quiet_cleanup : keeps unconnected handshake_effect Gateway.cleanup.
Proof.
  intros st [[Hs Hp] Ht]. split.
  - split; [done|]. intros x [Hx _]%cleanup_timers. auto.
  - simpl. by rewrite Hp.
Qed.

Lemma quiet_connect throws : keeps unconnected handshake_effect (Gateway.connect throws).
Proof.
  intros st Hu. unfold Gateway.connect. case_decide as Hc; [done|]. clear Hc.
  revert st Hu. apply keeps_seq; [by apply quiet_setState|].
  intros st Hu. destruct throws.
  - revert st Hu. apply keeps_seq; [by apply quiet_setState|].
    apply quiet_scheduleReconnect.
  - split; [|done]. by eapply unconnected_same.
Qed.

Lemma disconnect_effects st :
  (Gateway.disconnect st).2
  = ((fun p => Gateway.Reject p.1 (js "Connection closed"))
       <$> Gateway.pendingRequests st)
    ++ [Gateway.EmitConnectionState disconnected None].
Proof.
  unfold Gateway.disconnect. rewrite !seq_act_snd, ?seq_act_fst.
  by destruct (Gateway.reconnectTimer st).
Qed.

Lemma quiet_disconnect : keeps unconnected handshake_effect Gateway.disconnect.
Proof.
  intros st Hu. split.
  - split; [by apply nc_disconnect, Hu|].
    intros x [Hx _]%disconnect_timers_subset. by apply Hu.
  - rewrite disconnect_effects. destruct Hu as [[_ ->] _]. simpl.
    by apply Forall_singleton.
Qed.

Lemma quiet_request method params timeoutMs :
  keeps unconnected handshake_effect (Gateway.request method params timeoutMs).
Proof.
  intros st Hu. unfold Gateway.request.
  rewrite decide_False by apply Hu. split; [done|]. by apply Forall_singleton.
Qed.

Lemma quiet_sendConnectRequest :
  keeps unconnected handshake_effect Gateway.sendConnectRequest.
Proof.
  intros st Hu. unfold Gateway.sendConnectRequest, Gateway.sendRaw. simpl.
  destruct (Gateway.ws st); [case_decide|]; simpl;
    (split; [by eapply unconnected_same|]); try done.
  by apply Forall_singleton.
Qed.

Lemma quiet_handleFrame frame :
  keeps unconnected handshake_effect (Gateway.handleFrame frame).
Proof.
  destruct frame as [ev p|id ok payload err|]; simpl.
  - case_decide; [apply quiet_sendConnectRequest|].
    intros st Hu. split; [done|]. by apply Forall_singleton.
  - intros st Hu. destruct Hu as [[Hs Hp] Ht]. rewrite Hp. simpl. by split.
  - by intros st Hu.
Qed.

Lemma quiet_onClose : keeps unconnected handshake_effect Gateway.onClose.
Proof.
  unfold Gateway.onClose. repeat apply keeps_seq.
  - apply quiet_cleanup.
  - by apply quiet_setState.
  - apply quiet_scheduleReconnect.
Qed.

Lemma unconnected_step st e st' out :
  unconnected st -> Gateway.step st e = Some (st', out) ->
  unconnected st' /\ Forall handshake_effect out.
Proof.
  intros Hu Hstep.
  assert (forall f st0, unconnected st0 -> keeps unconnected handshake_effect f ->
            Some (f st0) = Some (st', out) ->
            unconnected st' /\ Forall handshake_effect out) as Huse.
  { intros f st0 H0 Hf [= Heq]. specialize (Hf st0 H0). by rewrite Heq in Hf. }
  destruct e as [throws| |method params timeoutMs|i|i parsed|i|i|h throws];
    simpl in Hstep.
  - eapply Huse; [done | apply quiet_connect | done].
  - eapply Huse; [done | apply quiet_disconnect | done].
  - eapply Huse; [done | apply quiet_request | done].
  - destruct (Gateway.sockets st !! i) as [[]|]; try done.
    eapply Huse; [| by apply (quiet_setState handshaking) | exact Hstep].
    by eapply unconnected_same.
  - destruct (Gateway.sockets st !! i) as [[]|]; try done;
      (eapply Huse; [done | | exact Hstep]);
      (destruct parsed; [apply quiet_handleFrame | by intros ? ?]).
  - destruct (Gateway.sockets st !! i) as [[]|]; try done;
      (eapply Huse; [| apply quiet_onClose | exact Hstep]);
      by eapply unconnected_same.
  - destruct (Gateway.sockets st !! i); [|done].
    injection Hstep as <- <-. by split.
  - destruct (Gateway.timer_kind h st) as [k|] eqn:Hk; [|done].
    pose proof (proj2 Hu _ (timer_kind_elem _ _ _ Hk)) as Hrec.
    destruct k as [d|id method t|t]; try done.
    eapply Huse; [| | exact Hstep].
    + eapply unconnected_same; [done..|]. simpl. by intros x [_ ?]%elem_of_disarm.
    + apply keeps_seq; [|apply quiet_connect].
      intros st0 Hu0. split; [|done]. by eapply unconnected_same.
Qed.

Lemma unconnected_run es : forall st st' out,
  unconnected st -> Gateway.run st es = Some (st', out) ->
  unconnected st' /\ Forall handshake_effect out.
Proof.
  induction es as [|e es IH]; intros st st' out Hu; simpl.
  - intros [= <- <-]. by split.
  - destruct (Gateway.step st e) as [[st1 out1]|] eqn:Hstep; [|done].
    destruct (Gateway.run st1 es) as [[st2 out2]|] eqn:Hrun; [|done].
    intros [= <- <-].
    destruct (unconnected_step _ _ _ _ Hu Hstep) as [Hu1 Ho1].
    destruct (IH _ _ _ Hu1 Hrun) as [Hu2 Ho2].
    split; [done|]. by apply Forall_app.
Qed.

Lemma unconnected_init : unconnected Gateway.init.
Proof. split; [apply never_connected_init|]. by intros x ?%elem_of_nil. Qed.

(** X10. Whatever happens to a gateway client from its initial state
    (calls, socket events, timers), it never announces a connection and
    never talks to the gateway beyond the handshake: it emits no
    [connected] event and no change of state to [connected]; the only
    frames it sends are [connect] requests, so no request of a caller and
    no tick; it calls [close] on no socket; and it never resolves a
    request, nor rejects one that was sent. In every such state a caller's
    request is rejected on the spot with [Gateway not connected]; a
    gateway event other than the challenge that arrives on a socket is
    passed on as it is, the client staying as it was; and a challenge that
    arrives while the socket held is open is answered with a [connect]
    request under the next request id. *)
Theorem client_effects_before_connection (es : list Gateway.Event)
    (st : Gateway.t) (out : list Gateway.Effect) :
  Gateway.run Gateway.init es = Some (st, out) ->
  (forall e, e ∈ out ->
    match e with
    | Gateway.EmitConnectionState s _ => s ≠ connected
    | Gateway.EmitGatewayEvent event _ => event ≠ js "connect.challenge"
    | Gateway.Send _ frame => exists id, frame = Gateway.ConnectReq id
    | Gateway.RejectUnsent _ => True
    | Gateway.EmitConnected | Gateway.SocketClose _
    | Gateway.Resolve _ _ | Gateway.Reject _ _ => False
    end) /\
  (forall method params timeoutMs,
      Gateway.step st (Gateway.CallRequest method params timeoutMs)
      = Some (st, [Gateway.RejectUnsent
                     (js "Gateway not connected (state: "
                        ++ Gateway.state_name (Gateway.state st) ++ js ")")])) /\
  (forall i event payload,
      Gateway.sockets st !! i = Some OPEN \/ Gateway.sockets st !! i = Some CLOSING ->
      event ≠ js "connect.challenge" ->
      Gateway.step st (Gateway.SockMessage i (Some (Gateway.EventFrame event payload)))
      = Some (st, [Gateway.EmitGatewayEvent event payload])) /\
  (forall i payload,
      Gateway.ws st = Some i ->
      Gateway.sockets st !! i = Some OPEN ->
      exists st',
        Gateway.step st
          (Gateway.SockMessage i
             (Some (Gateway.EventFrame (js "connect.challenge") payload)))
        = Some (st', [Gateway.Send i
                        (Gateway.ConnectReq
                           (Gateway.requestIdName (S (Gateway.requestId st))))]) /\
        Gateway.requestId st' = S (Gateway.requestId st) /\
        Gateway.state st' = Gateway.state st).
Proof.
  intros Hrun.
  destruct (unconnected_run _ _ _ _ unconnected_init Hrun) as [[[Hs Hp] _] Hout].
  split; [|split; [|split]].
  - intros e He. eapply Forall_forall in Hout; [|exact He].
    destruct e as [| | |sock []| | | |]; simpl in *; try done. by eexists.
  - intros method params timeoutMs. unfold Gateway.step, Gateway.request.
    by rewrite decide_False.
  - intros i event payload Hi Hne. unfold Gateway.step, Gateway.onMessage,
      Gateway.handleFrame.
    rewrite decide_False by exact Hne.
    by destruct Hi as [-> | ->].
  - intros i payload Hws Hi. unfold Gateway.step. rewrite Hi.
    unfold Gateway.onMessage, Gateway.handleFrame.
    rewrite decide_True by reflexivity.
    unfold Gateway.sendConnectRequest, Gateway.sendRaw.
    cbn [Gateway.ws Gateway.sockets]. rewrite Hws, decide_True by exact Hi.
    eexists. split; [reflexivity|]. by split.
Qed.

Lemma client_effects_before_connection_witness :
  exists st out,
    Gateway.run Gateway.init handshakeAfterFailure = Some (st, out) /\
    Gateway.step st (Gateway.SockMessage 1 (Some lateStart))
    = Some (st, [Gateway.EmitGatewayEvent (js "agent.stream")
                   (Translator.ev_payload
                      (lifecycleEvent "start" "support-triage" None))]) /\
    Gateway.step st (Gateway.CallRequest (js "system-presence") (JObj []) 10000)
    = Some (st, [Gateway.RejectUnsent (js "Gateway not connected (state: handshaking)")]).
Proof.
  destruct (Gateway.run Gateway.init handshakeAfterFailure) as [[st out]|] eqn:Hrun;
    [|by vm_compute in Hrun].
  destruct (client_effects_before_connection handshakeAfterFailure st out Hrun)
    as (_ & Hreq & Hev & _).
  assert (Gateway.sockets st = [CLOSED; OPEN] /\ Gateway.state st = handshaking)
    as [Hsock Hstate].
  { vm_compute in Hrun. by injection Hrun as <- _. }
  exists st, out. split; [reflexivity|]. split.
  - apply Hev; [left; by rewrite Hsock | by apply literal_ne].
  - rewrite (Hreq (js "system-presence") (JObj []) 10000%Z). by rewrite Hstate.
Defined.

(** ** Request ids *)

Lemma numbered_nil lo hi : numbered lo hi [].
Proof. exists []. split; [done|]. split; constructor. Qed.

Lemma numbered_app lo mid hi l1 l2 :
  lo <= mid -> mid <= hi ->
  numbered lo mid l1 -> numbered mid hi l2 -> numbered lo hi (l1 ++ l2).
Proof.
  intros H1 H2 (ns1 & -> & Hs1 & Hr1) (ns2 & -> & Hs2 & Hr2).
  exists (ns1 ++ ns2). rewrite fmap_app. split; [done|]. split.
  - apply StronglySorted_app. split_and!; try done.
    intros x1 x2 Hx1 Hx2.
    eapply Forall_forall in Hr1; [|done]. eapply Forall_forall in Hr2; [|done]. lia.
  - apply Forall_app. split.
    + eapply Forall_impl; [done|]. simpl. lia.
    + eapply Forall_impl; [done|]. simpl. lia.
Qed.

Lemma numbered_next n : numbered n (S n) [Gateway.requestIdName (S n)].
Proof.
  exists [S n]. split; [done|]. split.
  - repeat constructor.
  - apply Forall_singleton. lia.
Qed.

Lemma silent_numbers f : silent f -> numbers f.
Proof.
  intros Hf st. destruct (Hf st) as [-> ->]. split; [done | apply numbered_nil].
Qed.

Lemma silent_seq f g : silent f -> silent g -> silent (Gateway.seq_act f g).
Proof.
  intros Hf Hg st. rewrite seq_act_fst, seq_act_snd.
  destruct (Hf st) as [Hf1 Hf2]. destruct (Hg (f st).1) as [Hg1 Hg2].
  split; [congruence|]. unfold sentIds in *. by rewrite omap_app, Hf2, Hg2.
Qed.

Lemma numbers_seq f g : numbers f -> numbers g -> numbers (Gateway.seq_act f g).
Proof.
  intros Hf Hg st. rewrite seq_act_fst, seq_act_snd.
  destruct (Hf st) as [Hf1 Hf2]. destruct (Hg (f st).1) as [Hg1 Hg2].
  split; [lia|]. unfold sentIds in *. rewrite omap_app.
  by eapply numbered_app.
Qed.

Lemma silent_setState s detail : silent (Gateway.setState s detail).
Proof. by intros st. Qed.

Lemma silent_scheduleReconnect : silent Gateway.scheduleReconnect.
Proof. intros st. unfold Gateway.scheduleReconnect. by destruct (Gateway.reconnectTimer st). Qed.

Lemma sentIds_rejects (ps : list (jsstring * nat)) message :
  sentIds ((fun p => Gateway.Reject p.1 message) <$> ps) = [].
Proof. by induction ps. Qed.

Lemma silent_cleanup : silent Gateway.cleanup.
Proof. intros st. split; [done|]. apply sentIds_rejects. Qed.

Lemma silent_connect throws : silent (Gateway.connect throws).
Proof.
  intros st. unfold Gateway.connect. case_decide as Hc; [done|]. clear Hc.
  revert st. apply silent_seq; [apply silent_setState|].
  intros st. destruct throws; [|done].
  revert st. apply silent_seq; [apply silent_setState | apply silent_scheduleReconnect].
Qed.

Lemma silent_disconnect : silent Gateway.disconnect.
Proof.
  intros st. split.
  - unfold Gateway.disconnect. rewrite !seq_act_fst.
    by destruct (Gateway.reconnectTimer st).
  - rewrite disconnect_effects. unfold sentIds. rewrite omap_app.
    fold (sentIds ((fun p => Gateway.Reject p.1 (js "Connection closed"))
                     <$> Gateway.pendingRequests st)).
    by rewrite sentIds_rejects.
Qed.

Lemma silent_onConnected hello : silent (Gateway.onConnected hello).
Proof. unfold Gateway.onConnected. repeat apply silent_seq; by intros st. Qed.

Lemma silent_onClose : silent Gateway.onClose.
Proof.
  unfold Gateway.onClose. repeat apply silent_seq.
  - apply silent_cleanup.
  - apply silent_setState.
  - apply silent_scheduleReconnect.
Qed.

Lemma numbers_sendConnectRequest : numbers Gateway.sendConnectRequest.
Proof.
  intros st. unfold Gateway.sendConnectRequest, Gateway.sendRaw. simpl.
  destruct (Gateway.ws st); [case_decide|]; simpl;
    (split; [lia|]); first [apply numbered_next | apply numbered_nil].
Qed.

Lemma numbers_request method params timeoutMs :
  numbers (Gateway.request method params timeoutMs).
Proof.
  intros st. unfold Gateway.request, Gateway.sendRaw. case_decide; simpl.
  - destruct (Gateway.ws st); [case_decide|]; simpl;
      (split; [lia|]); first [apply numbered_next | apply numbered_nil].
  - split; [done | apply numbered_nil].
Qed.

Lemma numbers_handleFrame frame : numbers (Gateway.handleFrame frame).
Proof.
  destruct frame as [ev p|id ok payload err|]; simpl.
  - case_decide; [apply numbers_sendConnectRequest|].
    apply silent_numbers. by intros st.
  - apply silent_numbers. intros st.
    destruct (JsMap.get id (Gateway.pendingRequests st)) as [timer|]; [|done].
    destruct ok; [|done].
    match goal with |- context [Gateway.seq_act ?f ?g ?s] =>
      assert (silent (Gateway.seq_act f g)) as Hs end.
    { apply silent_seq; [|by intros ?].
      intros st0. destruct payload as [hello|]; [|done].
      case_decide; [apply silent_onConnected | done]. }
    match goal with |- context [Gateway.seq_act _ _ ?s] =>
      destruct (Hs s) as [H1 H2] end.
    by split.
  - apply silent_numbers. by intros st.
Qed.

Lemma numbers_step st e st' out :
  Gateway.step st e = Some (st', out) ->
  Gateway.requestId st <= Gateway.requestId st' /\
  numbered (Gateway.requestId st) (Gateway.requestId st') (sentIds out).
Proof.
  intros Hstep.
  assert (forall f st0, Gateway.requestId st0 = Gateway.requestId st -> numbers f ->
            Some (f st0) = Some (st', out) ->
            Gateway.requestId st <= Gateway.requestId st' /\
            numbered (Gateway.requestId st) (Gateway.requestId st') (sentIds out))
    as Huse.
  { intros f st0 H0 Hf [= Heq]. specialize (Hf st0). rewrite Heq, H0 in Hf. done. }
  destruct e as [throws| |method params timeoutMs|i|i parsed|i|i|h throws];
    simpl in Hstep.
  - eapply Huse; [done | apply silent_numbers, silent_connect | done].
  - eapply Huse; [done | apply silent_numbers, silent_disconnect | done].
  - eapply Huse; [done | apply numbers_request | done].
  - destruct (Gateway.sockets st !! i) as [[]|]; try done.
    eapply Huse; [| apply silent_numbers, (silent_setState handshaking) | exact Hstep].
    done.
  - destruct (Gateway.sockets st !! i) as [[]|]; try done;
      (eapply Huse; [done | | exact Hstep]);
      (destruct parsed; [apply numbers_handleFrame | apply silent_numbers; by intros ?]).
  - destruct (Gateway.sockets st !! i) as [[]|]; try done;
      (eapply Huse; [| apply silent_numbers, silent_onClose | exact Hstep]); done.
  - destruct (Gateway.sockets st !! i); [|done].
    injection Hstep as <- <-. split; [done | apply numbered_nil].
  - destruct (Gateway.timer_kind h st) as [[d|id method t|t]|]; [| | |done].
    + eapply Huse; [| | exact Hstep]; [done|].
      apply silent_numbers, silent_seq; [by intros ? | apply silent_connect].
    + eapply Huse; [| | exact Hstep]; [done|].
      apply silent_numbers. by intros ?.
    + eapply Huse; [done | | exact Hstep].
      apply silent_numbers. intros st0. unfold Gateway.sendRaw.
      destruct (Gateway.ws st0); [case_decide|]; done.
Qed.

Lemma numbers_run es : forall st st' out,
  Gateway.run st es = Some (st', out) ->
  Gateway.requestId st <= Gateway.requestId st' /\
  numbered (Gateway.requestId st) (Gateway.requestId st') (sentIds out).
Proof.
  induction es as [|e es IH]; intros st st' out; simpl.
  - intros [= <- <-]. split; [done | apply numbered_nil].
  - destruct (Gateway.step st e) as [[st1 out1]|] eqn:Hstep; [|done].
    destruct (Gateway.run st1 es) as [[st2 out2]|] eqn:Hrun; [|done].
    intros [= <- <-].
    destruct (numbers_step _ _ _ _ Hstep) as [Hle1 Hn1].
    destruct (IH _ _ _ Hrun) as [Hle2 Hn2].
    split; [lia|]. unfold sentIds. rewrite omap_app. by eapply numbered_app.
Qed.

(** X11. Request ids are never reused. Over anything that happens to a
    gateway client from any state, the ids of the request frames it sends
    ([connect] requests and callers' requests) are [pa-<n>] for strictly
    increasing numbers n, all above the value the counter had at the start
    and none above its value at the end; so no two frames sent carry the
    same id, and the counter never moves back. *)
Theorem request_ids_never_reused (st : Gateway.t) (es : list Gateway.Event)
    (st' : Gateway.t) (out : list Gateway.Effect) :
  Gateway.run st es = Some (st', out) ->
  Gateway.requestId st <= Gateway.requestId st' /\
  NoDup (sentIds out) /\
  exists ns,
    sentIds out = Gateway.requestIdName <$> ns /\
    StronglySorted lt ns /\
    Forall (fun n => Gateway.requestId st < n <= Gateway.requestId st') ns.
Proof.
  intros Hrun. destruct (numbers_run _ _ _ _ Hrun) as [Hle (ns & Hids & Hs & Hr)].
  split; [done|]. split; [|by exists ns].
  rewrite Hids. apply NoDup_fmap_2; [intros n m; apply requestIdName_inj|].
  clear Hids Hr. induction Hs as [|n ns Hs IH Hall]; [constructor|].
  apply NoDup_cons. split; [|done].
  intros Hin. eapply Forall_forall in Hall; [|done]. lia.
Qed.

Lemma request_ids_never_reused_witness :
  exists st' out,
    Gateway.run connectedClient
      [Gateway.CallRequest (js "system-presence") (JObj []) 10000;
       Gateway.SockMessage 0 (Some challenge);
       Gateway.CallRequest (js "exec.approval.resolve") approvalParams 10000]
    = Some (st', out) /\
    NoDup (sentIds out) /\
    sentIds out = [js "pa-2"; js "pa-3"; js "pa-4"].
Proof.
  destruct (Gateway.run connectedClient
              [Gateway.CallRequest (js "system-presence") (JObj []) 10000;
               Gateway.SockMessage 0 (Some challenge);
               Gateway.CallRequest (js "exec.approval.resolve") approvalParams 10000])
    as [[st' out]|] eqn:Hrun; [|by vm_compute in Hrun].
  exists st', out. split; [done|]. split.
  - exact (proj1 (proj2 (request_ids_never_reused connectedClient _ st' out Hrun))).
  - vm_compute in Hrun. by injection Hrun as _ <-.
Defined.

(** ** The reconnect delay *)

Lemma delays_same st st0 :
  delays_ok st ->
  Gateway.reconnectDelay st0 = Gateway.reconnectDelay st ->
  (forall h d, (h, Gateway.ReconnectTimer d) ∈ Gateway.timers st0 ->
               (h, Gateway.ReconnectTimer d) ∈ Gateway.timers st) ->
  delays_ok st0.
Proof. intros [Hd Ht] H1 H2. split; [by rewrite H1 | eauto]. Qed.

Lemma delays_setState s detail : preserved delays_ok (Gateway.setState s detail).
Proof. by intros st Hd. Qed.

Lemma delays_scheduleReconnect : preserved delays_ok Gateway.scheduleReconnect.
Proof.
  intros st [Hd Ht]. unfold Gateway.scheduleReconnect.
  destruct (Gateway.reconnectTimer st); simpl; [by split|].
  split; simpl.
  - unfold delay_in_range, Gateway.maxReconnectDelay in *. lia.
  - intros h d [Hin|[= _ ->]]%elem_of_armed; [by eapply Ht | done].
Qed.

Lemma delays_cleanup : preserved delays_ok Gateway.cleanup.
Proof.
  intros st Hd. eapply delays_same; [done | done |].
  by intros h d [? _]%cleanup_timers.
Qed.

Lemma delays_connect throws : preserved delays_ok (Gateway.connect throws).
Proof.
  intros st Hd. unfold Gateway.connect. case_decide as Hc; [done|]. clear Hc.
  revert st Hd. apply preserved_seq; [apply delays_setState|].
  intros st Hd. destruct throws; [|done].
  revert st Hd. apply preserved_seq; [apply delays_setState|].
  apply delays_scheduleReconnect.
Qed.

Lemma delays_disconnect : preserved delays_ok Gateway.disconnect.
Proof.
  intros st Hd. eapply delays_same; [done | |].
  - unfold Gateway.disconnect. rewrite !seq_act_fst.
    by destruct (Gateway.reconnectTimer st).
  - by intros h d [? _]%disconnect_timers_subset.
Qed.

Lemma delays_request method params timeoutMs :
  preserved delays_ok (Gateway.request method params timeoutMs).
Proof.
  intros st Hd. unfold Gateway.request. case_decide; [|done]. simpl.
  apply (preserved_sendRaw delays_ok).
  eapply delays_same; [done | done |]. simpl.
  by intros h d [?|[= _ ?]]%elem_of_armed.
Qed.

Lemma delays_onConnected hello : preserved delays_ok (Gateway.onConnected hello).
Proof.
  unfold Gateway.onConnected. repeat apply preserved_seq.
  - intros st [_ Ht]. split; [|done]. simpl.
    unfold delay_in_range, Gateway.maxReconnectDelay. lia.
  - apply delays_setState.
  - intros st Hd. eapply delays_same; [done | done |]. simpl.
    by intros h d [?|[= _ ?]]%elem_of_armed.
  - apply preserved_effect.
Qed.

Lemma delays_handleFrame frame : preserved delays_ok (Gateway.handleFrame frame).
Proof.
  destruct frame as [ev p|id ok payload err|]; simpl.
  - case_decide; [|apply preserved_effect].
    intros st Hd. unfold Gateway.sendConnectRequest.
    by apply (preserved_sendRaw delays_ok).
  - intros st Hd.
    destruct (JsMap.get id (Gateway.pendingRequests st)) as [timer|]; [|done].
    match goal with |- context [Gateway.mk ?a ?b ?c ?d ?e ?f ?g ?h ?i ?j] =>
      assert (delays_ok (Gateway.mk a b c d e f g h i j)) as Hd1 end.
    { eapply delays_same; [done | done |]. simpl. by intros h d [_ ?]%elem_of_disarm. }
    destruct ok; [|done].
    revert Hd1. apply preserved_seq; [|apply preserved_effect].
    intros st0 Hd0. destruct payload as [hello|]; [|done].
    case_decide; [by apply delays_onConnected | done].
  - apply preserved_skip.
Qed.

Lemma delays_onClose : preserved delays_ok Gateway.onClose.
Proof.
  unfold Gateway.onClose. repeat apply preserved_seq.
  - apply delays_cleanup.
  - apply delays_setState.
  - apply delays_scheduleReconnect.
Qed.

Lemma delays_step st e st' out :
  delays_ok st -> Gateway.step st e = Some (st', out) -> delays_ok st'.
Proof.
  intros Hd Hstep.
  assert (forall f st0, delays_ok st0 -> preserved delays_ok f ->
            Some (f st0) = Some (st', out) -> delays_ok st') as Huse.
  { intros f st0 H0 Hf [= Heq]. specialize (Hf st0 H0). by rewrite Heq in Hf. }
  assert (delays_ok (Gateway.set_timers (Gateway.disarm
            match e with Gateway.TimerFires h _ => h | _ => 0 end
            (Gateway.timers st)) st)) as Hdis.
  { eapply delays_same; [done | done |]. simpl. by intros h d [_ ?]%elem_of_disarm. }
  destruct e as [throws| |method params timeoutMs|i|i parsed|i|i|h throws];
    simpl in Hstep.
  - eapply Huse; [exact Hd | apply delays_connect | done].
  - eapply Huse; [exact Hd | apply delays_disconnect | done].
  - eapply Huse; [exact Hd | apply delays_request | done].
  - destruct (Gateway.sockets st !! i) as [[]|]; try done.
    eapply Huse; [| apply (delays_setState handshaking) | exact Hstep]. exact Hd.
  - destruct (Gateway.sockets st !! i) as [[]|]; try done;
      (eapply Huse; [exact Hd | | exact Hstep]);
      (destruct parsed; [apply delays_handleFrame | apply preserved_skip]).
  - destruct (Gateway.sockets st !! i) as [[]|]; try done;
      (eapply Huse; [| apply delays_onClose | exact Hstep]); exact Hd.
  - destruct (Gateway.sockets st !! i); [|done]. by injection Hstep as <- <-.
  - destruct (Gateway.timer_kind h st) as [[d|id method t|t]|]; [| | |done].
    + eapply Huse; [exact Hdis | | exact Hstep].
      apply preserved_seq; [by intros ? ? | apply delays_connect].
    + eapply Huse; [exact Hdis | | exact Hstep]. by intros ? ?.
    + eapply Huse; [exact Hd | apply preserved_sendRaw | exact Hstep].
Qed.

(** X12. The delay of a reconnect is always between one second and thirty
    seconds: whatever happens to a client whose delay and armed reconnect
    timers are within that range, they stay within it, for the delay the
    next reconnect will wait and for every reconnect timer that is armed.
    The initial state is such a client. *)
Theorem reconnect_delay_in_range (st : Gateway.t) (es : list Gateway.Event)
    (st' : Gateway.t) (out : list Gateway.Effect) :
  (1000 <= Gateway.reconnectDelay st <= 30000)%Z ->
  (forall h d, (h, Gateway.ReconnectTimer d) ∈ Gateway.timers st ->
               (1000 <= d <= 30000)%Z) ->
  Gateway.run st es = Some (st', out) ->
  (1000 <= Gateway.reconnectDelay st' <= 30000)%Z /\
  (forall h d, (h, Gateway.ReconnectTimer d) ∈ Gateway.timers st' ->
               (1000 <= d <= 30000)%Z) /\
  (1000 <= Gateway.reconnectDelay Gateway.init <= 30000)%Z /\
  Gateway.timers Gateway.init = [].
Proof.
  intros H1 H2 Hrun.
  assert (delays_ok st') as [Hd' Ht'];
    [|split; [exact Hd'|]; split; [exact Ht'|]; split; [by vm_compute | done]].
  assert (delays_ok st) as Hd by by split.
  clear H1 H2. revert st st' out Hd Hrun.
  induction es as [|e es IH]; intros st st' out Hd; simpl.
  - by intros [= <- _].
  - destruct (Gateway.step st e) as [[st1 out1]|] eqn:Hstep; [|done].
    destruct (Gateway.run st1 es) as [[st2 out2]|] eqn:Hrun; [|done].
    intros [= <- _]. eapply IH; [|done]. by eapply delays_step.
Qed.

Lemma reconnect_delay_in_range_witness :
  exists st out,
    Gateway.run Gateway.init (failedAttempts 6) = Some (st, out) /\
    (1000 <= Gateway.reconnectDelay st <= 30000)%Z.
Proof.
  assert (1000 <= Gateway.reconnectDelay Gateway.init <= 30000)%Z as H1
    by (simpl; lia).
  assert (forall h d, (h, Gateway.ReconnectTimer d) ∈ Gateway.timers Gateway.init ->
                      (1000 <= d <= 30000)%Z) as H2.
  { intros h d Hin. exfalso. exact (proj1 (elem_of_nil _) Hin). }
  destruct (failedAttempts_run 6) as [out Hrun].
  exists (afterFailures 6), out. split; [exact Hrun|].
  exact (proj1 (reconnect_delay_in_range Gateway.init (failedAttempts 6) _ out
                  H1 H2 Hrun)).
Defined.

(** ** The close of a socket *)



(** * More of the dashboard server *)

(** ** Clients and broadcasts *)

Lemma clients_after_snoc es e :
  DashboardServer.clients_after (es ++ [e])
  = DashboardServer.client_step (DashboardServer.clients_after es) e.
Proof. unfold DashboardServer.clients_after. by rewrite foldl_app. Qed.

Lemma present_snoc ws es e :
  present ws (es ++ [e])
  = match e with
    | DashboardServer.Connection w => if decide (w = ws) then true else present ws es
    | DashboardServer.Close w => if decide (w = ws) then false else present ws es
    end.
Proof. unfold present. by rewrite foldl_app. Qed.

Lemma NoDup_addClient ws clients :
  NoDup clients -> NoDup (DashboardServer.addClient ws clients).
Proof.
  intros Hnd. unfold DashboardServer.addClient. case_decide; [done|].
  apply NoDup_app. split; [done|]. split; [|apply NoDup_singleton].
  by intros x Hx ->%list_elem_of_singleton.
Qed.

Lemma elem_of_addClient ws clients c :
  c ∈ DashboardServer.addClient ws clients <-> c = ws \/ c ∈ clients.
Proof.
  unfold DashboardServer.addClient. case_decide.
  - split; [by right | by intros [->|?]].
  - rewrite elem_of_app, list_elem_of_singleton. tauto.
Qed.

Lemma elem_of_onClose ws clients c :
  c ∈ DashboardServer.onClose ws clients <-> c ≠ ws /\ c ∈ clients.
Proof. apply (list_elem_of_filter (fun c : nat => c ≠ ws)). Qed.

Lemma clients_after_spec es :
  NoDup (DashboardServer.clients_after es) /\
  forall ws, ws ∈ DashboardServer.clients_after es <-> present ws es = true.
Proof.
  induction es as [|e es [IH1 IH2]] using rev_ind.
  - split; [apply NoDup_nil_2|]. intros ws. split; [by intros ?%elem_of_nil | done].
  - rewrite clients_after_snoc. split.
    + destruct e as [w|w]; unfold DashboardServer.client_step;
        [by apply NoDup_addClient | by apply NoDup_filter].
    + intros ws. rewrite present_snoc.
      destruct e as [w|w]; unfold DashboardServer.client_step.
      * rewrite elem_of_addClient, IH2. case_decide; [by split; [|left]|].
        split; [by intros [?|?] | by right].
      * rewrite elem_of_onClose, IH2. case_decide; [by split; [intros []|]|].
        split; [by intros [_ ?] | done].
Qed.

Lemma broadcast_filter readyState clients msg :
  DashboardServer.broadcast readyState clients msg
  = (fun ws => (ws, msg)) <$> filter (fun ws => readyState ws = OPEN) clients.
Proof.
  unfold DashboardServer.broadcast. induction clients as [|c clients IH]; [done|].
  csimpl. rewrite filter_cons, IH. by case_decide.
Qed.

(** X14. Whatever browsers have connected and closed, a broadcast hands
    the message exactly once to each browser whose last event is its
    connection and whose socket is open, in the order in which they
    joined, and to no other. *)
Theorem broadcast_reaches_open_clients (es : list DashboardServer.ClientEvent)
    (readyState : nat -> ReadyState) (msg : DashboardMessage) :
  let clients := DashboardServer.clients_after es in
  let sent := DashboardServer.broadcast readyState clients msg in
  NoDup clients /\
  (forall ws, ws ∈ clients <-> present ws es = true) /\
  sent = (fun ws => (ws, msg)) <$> filter (fun ws => readyState ws = OPEN) clients /\
  NoDup sent /\
  (forall ws m, (ws, m) ∈ sent <->
                m = msg /\ present ws es = true /\ readyState ws = OPEN).
Proof.
  intros clients sent. destruct (clients_after_spec es) as [Hnd Hin].
  assert (sent = (fun ws => (ws, msg)) <$> filter (fun ws => readyState ws = OPEN) clients)
    as Hsent by apply broadcast_filter.
  split_and!; try done.
  - rewrite Hsent. apply NoDup_fmap_2; [by intros ? ? [= ->]|]. by apply NoDup_filter.
  - intros ws m. rewrite Hsent, list_elem_of_fmap. split.
    + intros (c & [= -> ->] & [Hopen Hc]%list_elem_of_filter). by rewrite <- Hin.
    + intros (-> & Hp & Hopen). exists ws. split; [done|].
      apply list_elem_of_filter. split; [done|]. by apply Hin.
Qed.

(** ** Saving a layout *)

(** X15. A [saveLayout] message and the store. The message is acted on
    when its [layout] is truthy, has a number as [version] and an array as
    [tiles]; otherwise the store is left alone. When it is acted on and the
    write succeeds, the stored layout is read back, and sent in the next
    snapshot, only if its [version] is 1: a layout of any other version is
    written all the same, and from then on the store reads as empty,
    whatever it held before. A write that throws leaves the file as it
    was. *)
Theorem saveLayout_read_back (msg layout : json) (file : LayoutStore.File) :
  DashboardServer.has_type "saveLayout" msg = true ->
  prop (js "layout") msg = Some layout ->
  let stored := DashboardServer.onMessage_file (Some msg) false file in
  let acted :=
    truthy_json (Some layout) && isNumber (prop (js "version") layout)
    && isArray (prop (js "tiles") layout) in
  (acted = false -> stored = file) /\
  (acted = true -> stored = LayoutStore.Parsed layout) /\
  (acted = true -> prop (js "version") layout = Some (JNum 1) ->
   LayoutStore.readLayout stored = Some layout /\
   forall ws env translator gateway,
     Dashboard.storedLayout env = LayoutStore.readLayout stored ->
     Dashboard.sendTo ws (layoutLoaded layout)
       `sublist_of` Dashboard.sendInitialState ws env translator gateway) /\
  (acted = true -> prop (js "version") layout ≠ Some (JNum 1) ->
   LayoutStore.readLayout stored = None) /\
  DashboardServer.onMessage_file (Some msg) true file = file.
Proof.
  intros Htype Hlayout stored acted.
  assert (DashboardServer.handleBrowserMessage msg
          = if acted then DashboardServer.WriteLayout layout
            else DashboardServer.NoAction) as Hact.
  { unfold DashboardServer.handleBrowserMessage, DashboardServer.has_type in *.
    destruct (prop (js "type") msg) as [[]|]; try done.
    apply bool_decide_eq_true in Htype. subst.
    rewrite !bool_decide_false by (by apply literal_ne).
    rewrite bool_decide_true by done. by rewrite Hlayout. }
  assert (stored = if acted then LayoutStore.Parsed layout else file) as Hstored.
  { subst stored. unfold DashboardServer.onMessage_file. simpl. rewrite Hact.
    by destruct acted. }
  assert (DashboardServer.onMessage_file (Some msg) true file = file) as Hthrows.
  { unfold DashboardServer.onMessage_file. simpl. rewrite Hact. by destruct acted. }
  assert (acted = true -> isArray (prop (js "tiles") layout) = true) as Harr.
  { subst acted. by intros [_ ?]%andb_true_iff. }
  clearbody stored acted. subst stored.
  split_and!; try done.
  - by intros ->.
  - by intros ->.
  - intros Ha Hv.
    assert (LayoutStore.readLayout (if acted then LayoutStore.Parsed layout else file)
            = Some layout) as Hread.
    { rewrite Ha. simpl. unfold LayoutStore.accepted. by rewrite Hv, (Harr Ha). }
    split; [done|].
    intros ws env translator gateway Henv.
    unfold Dashboard.sendInitialState. rewrite Henv, Hread. simpl.
    do 3 apply sublist_inserts_l. by apply sublist_inserts_r.
  - intros Ha Hv. rewrite Ha. simpl. unfold LayoutStore.accepted.
    destruct (prop (js "version") layout) as [[| |z| | |]|]; try done. simpl.
    rewrite bool_decide_false; [done|]. intros ->. by apply Hv.
Qed.

Lemma saveLayout_read_back_witness :
  let file := LayoutStore.Parsed (layoutOfVersion 1) in
  let stored :=
    DashboardServer.onMessage_file (Some (saveLayoutMessage (layoutOfVersion 2)))
      false file in
  LayoutStore.readLayout file = Some (layoutOfVersion 1) /\
  stored = LayoutStore.Parsed (layoutOfVersion 2) /\
  LayoutStore.readLayout stored = None.
Proof.
  intros file stored.
  destruct (saveLayout_read_back (saveLayoutMessage (layoutOfVersion 2))
              (layoutOfVersion 2) file)
    as (_ & Hstored & _ & Hread & _); [by_eval | by_eval |].
  split; [by_eval|]. split.
  - by apply Hstored.
  - apply Hread; [done|]. by vm_compute.
Defined.

(** ** Approvals from a browser *)

Lemma has_type_other (t t' : string) msg :
  DashboardServer.has_type t msg = true -> t ≠ t' ->
  DashboardServer.has_type t' msg = false.
Proof.
  unfold DashboardServer.has_type. destruct (prop (js "type") msg) as [[]|]; try done.
  intros ->%bool_decide_eq_true Hne. apply bool_decide_eq_false. by apply literal_ne.
Qed.

(** X16. An approval from a browser, with a gateway client in any state
    it reaches from its initial state. An [approveExec] message whose [id]
    is the id of a session the translator tracks makes [resolveApproval]
    call [request], and the request is rejected on the spot with [Gateway
    not connected], without a frame being sent; [resolveApproval] then
    emits nothing. A message of any other type, an [approveExec] for an id
    that no session has, and a text that does not parse bring about
    nothing at the gateway client. In every case the client is left as it
    was. *)
Theorem browser_approval_not_delivered (es : list Gateway.Event)
    (gateway : Gateway.t) (out : list Gateway.Effect)
    (parsed : option json) (translator : Translator.t) :
  Gateway.run Gateway.init es = Some (gateway, out) ->
  let r := DashboardServer.onMessage_gateway parsed translator gateway in
  let rejected :=
    [Gateway.RejectUnsent
       (js "Gateway not connected (state: "
          ++ Gateway.state_name (Gateway.state gateway) ++ js ")")] in
  r.1 = gateway /\
  (r.2 = [] \/ r.2 = rejected) /\
  (forall id approved,
      EventTranslator.resolveApproval_settled id approved false = []) /\
  (forall msg k id,
      parsed = Some msg ->
      DashboardServer.has_type "approveExec" msg = true ->
      prop (js "id") msg = Some (JNum (Z.of_nat id)) ->
      (k, id) ∈ Translator.sessionToId translator ->
      r.2 = rejected) /\
  (forall msg,
      parsed = Some msg ->
      DashboardServer.has_type "approveExec" msg = false ->
      r.2 = []) /\
  (forall msg,
      parsed = Some msg ->
      (forall k id, (k, id) ∈ Translator.sessionToId translator ->
                    prop (js "id") msg ≠ Some (JNum (Z.of_nat id))) ->
      r.2 = []) /\
  (parsed = None -> r.2 = []).
Proof.
  intros Hrun r rejected.
  pose proof (never_connected_run _ _ _ _ never_connected_init Hrun) as [Hs _].
  assert (forall method params timeoutMs,
            Gateway.request method params timeoutMs gateway = (gateway, rejected))
    as Hreq.
  { intros. unfold Gateway.request. by rewrite decide_False. }
  assert (forall agentId approved,
            match EventTranslator.resolveApproval_call agentId approved translator with
            | Some (_, call) => call gateway = (gateway, rejected)
            | None => True
            end) as Hcall.
  { intros agentId approved. unfold EventTranslator.resolveApproval_call.
    destruct (list_find _ _) as [[i [k n]]|]; [apply Hreq | done]. }
  assert (r.1 = gateway /\ (r.2 = [] \/ r.2 = rejected)) as [H1 H2].
  { subst r. unfold DashboardServer.onMessage_gateway.
    destruct (DashboardServer.handleBrowserMessage <$> parsed) as [[| agentId approved | |]|];
      try (split; [reflexivity | left; reflexivity]).
    pose proof (Hcall agentId approved) as Hc.
    destruct (EventTranslator.resolveApproval_call agentId approved translator)
      as [[n call]|]; [|split; [reflexivity | left; reflexivity]].
    rewrite Hc. split; [reflexivity | right; reflexivity]. }
  split; [exact H1|]. split; [exact H2|]. split; [reflexivity|].
  split; [|split; [|split]].
  - intros msg k id -> Htype Hid Hin. subst r.
    unfold DashboardServer.onMessage_gateway, DashboardServer.handleBrowserMessage.
    cbn [fmap option_fmap option_map].
    rewrite (has_type_other "approveExec" "webviewReady" msg Htype) by discriminate.
    rewrite Htype, Hid.
    pose proof (Hcall (Some (JNum (Z.of_nat id))) (prop (js "approved") msg)) as Hc.
    destruct (EventTranslator.resolveApproval_call (Some (JNum (Z.of_nat id)))
                (prop (js "approved") msg) translator) as [[n call]|] eqn:Hfound.
    + by rewrite Hc.
    + exfalso. unfold EventTranslator.resolveApproval_call in Hfound.
      destruct (list_find (fun entry : jsstring * nat =>
                             is_number entry.2 (Some (JNum (Z.of_nat id))) = true)
                  (Translator.sessionToId translator)) as [[i [k' n']]|] eqn:Hfind;
        [discriminate Hfound|].
      apply list_find_None in Hfind.
      eapply Forall_forall in Hfind; [|exact Hin]. apply Hfind.
      by apply is_number_spec.
  - intros msg -> Htype. subst r.
    unfold DashboardServer.onMessage_gateway, DashboardServer.handleBrowserMessage.
    cbn [fmap option_fmap option_map]. rewrite Htype.
    destruct (DashboardServer.has_type "webviewReady" msg); [reflexivity|].
    destruct (DashboardServer.has_type "saveLayout" msg); [|reflexivity].
    destruct (prop (js "layout") msg) as [layout|]; [|reflexivity].
    by destruct (_ && _).
  - intros msg -> Hnone. subst r.
    unfold DashboardServer.onMessage_gateway.
    destruct (DashboardServer.handleBrowserMessage <$> Some msg)
      as [[| agentId approved | |]|] eqn:Hact; try reflexivity.
    assert (agentId = prop (js "id") msg) as ->.
    { cbn [fmap option_fmap option_map] in Hact. injection Hact as Hact.
      unfold DashboardServer.handleBrowserMessage in Hact.
      destruct (DashboardServer.has_type "webviewReady" msg); [discriminate Hact|].
      destruct (DashboardServer.has_type "approveExec" msg); [by injection Hact|].
      destruct (DashboardServer.has_type "saveLayout" msg); [|discriminate Hact].
      destruct (prop (js "layout") msg) as [layout|]; [|discriminate Hact].
      destruct (_ && _); discriminate Hact. }
    unfold EventTranslator.resolveApproval_call.
    destruct (list_find _ _) as [[i [k n]]|] eqn:Hfind; [|reflexivity].
    exfalso. apply list_find_Some in Hfind as (Hi & Hn & _).
    apply list_elem_of_lookup_2 in Hi. apply (Hnone k n Hi).
    by apply is_number_spec.
  - intros ->. reflexivity.
Qed.

Lemma browser_approval_not_delivered_witness :
  exists gateway out,
    Gateway.run Gateway.init handshakeAfterFailure = Some (gateway, out) /\
    DashboardServer.onMessage_gateway (Some (approveExecMessage 1 true))
      (Translator.run Translator.init approvalPending).1 gateway
    = (gateway,
       [Gateway.RejectUnsent (js "Gateway not connected (state: handshaking)")]).
Proof.
  destruct (Gateway.run Gateway.init handshakeAfterFailure) as [[gateway out]|] eqn:Hrun;
    [|by vm_compute in Hrun].
  destruct (browser_approval_not_delivered handshakeAfterFailure gateway out
              (Some (approveExecMessage 1 true))
              (Translator.run Translator.init approvalPending).1 Hrun)
    as (Hfst & _ & _ & Hrej & _).
  assert (Gateway.state gateway = handshaking) as Hstate.
  { vm_compute in Hrun. by injection Hrun as <- _. }
  exists gateway, out. split; [reflexivity|].
  apply injective_projections.
  - exact Hfst.
  - rewrite (Hrej (approveExecMessage 1 true) (js "support-triage") 1 eq_refl eq_refl
               eq_refl (list_elem_of_here _ _)).
    cbn [snd]. by rewrite Hstate.
Defined.

(** * The asset loader *)

(** ** Colours *)

Lemma hex2_table :
  forallb (fun n =>
             bool_decide
               (AssetLoader.padStart 2 48%N (AssetLoader.toString16 (N.of_nat n))
                = [AssetLoader.hexDigit (N.of_nat n / 16);
                   AssetLoader.hexDigit (N.of_nat n mod 16)]))
    (seq 0 256) = true.
Proof. by vm_compute. Qed.

Lemma hex2_byte x :
  is_byte x ->
  AssetLoader.padStart 2 48%N (AssetLoader.toString16 x)
  = [AssetLoader.hexDigit (x / 16); AssetLoader.hexDigit (x mod 16)].
Proof.
  intros Hx. pose proof hex2_table as Ht.
  rewrite forallb_forall in Ht. specialize (Ht (N.to_nat x)).
  rewrite N2Nat.id in Ht. apply bool_decide_eq_true in Ht; [done|].
  apply in_seq. unfold is_byte in Hx. lia.
Qed.

Lemma hexDigit_digit d : (d < 16)%N -> is_hex_digit (AssetLoader.hexDigit d).
Proof.
  intros Hd. unfold AssetLoader.hexDigit, is_hex_digit.
  destruct (N.ltb_spec d 10); lia.
Qed.

Lemma hexDigit_inj d e :
  (d < 16)%N -> (e < 16)%N ->
  AssetLoader.hexDigit d = AssetLoader.hexDigit e -> d = e.
Proof.
  unfold AssetLoader.hexDigit. intros Hd He.
  destruct (N.ltb_spec d 10), (N.ltb_spec e 10); lia.
Qed.

(** X17. The colour of an opaque pixel. For bytes [r], [g], [b] the
    string [rgbaToHex] makes is [#] followed by six digits out of [0-9a-f],
    two for each byte with the high digit first, so it is never the empty
    string that marks a transparent pixel; and different colours give
    different strings. *)
Theorem rgbaToHex_bytes (r g b : N) :
  is_byte r -> is_byte g -> is_byte b ->
  AssetLoader.rgbaToHex r g b
  = js "#" ++ [AssetLoader.hexDigit (r / 16); AssetLoader.hexDigit (r mod 16);
               AssetLoader.hexDigit (g / 16); AssetLoader.hexDigit (g mod 16);
               AssetLoader.hexDigit (b / 16); AssetLoader.hexDigit (b mod 16)] /\
  length (AssetLoader.rgbaToHex r g b) = 7 /\
  Forall is_hex_digit (drop 1 (AssetLoader.rgbaToHex r g b)) /\
  forall r' g' b',
    is_byte r' -> is_byte g' -> is_byte b' ->
    AssetLoader.rgbaToHex r g b = AssetLoader.rgbaToHex r' g' b' ->
    r = r' /\ g = g' /\ b = b'.
Proof.
  intros Hr Hg Hb.
  assert (forall x y z, is_byte x -> is_byte y -> is_byte z ->
            AssetLoader.rgbaToHex x y z
            = js "#" ++ [AssetLoader.hexDigit (x / 16); AssetLoader.hexDigit (x mod 16);
                         AssetLoader.hexDigit (y / 16); AssetLoader.hexDigit (y mod 16);
                         AssetLoader.hexDigit (z / 16); AssetLoader.hexDigit (z mod 16)])
    as Heq.
  { intros x y z Hx Hy Hz. unfold AssetLoader.rgbaToHex. simpl.
    by rewrite !hex2_byte. }
  assert (forall x, is_byte x -> (x / 16 < 16)%N /\ (x mod 16 < 16)%N) as Hd.
  { intros x Hx. unfold is_byte in Hx. split.
    - apply N.Div0.div_lt_upper_bound; lia.
    - apply N.mod_lt; lia. }
  split; [by apply Heq|]. split; [by rewrite Heq|]. split.
  - rewrite Heq by done. simpl.
    repeat (apply Forall_cons; split; [apply hexDigit_digit; by apply Hd|]).
    apply Forall_nil_2.
  - intros r' g' b' Hr' Hg' Hb'. rewrite !Heq by done.
    pose proof (Hd r Hr) as [? ?]. pose proof (Hd g Hg) as [? ?].
    pose proof (Hd b Hb) as [? ?]. pose proof (Hd r' Hr') as [? ?].
    pose proof (Hd g' Hg') as [? ?]. pose proof (Hd b' Hb') as [? ?].
    unfold is_byte in *.
    intros [= E1%hexDigit_inj E2%hexDigit_inj E3%hexDigit_inj E4%hexDigit_inj
              E5%hexDigit_inj E6%hexDigit_inj]; try done.
    rewrite (N.div_mod r 16), (N.div_mod r' 16), (N.div_mod g 16), (N.div_mod g' 16),
      (N.div_mod b 16), (N.div_mod b' 16) by lia.
    split_and!; congruence.
Qed.

Lemma rgbaToHex_bytes_witness :
  AssetLoader.rgbaToHex 255 128 9 = js "#ff8009".
Proof.
  destruct (rgbaToHex_bytes 255 128 9) as [-> _]; by vm_compute.
Defined.

(** ** Regions *)

Lemma cell_total png px py : is_Some (AssetLoader.cell png px py).
Proof.
  unfold AssetLoader.cell.
  set (idx := (py * AssetLoader.width png + px) * 4).
  destruct (AssetLoader.data png !! (idx + 3)) as [a|] eqn:Ha; simpl; [|by eexists].
  destruct (AssetLoader.ALPHA_THRESHOLD <=? a)%N; [|by eexists].
  apply lookup_lt_Some in Ha.
  destruct (lookup_lt_is_Some_2 (AssetLoader.data png) idx) as [r ->]; [lia|].
  destruct (lookup_lt_is_Some_2 (AssetLoader.data png) (idx + 1)) as [g ->]; [lia|].
  destruct (lookup_lt_is_Some_2 (AssetLoader.data png) (idx + 2)) as [b ->]; [lia|].
  by eexists.
Qed.

Lemma mapM_seq_lookup {B} (f : nat -> option B) n l i :
  mapM f (seq 0 n) = Some l -> i < n ->
  exists b, l !! i = Some b /\ f i = Some b.
Proof.
  intros Hl%mapM_Some_1 Hi.
  destruct (Forall2_lookup_l _ _ _ i i Hl) as (b & Hb & Hf); [by apply lookup_seq_lt|].
  by exists b.
Qed.

Lemma mapM_seq_total {B} (f : nat -> option B) n :
  (forall i, is_Some (f i)) ->
  exists l, mapM f (seq 0 n) = Some l /\ length l = n.
Proof.
  intros Hf. destruct (mapM_is_Some_2 f (seq 0 n)) as [l Hl].
  - apply Forall_forall. intros i _. apply Hf.
  - exists l. split; [done|]. apply length_mapM in Hl. by rewrite length_seq in Hl.
Qed.

Lemma extractRegion_spec png x y w h :
  exists sprite,
    AssetLoader.extractRegion png x y w h = Some sprite /\
    has_shape h w sprite /\
    forall row col, row < h -> col < w ->
      cell_at sprite row col = AssetLoader.cell png (x + col) (y + row) /\
      is_Some (cell_at sprite row col).
Proof.
  unfold AssetLoader.extractRegion.
  destruct (mapM_seq_total
              (fun row => mapM (fun col => AssetLoader.cell png (x + col) (y + row))
                            (seq 0 w)) h) as (sprite & Hs & Hlen).
  { intros row.
    destruct (mapM_seq_total (fun col => AssetLoader.cell png (x + col) (y + row)) w)
      as (line & -> & _); [intros; apply cell_total | by eexists]. }
  exists sprite. split; [done|]. split; [split; [done|]|].
  - apply Forall_forall. intros line [row Hrow]%list_elem_of_lookup.
    assert (row < h) as Hlt by (apply lookup_lt_Some in Hrow; lia).
    destruct (mapM_seq_lookup _ _ _ _ Hs Hlt) as (line' & Hl' & Hline).
    rewrite Hrow in Hl'. injection Hl' as <-.
    apply length_mapM in Hline. by rewrite length_seq in Hline.
  - intros row col Hrow Hcol.
    destruct (mapM_seq_lookup _ _ _ _ Hs Hrow) as (line & Hl & Hline).
    destruct (mapM_seq_lookup _ _ _ _ Hline Hcol) as (c & Hc & Hcell).
    unfold cell_at. rewrite Hl. simpl. rewrite Hc, Hcell. by split; [|eexists].
Qed.

(** X18. [extractRegion] never throws and makes no bounds check: for
    every image and every region, inside the image or not, it returns a
    sprite of [h] lines of [w] cells, and so does [pngToSpriteData] for the
    whole image, which is the region at the origin of the image's size. *)
Theorem extractRegion_never_throws (png : AssetLoader.PNG) (x y w h : nat) :
  (exists sprite,
      AssetLoader.extractRegion png x y w h = Some sprite /\
      length sprite = h /\
      Forall (fun line => length line = w) sprite) /\
  (exists sprite,
      AssetLoader.pngToSpriteData png = Some sprite /\
      length sprite = AssetLoader.height png /\
      Forall (fun line => length line = AssetLoader.width png) sprite) /\
  AssetLoader.pngToSpriteData png
  = AssetLoader.extractRegion png 0 0 (AssetLoader.width png) (AssetLoader.height png).
Proof.
  assert (AssetLoader.pngToSpriteData png
          = AssetLoader.extractRegion png 0 0 (AssetLoader.width png)
              (AssetLoader.height png)) as Hfull by done.
  split; [|split; [rewrite Hfull|done]].
  - destruct (extractRegion_spec png x y w h) as (sprite & Hs & [? ?] & _).
    by exists sprite.
  - destruct (extractRegion_spec png 0 0 (AssetLoader.width png) (AssetLoader.height png))
      as (sprite & Hs & [? ?] & _).
    by exists sprite.
Qed.

(** X19. A region that lies inside the image is the corresponding part of
    the whole image's sprite: its cell at line [row] and column [col] is
    the cell of [pngToSpriteData] at line [y + row] and column [x + col]. *)
Theorem region_of_image (png : AssetLoader.PNG) (x y w h : nat)
    (sprite full : list (list jsstring)) (row col : nat) :
  x + w <= AssetLoader.width png ->
  y + h <= AssetLoader.height png ->
  AssetLoader.extractRegion png x y w h = Some sprite ->
  AssetLoader.pngToSpriteData png = Some full ->
  row < h -> col < w ->
  is_Some (cell_at sprite row col) /\
  cell_at sprite row col = cell_at full (y + row) (x + col).
Proof.
  intros Hx Hy Hs Hf Hrow Hcol.
  destruct (extractRegion_spec png x y w h) as (sprite' & Hs' & _ & Hcells).
  rewrite Hs in Hs'. injection Hs' as <-.
  destruct (extractRegion_spec png 0 0 (AssetLoader.width png) (AssetLoader.height png))
    as (full' & Hf' & _ & Hfull).
  change (AssetLoader.pngToSpriteData png = Some full') in Hf'.
  rewrite Hf in Hf'. injection Hf' as <-.
  destruct (Hcells row col Hrow Hcol) as [-> Hsome].
  destruct (Hfull (y + row) (x + col)) as [-> _]; [lia | lia |].
  split; [by apply cell_total | done].
Qed.

Lemma region_of_image_witness :
  cell_at [[js "#00ff00"]; [[]]] 1 0 = cell_at [[js "#ff0000"; js "#00ff00"]; [js "#0000ff"; []]] 1 1.
Proof.
  apply (region_of_image fourPixels 1 0 1 2); by vm_compute.
Defined.

(** X20. A region that reaches past the image. In a decoded image, whose
    data holds four bytes for each pixel, a cell below the last line is
    transparent (the empty string), whatever its column; a cell to the
    right of the last column is the cell that many columns into the next
    line. *)
Theorem region_past_the_image (png : AssetLoader.PNG) (px py : nat) :
  length (AssetLoader.data png) = 4 * (AssetLoader.width png * AssetLoader.height png) ->
  (AssetLoader.height png <= py -> AssetLoader.cell png px py = Some []) /\
  AssetLoader.cell png (AssetLoader.width png + px) py = AssetLoader.cell png px (py + 1).
Proof.
  intros Hlen. split.
  - intros Hpy. unfold AssetLoader.cell.
    rewrite (lookup_ge_None_2 _ ((py * AssetLoader.width png + px) * 4 + 3)); [done|].
    rewrite Hlen. nia.
  - unfold AssetLoader.cell.
    replace ((py + 1) * AssetLoader.width png + px)
      with (py * AssetLoader.width png + (AssetLoader.width png + px)) by lia.
    done.
Qed.

Lemma region_past_the_image_witness :
  AssetLoader.cell fourPixels 1 2 = Some [] /\
  AssetLoader.cell fourPixels 2 0 = Some (js "#0000ff").
Proof.
  split.
  - exact (proj1 (region_past_the_image fourPixels 1 2 eq_refl) (le_n 2)).
  - change (AssetLoader.cell fourPixels (AssetLoader.width fourPixels + 0) 0
            = Some (js "#0000ff")).
    rewrite (proj2 (region_past_the_image fourPixels 0 0 eq_refl)). by vm_compute.
Defined.

(** ** Sprite sheets *)

Lemma mapM_total {A B} (f : A -> option B) l :
  (forall x, is_Some (f x)) ->
  exists k, mapM f l = Some k /\ length k = length l.
Proof.
  intros Hf. destruct (mapM_is_Some_2 f l) as [k Hk].
  - apply Forall_forall. intros x _. apply Hf.
  - exists k. split; [done|]. by apply length_mapM in Hk.
Qed.

Lemma mapM_lookup {A B} (f : A -> option B) l k i x :
  mapM f l = Some k -> l !! i = Some x -> exists b, k !! i = Some b /\ f x = Some b.
Proof.
  intros Hk%mapM_Some_1 Hx.
  destruct (Forall2_lookup_l _ _ _ i x Hk Hx) as (b & Hb & Hf). by exists b.
Qed.

Lemma extractRegion_total png x y w h :
  is_Some (AssetLoader.extractRegion png x y w h).
Proof. destruct (extractRegion_spec png x y w h) as (sprite & -> & _). by eexists. Qed.

Lemma character_frames png :
  exists frames,
    mapM (fun frame =>
            AssetLoader.extractRegion png (frame * AssetLoader.CHAR_FRAME_W) 0
              AssetLoader.CHAR_FRAME_W AssetLoader.CHAR_FRAME_H ≫= fun d =>
            AssetLoader.extractRegion png (frame * AssetLoader.CHAR_FRAME_W)
              AssetLoader.CHAR_FRAME_H
              AssetLoader.CHAR_FRAME_W AssetLoader.CHAR_FRAME_H ≫= fun u =>
            AssetLoader.extractRegion png (frame * AssetLoader.CHAR_FRAME_W)
              (AssetLoader.CHAR_FRAME_H * 2)
              AssetLoader.CHAR_FRAME_W AssetLoader.CHAR_FRAME_H ≫= fun r =>
            Some (d, u, r))
         (seq 0 AssetLoader.CHAR_FRAMES_PER_ROW) = Some frames /\
    length frames = 7.
Proof.
  apply mapM_total. intros frame.
  destruct (extractRegion_total png (frame * AssetLoader.CHAR_FRAME_W) 0
              AssetLoader.CHAR_FRAME_W AssetLoader.CHAR_FRAME_H) as [d ->].
  destruct (extractRegion_total png (frame * AssetLoader.CHAR_FRAME_W)
              AssetLoader.CHAR_FRAME_H
              AssetLoader.CHAR_FRAME_W AssetLoader.CHAR_FRAME_H) as [u ->].
  destruct (extractRegion_total png (frame * AssetLoader.CHAR_FRAME_W)
              (AssetLoader.CHAR_FRAME_H * 2)
              AssetLoader.CHAR_FRAME_W AssetLoader.CHAR_FRAME_H) as [r ->].
  by eexists.
Qed.

Lemma loadCharacterPng_total png : is_Some (AssetLoader.loadCharacterPng (Some png)).
Proof.
  destruct (character_frames png) as (frames & Hframes & _).
  unfold AssetLoader.loadCharacterPng. unfold mbind, option_bind in *.
  cbv beta iota. rewrite Hframes. by eexists.
Qed.

Lemma loadFloorTiles_total png :
  is_Some (AssetLoader.loadFloorTiles (Some (Some png))).
Proof.
  unfold AssetLoader.loadFloorTiles. unfold mbind at 1 2, option_bind. cbv beta iota.
  apply mapM_is_Some_2, Forall_forall. intros i _. apply extractRegion_total.
Qed.

Lemma loadWallTiles_total png :
  is_Some (AssetLoader.loadWallTiles (Some (Some png))).
Proof.
  unfold AssetLoader.loadWallTiles. unfold mbind at 1 2, option_bind. cbv beta iota.
  apply mapM_is_Some_2, Forall_forall. intros [row col] _. apply extractRegion_total.
Qed.

(** X21. A decoded sheet always loads, whatever its size, and its pieces
    are regions at fixed places. A character sheet gives seven frames for
    each of the three directions, frame [f] being the region of 16 by 32
    pixels at column [16 f] and line 0 (down), 32 (up) or 64 (right); the
    floor sheet gives seven tiles, tile [i] being the region of 16 by 16 at
    column [16 i] and line 0; the wall sheet gives sixteen pieces, the
    piece at index [4 row + col] being the region of 16 by 32 at column
    [16 col] and line [32 row]. *)
Theorem sprite_sheet_layout (png : AssetLoader.PNG) :
  (exists c,
      AssetLoader.loadCharacterPng (Some png) = Some c /\
      length (AssetLoader.down c) = 7 /\
      length (AssetLoader.up c) = 7 /\
      length (AssetLoader.right c) = 7 /\
      forall frame, frame < 7 ->
        AssetLoader.down c !! frame = AssetLoader.extractRegion png (frame * 16) 0 16 32 /\
        AssetLoader.up c !! frame = AssetLoader.extractRegion png (frame * 16) 32 16 32 /\
        AssetLoader.right c !! frame = AssetLoader.extractRegion png (frame * 16) 64 16 32) /\
  (exists tiles,
      AssetLoader.loadFloorTiles (Some (Some png)) = Some tiles /\
      length tiles = 7 /\
      forall i, i < 7 ->
        tiles !! i = AssetLoader.extractRegion png (i * 16) 0 16 16) /\
  (exists pieces,
      AssetLoader.loadWallTiles (Some (Some png)) = Some pieces /\
      length pieces = 16 /\
      forall row col, row < 4 -> col < 4 ->
        pieces !! (row * 4 + col)
        = AssetLoader.extractRegion png (col * 16) (row * 32) 16 32).
Proof.
  split_and!.
  - destruct (character_frames png) as (frames & Hframes & Hlen).
    unfold AssetLoader.loadCharacterPng. unfold mbind, option_bind in Hframes |- *.
    cbv beta iota.
    rewrite Hframes. simpl. eexists. split; [done|]. simpl.
    rewrite !length_fmap, Hlen. split_and!; try done.
    intros frame Hf. rewrite !list_lookup_fmap.
    destruct (mapM_seq_lookup _ _ _ _ Hframes Hf) as ([[d u] r] & -> & Hreg).
    simpl.
    change (AssetLoader.CHAR_FRAME_W) with 16 in Hreg.
    change (AssetLoader.CHAR_FRAME_H) with 32 in Hreg.
    change (32 * 2) with 64 in Hreg.
    destruct (AssetLoader.extractRegion png (frame * 16) 0 16 32); [|done].
    destruct (AssetLoader.extractRegion png (frame * 16) 32 16 32); [|done].
    destruct (AssetLoader.extractRegion png (frame * 16) 64 16 32); [|done].
    simpl in Hreg. by injection Hreg as -> -> ->.
  - unfold AssetLoader.loadFloorTiles. unfold mbind, option_bind. cbv beta iota.
    match goal with |- context [mapM ?f ?l] =>
      destruct (mapM_total f l) as (tiles & Htiles & Hlen) end.
    { intros i. apply extractRegion_total. }
    exists tiles. split; [done|]. split; [done|].
    intros i Hi. destruct (mapM_seq_lookup _ _ _ _ Htiles Hi) as (t & -> & Ht).
    by rewrite <- Ht.
  - unfold AssetLoader.loadWallTiles. unfold mbind at 1 2, option_bind.
    cbv beta iota.
    match goal with |- context [mapM ?f ?l] =>
      destruct (mapM_total f l) as (pieces & Hpieces & Hlen) end.
    { intros [row col]. apply extractRegion_total. }
    exists pieces. split; [done|]. split; [done|].
    intros row col Hrow Hcol.
    destruct (mapM_lookup _ _ _ (row * 4 + col) (row, col) Hpieces)
      as (p & -> & Hp); [|by rewrite <- Hp].
    destruct row as [|[|[|[|]]]]; try lia;
      destruct col as [|[|[|[|]]]]; try lia; reflexivity.
Qed.

(** X22. The loaders fail only on files. [loadCharacterPng] returns
    [null] exactly when the file cannot be read or decoded, the floor and
    the wall loader exactly when theirs does not exist or cannot be
    decoded; [loadCharacterSprites] returns the six characters when the
    directory exists and each of [char_0.png] to [char_5.png] exists and
    decodes, and [null] as soon as one of them does not. *)
Theorem loaders_fail_only_on_files (dirExists : bool)
    (files : nat -> option (option AssetLoader.PNG))
    (file : option (option AssetLoader.PNG)) (decoded : option AssetLoader.PNG) :
  (is_Some (AssetLoader.loadCharacterPng decoded) <-> is_Some decoded) /\
  (is_Some (AssetLoader.loadFloorTiles file) <-> exists png, file = Some (Some png)) /\
  (is_Some (AssetLoader.loadWallTiles file) <-> exists png, file = Some (Some png)) /\
  (is_Some (AssetLoader.loadCharacterSprites dirExists files) <->
   dirExists = true /\ forall i, i < 6 -> exists png, files i = Some (Some png)) /\
  (forall characters,
      AssetLoader.loadCharacterSprites dirExists files = Some characters ->
      length characters = 6 /\
      forall i, i < 6 ->
        characters !! i = files i ≫= AssetLoader.loadCharacterPng).
Proof.
  pose proof loadCharacterPng_total as Hchar.
  split_and!.
  - destruct decoded as [png|]; [|by split; intros [? ?]].
    split; [by eexists | intros _; apply Hchar].
  - destruct file as [[png|]|].
    + split; [by eexists|]. intros _. apply loadFloorTiles_total.
    + split; [by intros [? ?] | by intros [? ?]].
    + split; [by intros [? ?] | by intros [? ?]].
  - destruct file as [[png|]|].
    + split; [by eexists|]. intros _. apply loadWallTiles_total.
    + split; [by intros [? ?] | by intros [? ?]].
    + split; [by intros [? ?] | by intros [? ?]].
  - unfold AssetLoader.loadCharacterSprites. destruct dirExists.
    + rewrite mapM_is_Some, Forall_forall. split.
      * intros Hall. split; [done|]. intros i Hi.
        destruct (Hall i) as [c Hc]; [apply elem_of_seq; lia|].
        unfold compose in Hc.
        destruct (files i) as [[png|]|]; [by eexists |discriminate Hc..].
      * intros [_ Hall] i [_ Hi]%elem_of_seq.
        destruct (Hall i) as [png Hpng]; [lia|].
        unfold compose. rewrite Hpng. cbn [mbind option_bind]. apply Hchar.
    + split; [by intros [? ?] | by intros [? _]].
  - intros characters Hc. unfold AssetLoader.loadCharacterSprites in Hc.
    destruct dirExists; [|discriminate Hc].
    split; [apply length_mapM in Hc; by rewrite <- Hc|].
    intros i Hi. destruct (mapM_seq_lookup _ _ _ _ Hc Hi) as (c & -> & Hci).
    symmetry. exact Hci.
Qed.

(** * The browser's client: connecting and reconnecting *)

Lemma ws_seq_fst (f g : WsRuntime.act) st :
  (WsRuntime.seq_act f g st).1 = (g (f st).1).1.
Proof.
  unfold WsRuntime.seq_act. destruct (f st) as [s1 e1]. simpl.
  by destruct (g s1) as [s2 e2].
Qed.

Lemma ws_seq_snd (f g : WsRuntime.act) st :
  (WsRuntime.seq_act f g st).2 = (f st).2 ++ (g (f st).1).2.
Proof.
  unfold WsRuntime.seq_act. destruct (f st) as [s1 e1]. simpl.
  by destruct (g s1) as [s2 e2].
Qed.

Lemma ws_wf_same st st0 :
  ws_wf st ->
  WsRuntime.ws st0 = WsRuntime.ws st ->
  WsRuntime.sockets st0 = WsRuntime.sockets st ->
  WsRuntime.reconnectTimer st0 = WsRuntime.reconnectTimer st ->
  WsRuntime.timers st0 = WsRuntime.timers st ->
  WsRuntime.nextTimer st0 = WsRuntime.nextTimer st ->
  (1000 <= WsRuntime.reconnectDelay st0 <= WsRuntime.maxReconnectDelay)%Z ->
  ws_wf st0.
Proof.
  intros [H1 H2 H3 H4 H5] E1 E2 E3 E4 E5 Hd.
  split; rewrite ?E1, ?E2, ?E3, ?E4, ?E5; done.
Qed.

Lemma setState_fields s detail st :
  (WsRuntime.setState s detail st).1
  = WsRuntime.mk (WsRuntime.ws st) (WsRuntime.sockets st) (WsRuntime.reconnectTimer st)
      (WsRuntime.reconnectDelay st) s (WsRuntime.sendBuffer st) (WsRuntime.timers st)
      (WsRuntime.nextTimer st) /\
  (WsRuntime.setState s detail st).2 = [WsClient.Notified s detail].
Proof. done. Qed.

Lemma postMessage_fields m st :
  let st' := (WsRuntime.postMessage m st).1 in
  WsRuntime.ws st' = WsRuntime.ws st /\
  WsRuntime.sockets st' = WsRuntime.sockets st /\
  WsRuntime.reconnectTimer st' = WsRuntime.reconnectTimer st /\
  WsRuntime.reconnectDelay st' = WsRuntime.reconnectDelay st /\
  WsRuntime.state st' = WsRuntime.state st /\
  WsRuntime.timers st' = WsRuntime.timers st /\
  WsRuntime.nextTimer st' = WsRuntime.nextTimer st.
Proof.
  unfold WsRuntime.postMessage, WsRuntime.lift, WsClient.postMessage. simpl.
  by case_decide.
Qed.

Lemma onopen_fields st :
  let st' := (WsRuntime.onopen st).1 in
  WsRuntime.ws st' = WsRuntime.ws st /\
  WsRuntime.sockets st' = WsRuntime.sockets st /\
  WsRuntime.reconnectTimer st' = WsRuntime.reconnectTimer st /\
  WsRuntime.reconnectDelay st' = 1000%Z /\
  WsRuntime.state st' = WsClient.ws_connected /\
  WsRuntime.timers st' = WsRuntime.timers st /\
  WsRuntime.nextTimer st' = WsRuntime.nextTimer st.
Proof.
  unfold WsRuntime.onopen, WsRuntime.lift, WsClient.onopen, WsClient.postMessage.
  simpl. by case_decide.
Qed.

Lemma ws_wf_scheduleReconnect st :
  ws_wf st -> WsRuntime.ws st = None -> ws_wf (WsRuntime.scheduleReconnect st).1.
Proof.
  intros Hwf Hws. unfold WsRuntime.scheduleReconnect.
  destruct (WsRuntime.reconnectTimer st) as [h|] eqn:Hr; [done|].
  rewrite ws_seq_fst. simpl.
  assert (WsRuntime.timers st = []) as Hts.
  { destruct (WsRuntime.timers st) as [|h ts] eqn:Hts; [done|].
    destruct (ws_timer _ Hwf h) as (_ & Hh & _); [rewrite Hts; left|]. congruence. }
  destruct Hwf as [H1 H2 H3 H4 H5]. split; simpl; rewrite ?Hts; simpl.
  - by rewrite Hws.
  - eauto.
  - by intros h ->%list_elem_of_singleton.
  - intros h ->%list_elem_of_singleton. lia.
  - unfold WsRuntime.maxReconnectDelay in *. lia.
Qed.

Lemma ws_wf_connect throws st :
  ws_wf st -> WsRuntime.ws st = None -> WsRuntime.timers st = [] ->
  ws_wf (WsRuntime.connect throws st).1.
Proof.
  intros Hwf Hws Hts. unfold WsRuntime.connect, WsRuntime.readyState.
  rewrite Hws. simpl.
  rewrite ws_seq_fst. destruct throws.
  - rewrite ws_seq_fst. apply ws_wf_scheduleReconnect; [|done].
    eapply ws_wf_same; [exact Hwf | done..| apply Hwf].
  - simpl. destruct Hwf as [H1 H2 H3 H4 H5]. split; simpl.
    + intros i [= <-]. rewrite length_app. simpl. lia.
    + intros i r Hi Hr.
      destruct (decide (i < length (WsRuntime.sockets st))) as [Hlt|Hge].
      * rewrite lookup_app_l in Hi by done.
        specialize (H2 i r Hi Hr). congruence.
      * rewrite lookup_app_r in Hi by lia.
        destruct (i - length (WsRuntime.sockets st)) as [|n] eqn:Hn; [|done].
        f_equal. lia.
    + rewrite Hts. by intros h ?%elem_of_nil.
    + rewrite Hts. by intros h ?%elem_of_nil.
    + done.
Qed.

Lemma ws_wf_construct throws : ws_wf (WsRuntime.construct throws).1.
Proof.
  apply ws_wf_connect; try done.
  split; simpl; try done.
  - by intros h ?%elem_of_nil.
  - by intros h ?%elem_of_nil.
Qed.

Lemma ws_wf_step st e st' out :
  ws_wf st -> WsRuntime.step st e = Some (st', out) -> ws_wf st'.
Proof.
  intros Hwf Hstep.
  assert (forall r : WsRuntime.t * list WsClient.Effect,
            Some r = Some (st', out) -> st' = r.1) as Hfst.
  { by intros r [= ->]. }
  destruct e as [m| |i|i|h throws]; simpl in Hstep.
  - apply Hfst in Hstep. subst st'.
    destruct (postMessage_fields m st) as (E1 & E2 & E3 & E4 & E5 & E6 & E7).
    eapply ws_wf_same; [exact Hwf | done..|]. rewrite E4. apply Hwf.
  - apply Hfst in Hstep. subst st'. unfold WsRuntime.dispose.
    destruct Hwf as [H1 H2 H3 H4 H5]. split; simpl.
    + intros i Hi. destruct (WsRuntime.ws st); [|done].
      rewrite length_alter. auto.
    + intros i r Hi Hr. destruct (WsRuntime.ws st) as [j|] eqn:Hws; [|eauto].
      destruct (decide (i = j)) as [->|Hne]; [done|].
      rewrite list_lookup_alter_ne in Hi by done. eauto.
    + intros h Hh.
      assert (h ∈ WsRuntime.timers st) as Hin.
      { destruct (WsRuntime.reconnectTimer st); [|done].
        by apply list_elem_of_filter in Hh as [_ ?]. }
      destruct (H3 h Hin) as (Hts & Hr & Hws). rewrite Hr, Hts in Hh.
      rewrite filter_cons_False in Hh by (by intros ?).
      by apply elem_of_nil in Hh.
    + intros h Hh. apply H4.
      destruct (WsRuntime.reconnectTimer st); [|done].
      by apply list_elem_of_filter in Hh as [_ ?].
    + done.
  - destruct (WsRuntime.sockets st !! i) as [r|] eqn:Hi; [|done].
    destruct r; try done. apply Hfst in Hstep. subst st'.
    assert (WsRuntime.ws st = Some i) as Hws by (by eapply (ws_others _ Hwf)).
    destruct (onopen_fields (WsRuntime.set_socket i OPEN st))
      as (E1 & E2 & E3 & E4 & E5 & E6 & E7).
    destruct Hwf as [H1 H2 H3 H4 H5].
    split; rewrite ?E1, ?E2, ?E3, ?E4, ?E6, ?E7; simpl.
    + intros j Hj. rewrite length_insert. auto.
    + intros j r Hj Hr. destruct (decide (j = i)) as [->|Hne]; [done|].
      rewrite list_lookup_insert_ne in Hj by done. eauto.
    + done.
    + done.
    + unfold WsRuntime.maxReconnectDelay. lia.
  - destruct (WsRuntime.sockets st !! i) as [r|] eqn:Hi; [|done].
    assert (r ≠ CLOSED) as Hr by (by intros ->).
    assert (WsRuntime.ws st = Some i) as Hws by (by eapply (ws_others _ Hwf)).
    assert (Some (WsRuntime.onclose (WsRuntime.set_socket i CLOSED st)) = Some (st', out))
      as Heq by (by destruct r).
    apply Hfst in Heq. subst st'.
    unfold WsRuntime.onclose. rewrite !ws_seq_fst.
    apply ws_wf_scheduleReconnect; [|done].
    destruct Hwf as [H1 H2 H3 H4 H5]. split; simpl; try done.
    + intros j r' Hj Hr'. destruct (decide (j = i)) as [->|Hne].
      * rewrite list_lookup_insert_eq in Hj by (by eapply lookup_lt_Some).
        congruence.
      * rewrite list_lookup_insert_ne in Hj by done.
        specialize (H2 j r' Hj Hr'). congruence.
    + intros h Hh. by destruct (H3 h Hh) as (? & ? & ?).
  - case_decide as Hh; [|done]. apply Hfst in Hstep. subst st'.
    destruct (ws_timer _ Hwf h Hh) as (Hts & Hr & Hws).
    unfold WsRuntime.reconnectFires. rewrite ws_seq_fst.
    apply ws_wf_connect; simpl; try done.
    + destruct Hwf as [H1 H2 H3 H4 H5]. split; simpl; try done.
      * rewrite Hts, filter_cons_False by (by intros ?). by intros h' ?%elem_of_nil.
      * intros h' [_ ?]%list_elem_of_filter. auto.
    + rewrite Hts. by rewrite filter_cons_False by (by intros ?).
Qed.

Lemma ws_wf_run es : forall st st' out,
  ws_wf st -> WsRuntime.run st es = Some (st', out) -> ws_wf st'.
Proof.
  induction es as [|e es IH]; intros st st' out Hwf; simpl.
  - by intros [= <- _].
  - destruct (WsRuntime.step st e) as [[st1 out1]|] eqn:Hstep; [|done].
    destruct (WsRuntime.run st1 es) as [[st2 out2]|] eqn:Hrun; [|done].
    intros [= <- _]. eapply IH; [|done]. by eapply ws_wf_step.
Qed.

(** X23. The browser's client never has two live sockets and never waits
    on two timers. In every state it reaches after its constructor, every
    socket it has constructed other than the one it holds is closed; when a
    reconnect timer is armed it is the only one, its handle is in the
    field, and no socket is held; and the reconnect delay is between one
    and thirty seconds. *)
Theorem browser_one_live_socket (throws : bool) (es : list WsRuntime.Event)
    (st : WsRuntime.t) (out : list WsClient.Effect) :
  WsRuntime.run (WsRuntime.construct throws).1 es = Some (st, out) ->
  (forall i r,
      WsRuntime.sockets st !! i = Some r -> r ≠ CLOSED -> WsRuntime.ws st = Some i) /\
  (forall h, h ∈ WsRuntime.timers st ->
      WsRuntime.timers st = [h] /\ WsRuntime.reconnectTimer st = Some h /\
      WsRuntime.ws st = None) /\
  (1000 <= WsRuntime.reconnectDelay st <= 30000)%Z.
Proof.
  intros Hrun.
  pose proof (ws_wf_run _ _ _ _ (ws_wf_construct throws) Hrun) as [H1 H2 H3 H4 H5].
  split; [exact H2|]. split; [exact H3 | exact H5].
Qed.

Lemma browser_one_live_socket_witness :
  exists st out,
    WsRuntime.run (WsRuntime.construct false).1 browserWaiting = Some (st, out) /\
    WsRuntime.timers st = [1] /\
    (1000 <= WsRuntime.reconnectDelay st <= 30000)%Z.
Proof.
  destruct (WsRuntime.run (WsRuntime.construct false).1 browserWaiting)
    as [[st out]|] eqn:Hrun; [|by vm_compute in Hrun].
  exists st, out. split; [reflexivity|]. split.
  - vm_compute in Hrun. by injection Hrun as <- _.
  - exact (proj2 (proj2 (browser_one_live_socket false browserWaiting st out Hrun))).
Defined.

Lemma flush_open (l : list jsstring) st :
  WsClient.ws st = Some OPEN ->
  (l ≫= fun msg => WsClient.wsSend msg st) = WsClient.Sent <$> l.
Proof.
  intros Hws. unfold WsClient.wsSend. rewrite Hws.
  induction l as [|m l IH]; [done|]. csimpl. by rewrite IH.
Qed.

Lemma onclose_unarmed st :
  WsRuntime.reconnectTimer st = None ->
  WsRuntime.onclose st
  = (WsRuntime.mk None (WsRuntime.sockets st) (Some (WsRuntime.nextTimer st))
       (Z.min (WsRuntime.reconnectDelay st * 2) 30000) WsClient.ws_reconnecting
       (WsRuntime.sendBuffer st) (WsRuntime.timers st ++ [WsRuntime.nextTimer st])
       (S (WsRuntime.nextTimer st)),
     [WsClient.Notified WsClient.ws_disconnected None;
      WsClient.Notified WsClient.ws_reconnecting
        (Some (WsRuntime.retrying (WsRuntime.reconnectDelay st)))]).
Proof.
  intros Hnone. unfold WsRuntime.onclose, WsRuntime.seq_act, WsRuntime.scheduleReconnect.
  simpl. rewrite Hnone. reflexivity.
Qed.

Lemma reconnectFires_unheld st :
  WsRuntime.ws st = None ->
  WsRuntime.reconnectFires false st
  = (WsRuntime.mk (Some (length (WsRuntime.sockets st)))
       (WsRuntime.sockets st ++ [CONNECTING]) None (WsRuntime.reconnectDelay st)
       WsClient.ws_connecting (WsRuntime.sendBuffer st) (WsRuntime.timers st)
       (WsRuntime.nextTimer st),
     [WsClient.Notified WsClient.ws_connecting None]).
Proof.
  intros Hws. unfold WsRuntime.reconnectFires, WsRuntime.seq_act, WsRuntime.connect,
    WsRuntime.readyState. simpl. rewrite Hws. reflexivity.
Qed.

Lemma onopen_held_open st i :
  WsRuntime.ws st = Some i ->
  WsRuntime.sockets st !! i = Some OPEN ->
  WsRuntime.onopen st
  = (WsRuntime.mk (WsRuntime.ws st) (WsRuntime.sockets st) (WsRuntime.reconnectTimer st)
       1000 WsClient.ws_connected [] (WsRuntime.timers st) (WsRuntime.nextTimer st),
     WsClient.Notified WsClient.ws_connected None
     :: (WsClient.Sent <$> WsRuntime.sendBuffer st)
     ++ [WsClient.Sent WsClient.webviewReady]).
Proof.
  intros Hws Hi.
  unfold WsRuntime.onopen, WsRuntime.lift, WsRuntime.view, WsRuntime.readyState.
  rewrite Hws. simpl. rewrite Hi.
  unfold WsClient.onopen, WsClient.postMessage. simpl.
  rewrite flush_open by done. reflexivity.
Qed.

(** X24. A reconnect, start to end. When the socket the client holds
    closes and no reconnect timer is held, the client reports
    [disconnected] and then [reconnecting] with [Retrying in <n>s], arms
    one timer and doubles the delay up to thirty seconds; when the timer
    fires it reports [connecting] and holds a new socket; and when that
    socket opens it reports [connected], sets the delay back to one second
    and sends what was in the buffer before the close, in order, followed
    by [webviewReady]: the buffer outlives the reconnect. *)
Theorem browser_reconnect_cycle (st : WsRuntime.t) (i : nat) (r : ReadyState) :
  ws_wf st ->
  WsRuntime.sockets st !! i = Some r -> r ≠ CLOSED ->
  WsRuntime.reconnectTimer st = None ->
  let h := WsRuntime.nextTimer st in
  let n := length (WsRuntime.sockets st) in
  exists st1 st2 st3,
    WsRuntime.step st (WsRuntime.SockClose i)
    = Some (st1, [WsClient.Notified WsClient.ws_disconnected None;
                  WsClient.Notified WsClient.ws_reconnecting
                    (Some (WsRuntime.retrying (WsRuntime.reconnectDelay st)))]) /\
    WsRuntime.timers st1 = [h] /\
    WsRuntime.reconnectDelay st1 = Z.min (WsRuntime.reconnectDelay st * 2) 30000 /\
    WsRuntime.step st1 (WsRuntime.TimerFires h false)
    = Some (st2, [WsClient.Notified WsClient.ws_connecting None]) /\
    WsRuntime.ws st2 = Some n /\
    WsRuntime.sockets st2 !! n = Some CONNECTING /\
    WsRuntime.step st2 (WsRuntime.SockOpen n)
    = Some (st3, WsClient.Notified WsClient.ws_connected None
                 :: (WsClient.Sent <$> WsRuntime.sendBuffer st)
                 ++ [WsClient.Sent WsClient.webviewReady]) /\
    WsRuntime.reconnectDelay st3 = 1000%Z /\
    WsRuntime.state st3 = WsClient.ws_connected /\
    WsRuntime.sendBuffer st3 = [].
Proof.
  intros Hwf Hi Hr Hnone h n.
  assert (WsRuntime.timers st = []) as Hts.
  { destruct (WsRuntime.timers st) as [|h' ts] eqn:Hts; [done|].
    destruct (ws_timer _ Hwf h') as (_ & Hh & _); [rewrite Hts; left|]. congruence. }
  assert (length (<[i := CLOSED]> (WsRuntime.sockets st)) = n) as Hlen
    by apply length_insert.
  exists (WsRuntime.mk None (<[i := CLOSED]> (WsRuntime.sockets st)) (Some h)
            (Z.min (WsRuntime.reconnectDelay st * 2) 30000)
            WsClient.ws_reconnecting (WsRuntime.sendBuffer st) [h] (S h)),
    (WsRuntime.mk (Some n) (<[i := CLOSED]> (WsRuntime.sockets st) ++ [CONNECTING])
       None (Z.min (WsRuntime.reconnectDelay st * 2) 30000)
       WsClient.ws_connecting (WsRuntime.sendBuffer st) [] (S h)),
    (WsRuntime.mk (Some n)
       (<[n := OPEN]> (<[i := CLOSED]> (WsRuntime.sockets st) ++ [CONNECTING]))
       None 1000 WsClient.ws_connected [] [] (S h)).
  assert ((<[i := CLOSED]> (WsRuntime.sockets st) ++ [CONNECTING]) !! n
          = Some CONNECTING) as Hn.
  { rewrite lookup_app_r by (rewrite Hlen; lia). by rewrite Hlen, Nat.sub_diag. }
  split; [|split; [reflexivity|]; split; [reflexivity|]; split;
           [|split; [reflexivity|]; split; [exact Hn|]; split;
              [|split; [reflexivity|]; split; reflexivity]]].
  - unfold WsRuntime.step. rewrite Hi.
    rewrite (onclose_unarmed (WsRuntime.set_socket i CLOSED st) Hnone).
    unfold WsRuntime.set_socket. cbn [WsRuntime.sockets WsRuntime.nextTimer
      WsRuntime.reconnectDelay WsRuntime.sendBuffer WsRuntime.timers].
    rewrite Hts. destruct r; [reflexivity..|by destruct Hr].
  - unfold WsRuntime.step. cbn [WsRuntime.timers].
    rewrite decide_True by apply list_elem_of_here.
    rewrite filter_cons_False by (by intros ?). rewrite filter_nil.
    rewrite reconnectFires_unheld by reflexivity.
    unfold WsRuntime.set_timers. cbn [WsRuntime.sockets WsRuntime.nextTimer
      WsRuntime.reconnectDelay WsRuntime.sendBuffer WsRuntime.timers].
    by rewrite Hlen.
  - unfold WsRuntime.step. cbn [WsRuntime.sockets]. rewrite Hn.
    rewrite (onopen_held_open _ n); [reflexivity | reflexivity |].
    unfold WsRuntime.set_socket. cbn [WsRuntime.sockets].
    apply list_lookup_insert_eq. rewrite length_app, Hlen. simpl. lia.
Qed.

Lemma ws_wf_browserPosting : ws_wf browserPosting.
Proof.
  apply (ws_wf_step (WsRuntime.construct false).1 (WsRuntime.Post (saveSeats 1))
           browserPosting
           (WsRuntime.postMessage (saveSeats 1) (WsRuntime.construct false).1).2).
  - apply ws_wf_construct.
  - unfold WsRuntime.step, browserPosting. by rewrite <- surjective_pairing.
Qed.

Lemma browser_reconnect_cycle_witness :
  exists st1 st2 st3,
    WsRuntime.step st2 (WsRuntime.SockOpen (length (WsRuntime.sockets browserPosting)))
    = Some (st3, WsClient.Notified WsClient.ws_connected None
                 :: (WsClient.Sent <$> WsRuntime.sendBuffer browserPosting)
                 ++ [WsClient.Sent WsClient.webviewReady]) /\
    WsRuntime.timers st1 = [WsRuntime.nextTimer browserPosting] /\
    WsRuntime.reconnectDelay st3 = 1000%Z.
Proof.
  assert (WsRuntime.sockets browserPosting !! 0 = Some CONNECTING) as Hi by reflexivity.
  assert (CONNECTING ≠ CLOSED) as Hr by discriminate.
  assert (WsRuntime.reconnectTimer browserPosting = None) as Hnone by reflexivity.
  destruct (browser_reconnect_cycle browserPosting 0 CONNECTING ws_wf_browserPosting
              Hi Hr Hnone)
    as (st1 & st2 & st3 & _ & Hts & _ & _ & _ & _ & Hopen & Hd & _).
  exists st1, st2, st3. split; [exact Hopen|]. split; [exact Hts | exact Hd].
Defined.

(** ** [dispose] *)

Lemma halted_step st e st' out :
  halted st -> WsRuntime.step st e = Some (st', out) ->
  halted st' /\ out = [] /\ is_call e /\
  WsRuntime.state st' = WsRuntime.state st /\
  WsRuntime.reconnectTimer st' = WsRuntime.reconnectTimer st /\
  WsRuntime.reconnectDelay st' = WsRuntime.reconnectDelay st.
Proof.
  intros (Hws & Hts & Hclosed) Hstep.
  destruct e as [m| |i|i|h throws]; unfold WsRuntime.step in Hstep.
  - injection Hstep as Heq.
    destruct (postMessage_fields m st) as (E1 & E2 & E3 & E4 & E5 & E6 & E7).
    assert ((WsRuntime.postMessage m st).2 = []) as Hout.
    { unfold WsRuntime.postMessage, WsRuntime.lift, WsRuntime.view,
        WsRuntime.readyState, WsClient.postMessage. rewrite Hws. reflexivity. }
    rewrite Heq in E1, E2, E3, E4, E5, E6, E7, Hout. simpl in *.
    split; [split; [congruence | split; [congruence|]]|].
    + intros i r. rewrite E2. apply Hclosed.
    + by split_and!.
  - unfold WsRuntime.dispose in Hstep. rewrite Hws, Hts in Hstep.
    injection Hstep as <- <-. simpl.
    split; [split; [done | split; [by destruct (WsRuntime.reconnectTimer st) | done]]|].
    by split_and!.
  - destruct (WsRuntime.sockets st !! i) as [r|] eqn:Hi; [|discriminate Hstep].
    rewrite (Hclosed i r Hi) in Hstep. discriminate Hstep.
  - destruct (WsRuntime.sockets st !! i) as [r|] eqn:Hi; [|discriminate Hstep].
    rewrite (Hclosed i r Hi) in Hstep. discriminate Hstep.
  - rewrite Hts in Hstep. rewrite decide_False in Hstep by apply not_elem_of_nil.
    discriminate Hstep.
Qed.

(** X25. [dispose] while the client waits to retry stops it for good. The
    pending timer is cleared, and from then on nothing but calls of
    [postMessage] and [dispose] can happen to the client: no socket event
    and no timer is left to deliver. It notifies nobody and sends nothing
    any more, it holds no socket and arms no timer, and its state stays
    what it was. *)
Theorem dispose_while_waiting (st : WsRuntime.t) (h : nat)
    (es : list WsRuntime.Event) (st' : WsRuntime.t) (out : list WsClient.Effect) :
  ws_wf st ->
  h ∈ WsRuntime.timers st ->
  WsRuntime.run (WsRuntime.dispose st).1 es = Some (st', out) ->
  Forall is_call es /\
  out = [] /\
  WsRuntime.ws st' = None /\
  WsRuntime.timers st' = [] /\
  (forall i r, WsRuntime.sockets st' !! i = Some r -> r = CLOSED) /\
  WsRuntime.state st' = WsRuntime.state st /\
  WsRuntime.reconnectTimer st' = Some h.
Proof.
  intros Hwf Hh.
  destruct (ws_timer _ Hwf h Hh) as (Hts & Hr & Hws).
  assert (halted (WsRuntime.dispose st).1) as Hhalt.
  { unfold WsRuntime.dispose. rewrite Hws, Hr, Hts. simpl.
    rewrite filter_cons_False by (by intros ?). split; [done|]. split; [done|].
    intros i r Hi. destruct (decide (r = CLOSED)) as [->|Hne]; [done|].
    pose proof (ws_others _ Hwf i r Hi Hne). congruence. }
  assert (WsRuntime.state (WsRuntime.dispose st).1 = WsRuntime.state st) as Hstate
    by reflexivity.
  assert (WsRuntime.reconnectTimer (WsRuntime.dispose st).1 = Some h) as Hfield
    by exact Hr.
  revert Hhalt Hstate Hfield. generalize (WsRuntime.dispose st).1. clear Hwf Hh Hts Hr Hws.
  revert st' out. induction es as [|e es IH]; intros st' out s Hhalt Hstate Hfield; simpl.
  - intros [= <- <-]. destruct Hhalt as (? & ? & ?). by split_and!.
  - destruct (WsRuntime.step s e) as [[s1 out1]|] eqn:Hstep; [|discriminate].
    destruct (WsRuntime.run s1 es) as [[s2 out2]|] eqn:Hrun; [|discriminate].
    intros [= <- <-].
    destruct (halted_step _ _ _ _ Hhalt Hstep) as (Hhalt1 & -> & Hcall & Hs1 & Hf1 & _).
    destruct (IH s2 out2 s1 Hhalt1) as (Hes & -> & Hrest); [congruence | congruence | done |].
    split; [by apply Forall_cons|]. by split.
Qed.

Lemma dispose_while_waiting_witness :
  exists st' out,
    WsRuntime.run (WsRuntime.dispose browserRetrying).1
      [WsRuntime.Post (saveSeats 1); WsRuntime.Dispose] = Some (st', out) /\
    out = [] /\ WsRuntime.timers st' = [].
Proof.
  assert (ws_wf browserRetrying) as Hwf.
  { split; simpl; try done.
    - intros [|i] r; simpl; [by intros [= <-] ? | done].
    - by intros h ->%list_elem_of_singleton.
    - intros h ->%list_elem_of_singleton. lia. }
  assert (1 ∈ WsRuntime.timers browserRetrying) as Hh by apply list_elem_of_here.
  destruct (WsRuntime.run (WsRuntime.dispose browserRetrying).1
              [WsRuntime.Post (saveSeats 1); WsRuntime.Dispose])
    as [[st' out]|] eqn:Hrun; [|by vm_compute in Hrun].
  exists st', out. split; [reflexivity|].
  destruct (dispose_while_waiting browserRetrying 1 _ st' out Hwf Hh Hrun)
    as (_ & Hout & _ & Hts & _).
  by split.
Defined.

Lemma ws_run_cons st e es st1 out1 st2 out2 :
  WsRuntime.step st e = Some (st1, out1) ->
  WsRuntime.run st1 es = Some (st2, out2) ->
  WsRuntime.run st (e :: es) = Some (st2, out1 ++ out2).
Proof. intros H1 H2. simpl. by rewrite H1, H2. Qed.

(** X26. [dispose] does not stop a client that is connected. With an open
    socket and no timer held, [dispose] only asks the socket to close; when
    the socket has closed the client reports [disconnected] and
    [reconnecting] and arms a reconnect timer as after any other close, and
    when the timer fires it connects again. *)
Theorem dispose_while_connected (st : WsRuntime.t) (i : nat) :
  ws_wf st ->
  WsRuntime.ws st = Some i ->
  WsRuntime.sockets st !! i = Some OPEN ->
  WsRuntime.reconnectTimer st = None ->
  exists st',
    WsRuntime.run st
      [WsRuntime.Dispose; WsRuntime.SockClose i;
       WsRuntime.TimerFires (WsRuntime.nextTimer st) false]
    = Some (st', [WsClient.Notified WsClient.ws_disconnected None;
                  WsClient.Notified WsClient.ws_reconnecting
                    (Some (WsRuntime.retrying (WsRuntime.reconnectDelay st)));
                  WsClient.Notified WsClient.ws_connecting None]) /\
    WsRuntime.ws st' = Some (length (WsRuntime.sockets st)) /\
    WsRuntime.sockets st' !! length (WsRuntime.sockets st) = Some CONNECTING /\
    WsRuntime.state st' = WsClient.ws_connecting.
Proof.
  intros Hwf Hws Hi Hnone.
  assert (WsRuntime.timers st = []) as Hts.
  { destruct (WsRuntime.timers st) as [|h' ts] eqn:Hts; [done|].
    destruct (ws_timer _ Hwf h') as (_ & Hh & _); [rewrite Hts; left|]. congruence. }
  set (h := WsRuntime.nextTimer st).
  set (closing := alter WsRuntime.closing i (WsRuntime.sockets st)).
  set (socks := <[i := CLOSED]> closing).
  assert (length socks = length (WsRuntime.sockets st)) as Hlen.
  { subst socks closing. by rewrite length_insert, length_alter. }
  set (disposed := WsRuntime.mk (Some i) closing None (WsRuntime.reconnectDelay st)
                     (WsRuntime.state st) (WsRuntime.sendBuffer st) [] h).
  set (waiting := WsRuntime.mk None socks (Some h)
                    (Z.min (WsRuntime.reconnectDelay st * 2) 30000)
                    WsClient.ws_reconnecting (WsRuntime.sendBuffer st) [h] (S h)).
  set (again := WsRuntime.mk (Some (length (WsRuntime.sockets st)))
                  (socks ++ [CONNECTING]) None
                  (Z.min (WsRuntime.reconnectDelay st * 2) 30000)
                  WsClient.ws_connecting (WsRuntime.sendBuffer st) [] (S h)).
  assert (WsRuntime.step st WsRuntime.Dispose = Some (disposed, [])) as H1.
  { unfold WsRuntime.step, WsRuntime.dispose. by rewrite Hws, Hnone, Hts. }
  assert (WsRuntime.step disposed (WsRuntime.SockClose i)
          = Some (waiting,
                  [WsClient.Notified WsClient.ws_disconnected None;
                   WsClient.Notified WsClient.ws_reconnecting
                     (Some (WsRuntime.retrying (WsRuntime.reconnectDelay st)))])) as H2.
  { unfold WsRuntime.step. cbn [WsRuntime.sockets disposed].
    unfold closing at 1. rewrite list_lookup_alter_eq, Hi.
    cbn [fmap option_fmap option_map WsRuntime.closing].
    rewrite onclose_unarmed by reflexivity. reflexivity. }
  assert (WsRuntime.step waiting (WsRuntime.TimerFires h false)
          = Some (again, [WsClient.Notified WsClient.ws_connecting None])) as H3.
  { unfold WsRuntime.step. cbn [WsRuntime.timers waiting].
    rewrite decide_True by apply list_elem_of_here.
    rewrite filter_cons_False by (by intros ?). rewrite filter_nil.
    rewrite reconnectFires_unheld by reflexivity.
    unfold WsRuntime.set_timers. cbn [WsRuntime.sockets WsRuntime.nextTimer
      WsRuntime.reconnectDelay WsRuntime.sendBuffer WsRuntime.timers waiting].
    by rewrite Hlen. }
  exists again. split; [|split; [reflexivity|]; split; [|reflexivity]].
  - apply (ws_run_cons _ _ _ _ [] _ _ H1).
    apply (ws_run_cons _ _ _ _ _ _ _ H2).
    apply (ws_run_cons _ _ _ _ _ _ [] H3). reflexivity.
  - cbn [WsRuntime.sockets again]. rewrite lookup_app_r by (rewrite Hlen; lia).
    by rewrite Hlen, Nat.sub_diag.
Qed.

Lemma dispose_while_connected_witness :
  exists st',
    WsRuntime.run browserOpen
      [WsRuntime.Dispose; WsRuntime.SockClose 0; WsRuntime.TimerFires 1 false]
    = Some (st', [WsClient.Notified WsClient.ws_disconnected None;
                  WsClient.Notified WsClient.ws_reconnecting
                    (Some (js "Retrying in 1s"));
                  WsClient.Notified WsClient.ws_connecting None]) /\
    WsRuntime.ws st' = Some 1.
Proof.
  assert (ws_wf browserOpen) as Hwf.
  { split; simpl; try done.
    - intros i [= <-]. lia.
    - intros [|i] r; simpl; done.
    - by intros h ?%elem_of_nil.
    - by intros h ?%elem_of_nil. }
  destruct (dispose_while_connected browserOpen 0 Hwf eq_refl eq_refl eq_refl)
    as (st' & Hrun & Hws & _).
  exists st'. split; [exact Hrun | exact Hws].
Defined.

(** * The browser's client: the send buffer over reconnects *)

Lemma buffer_kept_seq f g :
  buffer_kept f -> buffer_kept g -> buffer_kept (WsRuntime.seq_act f g).
Proof.
  intros Hf Hg st. rewrite ws_seq_fst, ws_seq_snd.
  destruct (Hf st) as (Hb1 & Hs1 & Hr1). destruct (Hg (f st).1) as (Hb2 & Hs2 & Hr2).
  split; [congruence|]. split; [|auto].
  unfold sent in *. by rewrite omap_app, Hs1, Hs2.
Qed.

Lemma buffer_kept_setState s detail : buffer_kept (WsRuntime.setState s detail).
Proof. intros st. by split_and!. Qed.

Lemma buffer_kept_scheduleReconnect : buffer_kept WsRuntime.scheduleReconnect.
Proof.
  intros st. unfold WsRuntime.scheduleReconnect.
  destruct (WsRuntime.reconnectTimer st); [by split_and!|].
  rewrite ws_seq_fst, ws_seq_snd. by split_and!.
Qed.

Lemma buffer_kept_connect throws : buffer_kept (WsRuntime.connect throws).
Proof.
  intros st. unfold WsRuntime.connect. case_decide as Hc; [by split_and!|]. clear Hc.
  revert st. apply buffer_kept_seq; [apply buffer_kept_setState|].
  intros st. destruct throws.
  - revert st. apply buffer_kept_seq;
      [apply buffer_kept_setState | apply buffer_kept_scheduleReconnect].
  - split; [reflexivity|]. split; [reflexivity|]. intros _.
    unfold WsRuntime.readyState. simpl.
    rewrite lookup_app_r by lia. by rewrite Nat.sub_diag.
Qed.

Lemma buffer_kept_onclose : buffer_kept WsRuntime.onclose.
Proof.
  unfold WsRuntime.onclose. repeat apply buffer_kept_seq.
  - intros st. by split_and!.
  - apply buffer_kept_setState.
  - apply buffer_kept_scheduleReconnect.
Qed.

Lemma buffer_kept_reconnectFires throws : buffer_kept (WsRuntime.reconnectFires throws).
Proof.
  unfold WsRuntime.reconnectFires. apply buffer_kept_seq; [|apply buffer_kept_connect].
  intros st. by split_and!.
Qed.

Lemma buffer_kept_dispose : buffer_kept WsRuntime.dispose.
Proof.
  intros st. split; [reflexivity|]. split; [reflexivity|]. intros _.
  unfold WsRuntime.dispose, WsRuntime.readyState. simpl.
  destruct (WsRuntime.ws st) as [i|]; simpl; [|done].
  rewrite list_lookup_alter_eq.
  by destruct (WsRuntime.sockets st !! i) as [[]|].
Qed.

Lemma post_closed m st :
  WsRuntime.readyState st ≠ Some OPEN ->
  length (WsRuntime.sendBuffer st) <= WsClient.maxBufferSize ->
  (WsRuntime.postMessage m st).2 = [] /\
  WsRuntime.sendBuffer (WsRuntime.postMessage m st).1
  = lastN WsClient.maxBufferSize (WsRuntime.sendBuffer st ++ [m]) /\
  WsRuntime.readyState (WsRuntime.postMessage m st).1 = WsRuntime.readyState st.
Proof.
  intros Hws Hlen.
  destruct (postMessage_closed m (WsRuntime.view st) Hws Hlen) as (Hout & _ & _ & Hbuf).
  unfold WsRuntime.postMessage, WsRuntime.lift.
  destruct (WsClient.postMessage m (WsRuntime.view st)) as [c o]. simpl in *.
  by split_and!.
Qed.

Lemma post_bounded m st :
  length (WsRuntime.sendBuffer st) <= WsClient.maxBufferSize ->
  length (WsRuntime.sendBuffer (WsRuntime.postMessage m st).1) <= WsClient.maxBufferSize.
Proof.
  intros Hlen.
  destruct (decide (WsRuntime.readyState st = Some OPEN)) as [Hopen|Hclosed].
  - unfold WsRuntime.postMessage, WsRuntime.lift, WsClient.postMessage.
    cbn [WsRuntime.view WsClient.ws]. by rewrite decide_True.
  - destruct (post_closed m st Hclosed Hlen) as (_ & -> & _). apply length_lastN.
Qed.

Lemma onopen_bounded st :
  length (WsRuntime.sendBuffer (WsRuntime.onopen st).1) <= WsClient.maxBufferSize.
Proof.
  unfold WsRuntime.onopen, WsRuntime.lift, WsClient.onopen, WsClient.postMessage.
  cbn [WsClient.setState WsClient.ws WsClient.sendBuffer WsRuntime.view
       WsClient.reconnectTimer WsClient.reconnectDelay WsClient.state].
  case_decide; simpl; unfold WsClient.maxBufferSize; lia.
Qed.

Lemma bounded_step st e st' out :
  length (WsRuntime.sendBuffer st) <= WsClient.maxBufferSize ->
  WsRuntime.step st e = Some (st', out) ->
  length (WsRuntime.sendBuffer st') <= WsClient.maxBufferSize.
Proof.
  intros Hlen Hstep.
  assert (forall r : WsRuntime.t * list WsClient.Effect,
            Some r = Some (st', out) -> st' = r.1) as Hfst.
  { by intros r [= ->]. }
  destruct e as [m| |i|i|h throws]; unfold WsRuntime.step in Hstep.
  - apply Hfst in Hstep. subst st'. by apply post_bounded.
  - apply Hfst in Hstep. subst st'. by rewrite (proj1 (buffer_kept_dispose st)).
  - destruct (WsRuntime.sockets st !! i) as [[]|]; try discriminate Hstep.
    apply Hfst in Hstep. subst st'. apply onopen_bounded.
  - destruct (WsRuntime.sockets st !! i) as [[]|]; try discriminate Hstep;
      apply Hfst in Hstep; subst st';
      by rewrite (proj1 (buffer_kept_onclose _)).
  - case_decide; [|discriminate Hstep].
    apply Hfst in Hstep. subst st'. by rewrite (proj1 (buffer_kept_reconnectFires _ _)).
Qed.

Lemma bounded_run es : forall st st' out,
  length (WsRuntime.sendBuffer st) <= WsClient.maxBufferSize ->
  WsRuntime.run st es = Some (st', out) ->
  length (WsRuntime.sendBuffer st') <= WsClient.maxBufferSize.
Proof.
  induction es as [|e es IH]; intros st st' out Hlen; simpl.
  - by intros [= <- _].
  - destruct (WsRuntime.step st e) as [[st1 out1]|] eqn:Hstep; [|discriminate].
    destruct (WsRuntime.run st1 es) as [[st2 out2]|] eqn:Hrun; [|discriminate].
    intros [= <- _]. eapply IH; [|exact Hrun]. by eapply bounded_step.
Qed.

Lemma bounded_construct throws :
  length (WsRuntime.sendBuffer (WsRuntime.construct throws).1) <= WsClient.maxBufferSize.
Proof.
  unfold WsRuntime.construct. rewrite (proj1 (buffer_kept_connect throws _)).
  simpl. lia.
Qed.

(** One event other than the opening of a socket, on a client whose
    socket is not open. *)
Lemma closed_step st e st' out :
  WsRuntime.readyState st ≠ Some OPEN ->
  length (WsRuntime.sendBuffer st) <= WsClient.maxBufferSize ->
  ~ is_open_event e ->
  WsRuntime.step st e = Some (st', out) ->
  WsRuntime.readyState st' ≠ Some OPEN /\
  sent out = [] /\
  WsRuntime.sendBuffer st'
  = lastN WsClient.maxBufferSize (WsRuntime.sendBuffer st ++ posts [e]).
Proof.
  intros Hws Hlen He Hstep.
  assert (forall f st0,
            buffer_kept f ->
            WsRuntime.readyState st0 ≠ Some OPEN ->
            WsRuntime.sendBuffer st0 = WsRuntime.sendBuffer st ->
            Some (f st0) = Some (st', out) ->
            WsRuntime.readyState st' ≠ Some OPEN /\
            sent out = [] /\
            WsRuntime.sendBuffer st'
            = lastN WsClient.maxBufferSize (WsRuntime.sendBuffer st ++ [])) as Huse.
  { intros f st0 Hf H0 Hb [= Heq]. destruct (Hf st0) as (Hb1 & Hs1 & Hr1).
    rewrite Heq in Hb1, Hs1, Hr1. simpl in *.
    split; [auto|]. split; [done|].
    rewrite app_nil_r, lastN_all by done. congruence. }
  destruct e as [m| |i|i|h throws]; unfold WsRuntime.step in Hstep.
  - injection Hstep as Heq.
    destruct (post_closed m st Hws Hlen) as (Hout & Hbuf & Hr).
    rewrite Heq in Hout, Hbuf, Hr. simpl in *. split; [congruence|]. by split; [subst|].
  - exact (Huse _ _ buffer_kept_dispose Hws eq_refl Hstep).
  - by destruct He.
  - assert (WsRuntime.readyState (WsRuntime.set_socket i CLOSED st) ≠ Some OPEN) as Hc.
    { unfold WsRuntime.readyState, WsRuntime.set_socket. simpl.
      destruct (WsRuntime.ws st) as [j|] eqn:Hj; simpl; [|done].
      destruct (decide (j = i)) as [->|Hne].
      - destruct (decide (i < length (WsRuntime.sockets st))).
        + by rewrite list_lookup_insert_eq.
        + by rewrite list_insert_ge by lia; rewrite lookup_ge_None_2 by lia.
      - rewrite list_lookup_insert_ne by done.
        unfold WsRuntime.readyState in Hws. by rewrite Hj in Hws. }
    destruct (WsRuntime.sockets st !! i) as [[]|]; try discriminate Hstep;
      exact (Huse _ _ buffer_kept_onclose Hc eq_refl Hstep).
  - case_decide; [|discriminate Hstep].
    exact (Huse _ (WsRuntime.set_timers _ st) (buffer_kept_reconnectFires throws)
             Hws eq_refl Hstep).
Qed.

Lemma closed_run es : forall st st' out,
  WsRuntime.readyState st ≠ Some OPEN ->
  length (WsRuntime.sendBuffer st) <= WsClient.maxBufferSize ->
  Forall (fun e => ~ is_open_event e) es ->
  WsRuntime.run st es = Some (st', out) ->
  WsRuntime.readyState st' ≠ Some OPEN /\
  sent out = [] /\
  WsRuntime.sendBuffer st'
  = lastN WsClient.maxBufferSize (WsRuntime.sendBuffer st ++ posts es).
Proof.
  induction es as [|e es IH]; intros st st' out Hws Hlen Hes; simpl.
  - intros [= <- <-]. split; [done|]. split; [done|].
    by rewrite app_nil_r, lastN_all.
  - apply Forall_cons in Hes as [He Hes].
    destruct (WsRuntime.step st e) as [[st1 out1]|] eqn:Hstep; [|discriminate].
    destruct (WsRuntime.run st1 es) as [[st2 out2]|] eqn:Hrun; [|discriminate].
    intros [= <- <-].
    destruct (closed_step _ _ _ _ Hws Hlen He Hstep) as (Hws1 & Hs1 & Hb1).
    assert (length (WsRuntime.sendBuffer st1) <= WsClient.maxBufferSize) as Hlen1
      by (by eapply bounded_step).
    destruct (IH _ _ _ Hws1 Hlen1 Hes Hrun) as (Hws2 & Hs2 & Hb2).
    split; [done|]. split.
    + unfold sent in *. by rewrite omap_app, Hs1, Hs2.
    + transitivity (lastN WsClient.maxBufferSize
                      (WsRuntime.sendBuffer st ++ posts [e] ++ posts es));
        [|by destruct e].
      by rewrite Hb2, Hb1, lastN_lastN_app, <- app_assoc.
Qed.

Lemma posts_closed msgs : forall st,
  WsRuntime.readyState st ≠ Some OPEN ->
  length (WsRuntime.sendBuffer st) <= WsClient.maxBufferSize ->
  exists posted,
    WsRuntime.run st (WsRuntime.Post <$> msgs) = Some (posted, []) /\
    WsRuntime.sendBuffer posted
    = lastN WsClient.maxBufferSize (WsRuntime.sendBuffer st ++ msgs) /\
    WsRuntime.readyState posted = WsRuntime.readyState st.
Proof.
  induction msgs as [|m msgs IH]; intros st Hws Hlen.
  - exists st. split; [reflexivity|]. split; [|reflexivity].
    by rewrite app_nil_r, lastN_all.
  - destruct (post_closed m st Hws Hlen) as (Hout & Hbuf & Hr).
    destruct (IH (WsRuntime.postMessage m st).1) as (posted & Hrun & Hb & Hr').
    { by rewrite Hr. }
    { by apply post_bounded. }
    exists posted. split; [|split; [|congruence]].
    + change (WsRuntime.Post <$> m :: msgs)
        with (WsRuntime.Post m :: (WsRuntime.Post <$> msgs)).
      apply (ws_run_cons _ _ _ (WsRuntime.postMessage m st).1 [] _ [] ); [|exact Hrun].
      unfold WsRuntime.step. rewrite <- Hout. by rewrite <- surjective_pairing.
    + rewrite Hb, Hbuf, lastN_lastN_app, <- app_assoc. done.
Qed.

(** C9. The send buffer of the browser's client, in every state the client
    reaches after its constructor in which the socket it holds is not open
    (connecting, closing, closed, or none held after a close). The buffer
    holds at most 100 messages. Messages posted are not sent: any sequence
    of [postMessage] calls leaves the buffer as the last 100 of what it
    held followed by what was posted, in that order, the oldest being
    dropped when a full buffer takes one more. The same holds when the
    calls are interleaved with whatever else happens before a socket opens
    (closes, reconnect timers, failed attempts, [dispose]): nothing is sent
    and the buffer is the last 100 of what it held followed by what was
    posted meanwhile. When a socket then opens, the buffered messages are
    sent in that order, the buffer is emptied, and [webviewReady] is sent
    after them. *)
Theorem C9_buffer_flushed_in_order (throws : bool) (before : list WsRuntime.Event)
    (st : WsRuntime.t) (out : list WsClient.Effect) :
  WsRuntime.run (WsRuntime.construct throws).1 before = Some (st, out) ->
  WsRuntime.readyState st ≠ Some OPEN ->
  length (WsRuntime.sendBuffer st) <= WsClient.maxBufferSize /\
  (forall msgs, exists posted,
      WsRuntime.run st (WsRuntime.Post <$> msgs) = Some (posted, []) /\
      WsRuntime.sendBuffer posted
      = lastN WsClient.maxBufferSize (WsRuntime.sendBuffer st ++ msgs) /\
      length (WsRuntime.sendBuffer posted) <= WsClient.maxBufferSize) /\
  (forall m : jsstring,
      length (WsRuntime.sendBuffer st) = WsClient.maxBufferSize ->
      WsRuntime.sendBuffer (WsRuntime.postMessage m st).1
      = drop 1 (WsRuntime.sendBuffer st) ++ [m]) /\
  (forall es st2 out2,
      Forall (fun e => ~ is_open_event e) es ->
      WsRuntime.run st es = Some (st2, out2) ->
      sent out2 = [] /\
      WsRuntime.sendBuffer st2
      = lastN WsClient.maxBufferSize (WsRuntime.sendBuffer st ++ posts es) /\
      forall i st3 out3,
        WsRuntime.step st2 (WsRuntime.SockOpen i) = Some (st3, out3) ->
        out3 = WsClient.Notified WsClient.ws_connected None
               :: (WsClient.Sent <$> WsRuntime.sendBuffer st2)
               ++ [WsClient.Sent WsClient.webviewReady] /\
        WsRuntime.sendBuffer st3 = [] /\
        WsRuntime.readyState st3 = Some OPEN).
Proof.
  intros Hbefore Hws.
  assert (ws_wf st) as Hwf by exact (ws_wf_run _ _ _ _ (ws_wf_construct throws) Hbefore).
  assert (length (WsRuntime.sendBuffer st) <= WsClient.maxBufferSize) as Hlen
    by exact (bounded_run _ _ _ _ (bounded_construct throws) Hbefore).
  split; [exact Hlen|]. split; [|split].
  - intros msgs. destruct (posts_closed msgs st Hws Hlen) as (posted & Hrun & Hb & _).
    exists posted. split; [exact Hrun|]. split; [exact Hb|].
    rewrite Hb. apply length_lastN.
  - intros m Hfull. destruct (post_closed m st Hws Hlen) as (_ & -> & _).
    unfold lastN. rewrite length_app, Hfull. simpl.
    replace (WsClient.maxBufferSize + 1 - WsClient.maxBufferSize) with 1 by lia.
    rewrite drop_app_le; [done|]. rewrite Hfull. unfold WsClient.maxBufferSize. lia.
  - intros es st2 out2 Hes Hrun.
    destruct (closed_run _ _ _ _ Hws Hlen Hes Hrun) as (Hws2 & Hs2 & Hb2).
    split; [exact Hs2|]. split; [exact Hb2|].
    intros i st3 out3 Hopen.
    assert (ws_wf st2) as Hwf2 by exact (ws_wf_run _ _ _ _ Hwf Hrun).
    unfold WsRuntime.step in Hopen.
    destruct (WsRuntime.sockets st2 !! i) as [r|] eqn:Hi; [|discriminate Hopen].
    destruct r; try discriminate Hopen.
    assert (WsRuntime.ws st2 = Some i) as Hheld.
    { apply (ws_others _ Hwf2 i CONNECTING Hi). discriminate. }
    assert (i < length (WsRuntime.sockets st2)) as Hlt by (by eapply lookup_lt_Some).
    rewrite (onopen_held_open (WsRuntime.set_socket i OPEN st2) i) in Hopen.
    + injection Hopen as <- <-. split; [reflexivity|]. split; [reflexivity|].
      unfold WsRuntime.readyState, WsRuntime.set_socket. simpl. rewrite Hheld. simpl.
      by apply list_lookup_insert_eq.
    + exact Hheld.
    + unfold WsRuntime.set_socket. simpl. by apply list_lookup_insert_eq.
Qed.

Lemma C9_buffer_flushed_in_order_witness :
  exists st out st2 out2 st3,
    WsRuntime.run (WsRuntime.construct false).1 browserWaiting = Some (st, out) /\
    WsRuntime.readyState st = None /\
    WsRuntime.run st postedOffline = Some (st2, out2) /\
    WsRuntime.step st2 (WsRuntime.SockOpen 1)
    = Some (st3, [WsClient.Notified WsClient.ws_connected None;
                  WsClient.Sent (saveSeats 1); WsClient.Sent (saveSeats 2);
                  WsClient.Sent WsClient.webviewReady]) /\
    WsRuntime.sendBuffer st3 = [] /\
    exists posted,
      WsRuntime.run st (WsRuntime.Post <$> (saveSeats <$> seq 0 102)) = Some (posted, []) /\
      WsRuntime.sendBuffer posted = saveSeats <$> seq 2 100.
Proof.
  destruct (WsRuntime.run (WsRuntime.construct false).1 browserWaiting)
    as [[st out]|] eqn:Hbefore; [|by vm_compute in Hbefore].
  assert (st = browserRetrying) as Hst.
  { vm_compute in Hbefore. by injection Hbefore as <- _. }
  assert (WsRuntime.readyState st ≠ Some OPEN) as Hws by (by rewrite Hst).
  destruct (C9_buffer_flushed_in_order false browserWaiting st out Hbefore Hws)
    as (_ & Hposts & _ & Hflush).
  destruct (WsRuntime.run st postedOffline) as [[st2 out2]|] eqn:Hrun;
    [|by rewrite Hst in Hrun; vm_compute in Hrun].
  destruct (WsRuntime.step st2 (WsRuntime.SockOpen 1)) as [[st3 out3]|] eqn:Hopen;
    [|by rewrite Hst in Hrun; vm_compute in Hrun; injection Hrun as <- _;
         vm_compute in Hopen].
  assert (Forall (fun e => ~ is_open_event e) postedOffline) as Hes.
  { repeat (apply Forall_cons; split; [by intros []|]). apply Forall_nil_2. }
  destruct (Hflush postedOffline st2 out2 Hes Hrun) as (_ & Hbuf & Hnext).
  destruct (Hnext 1 st3 out3 Hopen) as (Hout3 & Hempty & _).
  destruct (Hposts (saveSeats <$> seq 0 102)) as (posted & Hposted & Hlast & _).
  exists st, out, st2, out2, st3.
  split; [reflexivity|]. split; [by rewrite Hst|]. split; [exact Hrun|].
  split; [|split; [exact Hempty|]].
  - rewrite Hopen. f_equal. f_equal. rewrite Hout3, Hbuf, Hst. reflexivity.
  - exists posted. split; [exact Hposted|]. rewrite Hlast, Hst. reflexivity.
Defined.
